(** * vue-form-validator: the validation orchestration core

    A shallow embedding of the validation engine of the repository
    (path resolver, wildcard expander, structural snapshot and comparison,
    validation cache, dependency graph, rule runner with cooperative
    cancellation, debounce adapter, whole-form validity) together with the
    properties the specification states about it.

    Conventions of the embedding.
    - A JavaScript value is a term of [JsValue]; every object-like value
      carries the address of the object ([ref]), so that [===] on objects is
      comparison of addresses.
    - A JavaScript number is an IEEE-754 double, modelled by the Standard
      Library's [spec_float]; [===] on numbers is [SFeqb].
    - [Record<string, X>] stores whose iteration order is irrelevant
      (errors, cache, touched, in-progress flags, abort controllers) are
      [gmap string X]; the rule collection, whose entries are iterated in
      order, is an association list.
    - An [async] function is split at its [await]: the synchronous prefix
      is one function, each resumption another, and the suspended
      invocation is an explicit continuation value. *)

From Stdlib Require Import ZArith Bool Ascii String List DecimalString DecimalNat.
From Stdlib Require Import Floats.SpecFloat.
From stdpp Require Import base option list gmap strings fin_maps.

Local Open Scope string_scope.
Local Open Scope list_scope.

(** ** Strings: the few [String.prototype] operations the engine uses *)

Module Str.

(** [s.includes(c)] for a one-character needle. *)
Fixpoint includes_char (c : ascii) (s : string) : bool :=
  match s with
  | EmptyString => false
  | String d rest => if Ascii.eqb d c then true else includes_char c rest
  end.

(** [s.split('.')]. *)
Fixpoint split_dot (s : string) : list string :=
  match s with
  | EmptyString => [EmptyString]
  | String c rest =>
      if Ascii.eqb c "."%char then EmptyString :: split_dot rest
      else match split_dot rest with
           | seg :: segs => String c seg :: segs
           | [] => [String c EmptyString]
           end
  end.

(** [parts.join('.')]. *)
Fixpoint join_dot (parts : list string) : string :=
  match parts with
  | [] => EmptyString
  | [p] => p
  | p :: rest => p ++ "." ++ join_dot rest
  end.

(** [key.startsWith(prefix)]. *)
Definition startsWith (key pre : string) : bool := String.prefix pre key.

(** [index.toString()] for a non-negative integer. *)
Definition toString (n : nat) : string :=
  NilEmpty.string_of_uint (Nat.to_uint n).

(** The index a property key denotes when it is a canonical array index
    (["0"], ["1"], ["12"], but not ["01"] or ["x"]). *)
Definition parseIndex (key : string) : option nat :=
  match NilEmpty.uint_of_string key with
  | Some d =>
      let n := Nat.of_uint d in
      if String.eqb (toString n) key then Some n else None
  | None => None
  end.

End Str.

(** ** JavaScript values

    The values a form holds: primitives, dates, files and blobs, arrays
    and plain objects.  Arrays are dense (an array is the list of its
    elements, without holes); functions, symbols and the members inherited
    from the built-in prototypes are left out. *)

Definition ref := nat.

(** Numbers are doubles. *)
Definition JsNumber := spec_float.

Definition num_of_nat (n : nat) : JsNumber :=
  binary_normalize 53 1024 (Z.of_nat n) 0 false.

Definition num_is_nan (x : JsNumber) : bool :=
  match x with S754_nan => true | _ => false end.

#[local] Unset Elimination Schemes.
Inductive JsValue : Type :=
| JUndefined
| JNull
| JBool (b : bool)
| JNum (x : JsNumber)
| JStr (s : string)
| JDate (r : ref) (time : JsNumber)
| JFile (r : ref) (name : string) (size lastModified : Z)
| JBlob (r : ref)
| JArr (r : ref) (items : list JsValue)
| JObj (r : ref) (fields : list (string * JsValue)).
#[local] Set Elimination Schemes.

(** The nested induction principle the derived one lacks. *)
Section JsValueInd.
Variable P : JsValue -> Prop.
Hypothesis Hundef : P JUndefined.
Hypothesis Hnull : P JNull.
Hypothesis Hbool : forall b, P (JBool b).
Hypothesis Hnum : forall x, P (JNum x).
Hypothesis Hstr : forall s, P (JStr s).
Hypothesis Hdate : forall r t, P (JDate r t).
Hypothesis Hfile : forall r n s l, P (JFile r n s l).
Hypothesis Hblob : forall r, P (JBlob r).
Hypothesis Harr : forall r items, Forall P items -> P (JArr r items).
Hypothesis Hobj :
  forall r fields, Forall (fun kv => P (snd kv)) fields -> P (JObj r fields).

End JsValueInd.

(** The result of [typeof]. *)
Inductive JsType := TUndefined | TObject | TBoolean | TNumber | TString.

Definition typeof (v : JsValue) : JsType :=
  match v with
  | JUndefined => TUndefined
  | JBool _ => TBoolean
  | JNum _ => TNumber
  | JStr _ => TString
  | JNull | JDate _ _ | JFile _ _ _ _ | JBlob _ | JArr _ _ | JObj _ _ => TObject
  end.

Definition JsType_eqb (a b : JsType) : bool :=
  match a, b with
  | TUndefined, TUndefined | TObject, TObject | TBoolean, TBoolean
  | TNumber, TNumber | TString, TString => true
  | _, _ => false
  end.

(** [a === b]: primitives by value (a NaN is equal to nothing, itself
    included), objects by address. *)
Definition strictEq (a b : JsValue) : bool :=
  match a, b with
  | JUndefined, JUndefined => true
  | JNull, JNull => true
  | JBool x, JBool y => Bool.eqb x y
  | JNum x, JNum y => SFeqb x y
  | JStr x, JStr y => String.eqb x y
  | JDate r _, JDate r' _ => Nat.eqb r r'
  | JFile r _ _ _, JFile r' _ _ _ => Nat.eqb r r'
  | JBlob r, JBlob r' => Nat.eqb r r'
  | JArr r _, JArr r' _ => Nat.eqb r r'
  | JObj r _, JObj r' _ => Nat.eqb r r'
  | _, _ => false
  end.

(** Truthiness, as [!x] and [if (x)] see it. *)
Definition truthy (v : JsValue) : bool :=
  match v with
  | JUndefined | JNull => false
  | JBool b => b
  | JNum x =>
      match x with
      | S754_zero _ | S754_nan => false
      | _ => true
      end
  | JStr s => negb (String.eqb s "")
  | _ => true
  end.

Definition isArray (v : JsValue) : bool :=
  match v with JArr _ _ => true | _ => false end.

Definition isNullish (v : JsValue) : bool :=
  match v with JUndefined | JNull => true | _ => false end.

(** Own enumerable string-keyed properties, in enumeration order
    ([Object.keys], [for ... in] filtered by [hasOwnProperty]).  The keys of
    one object are pairwise distinct.  Dates, files and blobs expose their
    data through prototype accessors and have no own enumerable keys; the
    elements of an array are own properties named by their index. *)
Fixpoint indexed (items : list JsValue) (i : nat) : list (string * JsValue) :=
  match items with
  | [] => []
  | x :: rest => (Str.toString i, x) :: indexed rest (S i)
  end.

Definition ownFields (v : JsValue) : list (string * JsValue) :=
  match v with
  | JObj _ fields => fields
  | JArr _ items => indexed items 0
  | _ => []
  end.

Fixpoint assoc {A} (k : string) (l : list (string * A)) : option A :=
  match l with
  | [] => None
  | (k', x) :: rest => if String.eqb k' k then Some x else assoc k rest
  end.

(** [v[key]] on own data: named fields of an object, elements and [length]
    of an array or a string, the metadata of a file.  Members inherited from the
    built-in prototypes (methods) are not part of the value tree and are
    not modelled; reading through [null] or [undefined] is what [?.]
    guards. *)
Definition getProp (v : JsValue) (key : string) : JsValue :=
  match v with
  | JObj _ fields => default JUndefined (assoc key fields)
  | JArr _ items =>
      match Str.parseIndex key with
      | Some i => nth i items JUndefined
      | None =>
          if String.eqb key "length" then JNum (num_of_nat (List.length items))
          else JUndefined
      end
  | JStr s =>
      match Str.parseIndex key with
      | Some i =>
          match String.get i s with
          | Some c => JStr (String c EmptyString)
          | None => JUndefined
          end
      | None =>
          if String.eqb key "length" then JNum (num_of_nat (String.length s))
          else JUndefined
      end
  | JFile _ name size lastModified =>
      if String.eqb key "name" then JStr name
      else if String.eqb key "size"
           then JNum (binary_normalize 53 1024 size 0 false)
      else if String.eqb key "lastModified"
           then JNum (binary_normalize 53 1024 lastModified 0 false)
      else JUndefined
  | _ => JUndefined
  end.

(** ** utils/helpers.ts: [deepEqual] and [deepClone] *)

Section Iterators.
Context {A B St : Type}.

(** [xs.every((item, index) => f(item, index))]. *)
Variable f : A -> nat -> bool.
Fixpoint everyi (xs : list A) (index : nat) : bool :=
  match xs with
  | [] => true
  | x :: rest => f x index && everyi rest (S index)
  end.

(** [xs.map(g)] where [g] allocates: the allocator is threaded left to
    right. *)
Variable g : A -> St -> B * St.
Fixpoint mapAlloc (xs : list A) (s : St) : list B * St :=
  match xs with
  | [] => ([], s)
  | x :: rest =>
      let '(y, s1) := g x s in
      let '(ys, s2) := mapAlloc rest s1 in
      (y :: ys, s2)
  end.
End Iterators.


Definition isDate (v : JsValue) : bool :=
  match v with JDate _ _ => true | _ => false end.

(** [deepEqual(a, b)], helpers.ts lines 107-152.  The branches are those of
    the source, in its order. *)
Fixpoint deepEqual (a b : JsValue) {struct a} : bool :=
  if strictEq a b then true
  else if isNullish a || isNullish b then false
  else
    match a with
    | JFile _ name size lastModified =>
        match b with
        | JFile _ name' size' lastModified' =>
            String.eqb name name' && Z.eqb size size'
            && Z.eqb lastModified lastModified'
        | _ =>
            (* typeof a = typeof b = 'object', neither an array *)
            JsType_eqb TObject (typeof b) && negb (isArray b)
            && Nat.eqb 0 (List.length (ownFields b))
        end
    | JDate _ time =>
        match b with
        | JDate _ time' => SFeqb time time'
        | _ =>
            JsType_eqb TObject (typeof b) && negb (isArray b)
            && Nat.eqb 0 (List.length (ownFields b))
        end
    | JArr _ items =>
        match b with
        | JArr _ items' =>
            Nat.eqb (List.length items) (List.length items')
            && everyi (fun item index =>
                         deepEqual item (nth index items' JUndefined))
                 items 0
        | _ => false
        end
    | JObj _ fields =>
        JsType_eqb TObject (typeof b) && negb (isArray b)
        && Nat.eqb (List.length fields) (List.length (ownFields b))
        && forallb (fun kv => deepEqual (snd kv) (getProp b (fst kv))) fields
    | JBlob _ =>
        JsType_eqb TObject (typeof b) && negb (isArray b)
        && Nat.eqb 0 (List.length (ownFields b))
    | _ => false
    end.

(** [deepClone(value)], helpers.ts lines 157-182.  [next] is the first free
    address; the clone of a date, an array or an object is a new object. *)
Fixpoint deepClone (value : JsValue) (next : ref) {struct value}
  : JsValue * ref :=
  match value with
  | JUndefined | JNull => (value, next)
  | JFile _ _ _ _ | JBlob _ => (value, next)
  | JDate _ time => (JDate next time, S next)
  | JArr _ items =>
      let '(items', next') := mapAlloc deepClone items (S next) in
      (JArr next items', next')
  | JObj _ fields =>
      let '(fields', next') :=
        mapAlloc (fun kv n =>
                    let '(v', n') := deepClone (snd kv) n in
                    ((fst kv, v'), n'))
          fields (S next) in
      (JObj next fields', next')
  | _ => (value, next)
  end.




(** ** utils/helpers.ts: the path resolver and the wildcard expander *)

(** [getNestedValue(obj, path)], helpers.ts lines 7-10. *)
Definition getNestedValue (obj : JsValue) (path : string) : JsValue :=
  if negb (truthy (JStr path)) || negb (truthy obj) then JUndefined
  else
    fold_left
      (fun current key =>
         if isNullish current then JUndefined else getProp current key)
      (Str.split_dot path) obj.

(** ** Rules *)

(** What a [throw] or a rejected promise carries: an [Error] instance with
    its [message], or any other value. *)
Inductive Thrown :=
| ThrownError (message : string)
| ThrownValue (v : JsValue).

(** The completion of a call: a normal return or a propagating exception. *)
Inductive Completion (A : Type) :=
| Normal (a : A)
| Abrupt (e : Thrown).
Arguments Normal {A} a.
Arguments Abrupt {A} e.

(** [try { body } catch (err) { handler(err) }]. *)
Definition tryCatch {A} (body : Completion A) (handler : Thrown -> Completion A)
  : Completion A :=
  match body with
  | Normal a => Normal a
  | Abrupt e => handler e
  end.

(** What a rule hands back when it does not throw: a plain value, or a
    thenable still to be settled. *)
Inductive RuleReturn :=
| RetValue (v : JsValue)
| RetThenable.

(** How an awaited thenable settles. *)
Inductive Settlement :=
| Fulfilled (v : JsValue)
| Rejected (e : Thrown).

(** A rule is a function object: it has an identity ([rule_id]), a
    behaviour when called with [(value, allValues)], and the optional
    [__crossField.dependsOn] annotation. *)
Record Rule := {
  rule_id : nat;
  rule_call : JsValue -> JsValue -> Completion RuleReturn;
  rule_dependsOn : option (list string)
}.

(** The array of rules bound to one rule path; [ra_ref] is the address of
    the array object. *)
Record RuleArray := {
  ra_ref : ref;
  ra_rules : list Rule
}.

(** A [Record<string, X>] whose entries are iterated in order
    ([Object.entries], [Object.keys]): the entries in insertion order.
    The keys are field paths; a key that is a canonical array index, which
    JavaScript would enumerate first, is not expected among them. *)
Definition Entries (A : Type) := list (string * A).

(** [record[k] = x]: overwrite in place, or append a new key. *)
Fixpoint rset {A} (k : string) (x : A) (l : Entries A) : Entries A :=
  match l with
  | [] => [(k, x)]
  | (k', y) :: rest =>
      if String.eqb k' k then (k', x) :: rest else (k', y) :: rset k x rest
  end.

Definition keys {A} (l : Entries A) : list string := map fst l.

(** [parts.indexOf('*')], [-1] when absent. *)
Fixpoint indexOf (x : string) (parts : list string) : Z :=
  match parts with
  | [] => (-1)%Z
  | p :: rest =>
      if String.eqb p x then 0%Z
      else let i := indexOf x rest in
           if (i <? 0)%Z then (-1)%Z else (i + 1)%Z
  end.

(** [parts.slice(0, e)]: a negative [e] counts from the end. *)
Definition slice0 {A} (parts : list A) (e : Z) : list A :=
  if (e <? 0)%Z
  then firstn (Z.to_nat (Z.of_nat (List.length parts) + e)) parts
  else firstn (Z.to_nat e) parts.

(** The concrete path of element [index]: every ['*'] part becomes the
    index. *)
Definition concretePath (parts : list string) (index : nat) : string :=
  Str.join_dot
    (map (fun part => if String.eqb part "*" then Str.toString index else part)
       parts).

(** The assignments [expanded[...] = ruleArray] one entry of the rule
    collection gives rise to (the body of the [for ... of] loop of
    [expandWildcardPaths], helpers.ts lines 41-59), in order. *)
Definition expandEntry (values : JsValue) (entry : string * RuleArray)
  : Entries RuleArray :=
  let '(path, ruleArray) := entry in
  if Str.includes_char "*" path then
    let parts := Str.split_dot path in
    let wildcardIndex := indexOf "*" parts in
    let arrayPath := Str.join_dot (slice0 parts wildcardIndex) in
    match getNestedValue values arrayPath with
    | JArr _ items =>
        map (fun index => (concretePath parts index, ruleArray))
          (seq 0 (List.length items))
    | _ => []
    end
  else [(path, ruleArray)].

(** [expandWildcardPaths(rules, values)], helpers.ts lines 35-62. *)
Definition expandWildcardPaths (rules : Entries RuleArray) (values : JsValue)
  : Entries RuleArray :=
  fold_left (fun expanded w => rset (fst w) (snd w) expanded)
    (flat_map (expandEntry values) rules) [].

(** ** validation/manager.ts: the state of a [ValidationManager] *)

Record ValidationCache := {
  vc_value : JsValue;
  vc_errors : list string
}.

Record FieldDependency := {
  fd_field : string;
  fd_dependsOn : list string
}.

(** The fields of the class, plus what the JavaScript heap holds implicitly:
    which [AbortController]s have been aborted ([abortedSignals]), the next
    controller and object addresses, and, as ghost state, the log of rule
    calls ([callLog]: field validated and identity of the rule called, in
    call order). [values], [errors] and [isValidating] are the reactive
    objects the manager shares with the form state. *)
Record ValidationManager := mkManager {
  validationCache : gmap string ValidationCache;
  fieldDependencies : list FieldDependency;
  rules : Entries RuleArray;
  values : JsValue;
  errors : gmap string (list string);
  isValidating : gmap string bool;
  abortControllers : gmap string nat;
  abortedSignals : gset nat;
  nextController : nat;
  expandedRulesCache : option (Entries RuleArray);
  nextRef : ref;
  callLog : list (string * nat)
}.

Definition set_validationCache (x : gmap string ValidationCache)
  (m : ValidationManager) : ValidationManager :=
  mkManager x (fieldDependencies m) (rules m) (values m) (errors m)
    (isValidating m) (abortControllers m) (abortedSignals m)
    (nextController m) (expandedRulesCache m) (nextRef m) (callLog m).

Definition set_fieldDependencies (x : list FieldDependency)
  (m : ValidationManager) : ValidationManager :=
  mkManager (validationCache m) x (rules m) (values m) (errors m)
    (isValidating m) (abortControllers m) (abortedSignals m)
    (nextController m) (expandedRulesCache m) (nextRef m) (callLog m).

Definition set_rules (x : Entries RuleArray)
  (m : ValidationManager) : ValidationManager :=
  mkManager (validationCache m) (fieldDependencies m) x (values m) (errors m)
    (isValidating m) (abortControllers m) (abortedSignals m)
    (nextController m) (expandedRulesCache m) (nextRef m) (callLog m).

Definition set_values (x : JsValue)
  (m : ValidationManager) : ValidationManager :=
  mkManager (validationCache m) (fieldDependencies m) (rules m) x (errors m)
    (isValidating m) (abortControllers m) (abortedSignals m)
    (nextController m) (expandedRulesCache m) (nextRef m) (callLog m).

Definition set_errors (x : gmap string (list string))
  (m : ValidationManager) : ValidationManager :=
  mkManager (validationCache m) (fieldDependencies m) (rules m) (values m) x
    (isValidating m) (abortControllers m) (abortedSignals m)
    (nextController m) (expandedRulesCache m) (nextRef m) (callLog m).

Definition set_isValidating (x : gmap string bool)
  (m : ValidationManager) : ValidationManager :=
  mkManager (validationCache m) (fieldDependencies m) (rules m) (values m)
    (errors m) x (abortControllers m) (abortedSignals m)
    (nextController m) (expandedRulesCache m) (nextRef m) (callLog m).

Definition set_abortControllers (x : gmap string nat)
  (m : ValidationManager) : ValidationManager :=
  mkManager (validationCache m) (fieldDependencies m) (rules m) (values m)
    (errors m) (isValidating m) x (abortedSignals m)
    (nextController m) (expandedRulesCache m) (nextRef m) (callLog m).

Definition set_abortedSignals (x : gset nat)
  (m : ValidationManager) : ValidationManager :=
  mkManager (validationCache m) (fieldDependencies m) (rules m) (values m)
    (errors m) (isValidating m) (abortControllers m) x
    (nextController m) (expandedRulesCache m) (nextRef m) (callLog m).

Definition set_nextController (x : nat)
  (m : ValidationManager) : ValidationManager :=
  mkManager (validationCache m) (fieldDependencies m) (rules m) (values m)
    (errors m) (isValidating m) (abortControllers m) (abortedSignals m)
    x (expandedRulesCache m) (nextRef m) (callLog m).

Definition set_expandedRulesCache (x : option (Entries RuleArray))
  (m : ValidationManager) : ValidationManager :=
  mkManager (validationCache m) (fieldDependencies m) (rules m) (values m)
    (errors m) (isValidating m) (abortControllers m) (abortedSignals m)
    (nextController m) x (nextRef m) (callLog m).

Definition set_nextRef (x : ref)
  (m : ValidationManager) : ValidationManager :=
  mkManager (validationCache m) (fieldDependencies m) (rules m) (values m)
    (errors m) (isValidating m) (abortControllers m) (abortedSignals m)
    (nextController m) (expandedRulesCache m) x (callLog m).

Definition set_callLog (x : list (string * nat))
  (m : ValidationManager) : ValidationManager :=
  mkManager (validationCache m) (fieldDependencies m) (rules m) (values m)
    (errors m) (isValidating m) (abortControllers m) (abortedSignals m)
    (nextController m) (expandedRulesCache m) (nextRef m) x.

(** [new ValidationManager(values, errors, isValidating)]. *)
Definition newManager (vals : JsValue) (errs : gmap string (list string))
  (validating : gmap string bool) (next : ref) : ValidationManager :=
  mkManager ∅ [] [] vals errs validating ∅ ∅ 0 None next [].

(** [controller.abort()]. *)
Definition abort (controller : nat) (m : ValidationManager)
  : ValidationManager :=
  set_abortedSignals ({[controller]} ∪ abortedSignals m) m.

(** [controller.signal.aborted]. *)
Definition aborted (controller : nat) (m : ValidationManager) : bool :=
  bool_decide (controller ∈ abortedSignals m).

(** [resolveValidationResult(result)], manager.ts lines 41-55. *)
Definition resolveValidationResult (result : JsValue) : list string :=
  if negb (truthy result) then []
  else
    match result with
    | JStr s => [s]
    | JArr _ items =>
        flat_map
          (fun r => match r with
                    | JStr s => if Nat.ltb 0 (String.length s) then [s] else []
                    | _ => []
                    end) items
    | _ => []
    end.

(** [getExpandedRules()], lines 60-68: the memoised expansion. *)
Definition getExpandedRules (m : ValidationManager)
  : ValidationManager * Entries RuleArray :=
  match expandedRulesCache m with
  | Some expanded => (m, expanded)
  | None =>
      let expanded := expandWildcardPaths (rules m) (values m) in
      (set_expandedRulesCache (Some expanded) m, expanded)
  end.

Definition invalidateExpandedRulesCache (m : ValidationManager)
  : ValidationManager :=
  set_expandedRulesCache None m.

(** [[...new Set(xs)]]: first occurrences, in order. *)
Fixpoint dedupe_from (seen xs : list string) : list string :=
  match xs with
  | [] => []
  | x :: rest =>
      if existsb (String.eqb x) seen then dedupe_from seen rest
      else x :: dedupe_from (x :: seen) rest
  end.
Definition dedupe (xs : list string) : list string := dedupe_from [] xs.

(** The [dependsOn] annotation of a rule, when it is an array. *)
Definition declaredDependencies (rule : Rule) : list string :=
  match rule_dependsOn rule with
  | Some deps => deps
  | None => []
  end.

(** [buildDependencies()], lines 109-134. *)
Definition buildDependencies (rs : Entries RuleArray) : list FieldDependency :=
  flat_map
    (fun entry : string * RuleArray =>
       let dependsOn := flat_map declaredDependencies (ra_rules (snd entry)) in
       if Nat.ltb 0 (List.length dependsOn)
       then [ {| fd_field := fst entry; fd_dependsOn := dedupe dependsOn |} ]
       else [])
    rs.

(** [clearStaleErrors()], lines 91-103. *)
Definition clearStaleErrors (m : ValidationManager) : ValidationManager :=
  let '(m1, expandedRules) := getExpandedRules m in
  let activeFields := keys (rules m1) ++ keys expandedRules in
  set_errors
    (filter (fun kv => existsb (String.eqb (fst kv)) activeFields = true)
       (errors m1))
    m1.

(** [setRules(r)], lines 81-86. *)
Definition setRules (r : Entries RuleArray) (m : ValidationManager)
  : ValidationManager :=
  let m1 := set_rules r m in
  let m2 := invalidateExpandedRulesCache m1 in
  let m3 := set_fieldDependencies (buildDependencies (rules m2)) m2 in
  clearStaleErrors m3.

(** [getDependentFields(changedField)], lines 141-145. *)
Definition getDependentFields (changedField : string) (m : ValidationManager)
  : list string :=
  map fd_field
    (List.filter
       (fun dep => existsb (String.eqb changedField) (fd_dependsOn dep))
       (fieldDependencies m)).

(** [clearCache(fieldKey?)], lines 315-328.  An absent or empty key clears
    everything. *)
Definition clearCache (fieldKey : option string) (m : ValidationManager)
  : ValidationManager :=
  match fieldKey with
  | Some key =>
      if truthy (JStr key) then
        let pre := (key ++ ".")%string in
        set_validationCache
          (filter (fun kv => Str.startsWith (fst kv) pre = false)
             (delete key (validationCache m)))
          m
      else set_validationCache ∅ m
  | None => set_validationCache ∅ m
  end.

(** [clearArrayCache(arrayPath)], lines 343-362. *)
Definition clearArrayCache (arrayPath : string) (m : ValidationManager)
  : ValidationManager :=
  let m1 := invalidateExpandedRulesCache m in
  let doomed (key : string) : bool := Str.startsWith key (arrayPath ++ ".")%string in
  let keysToDelete :=
    List.filter doomed (map fst (map_to_list (validationCache m1))) in
  let m2 :=
    set_errors (filter (fun kv => doomed (fst kv) = false
                                  \/ validationCache m1 !! fst kv = None)
                  (errors m1))
      (set_validationCache
         (filter (fun kv => doomed (fst kv) = false) (validationCache m1)) m1) in
  fold_left
    (fun acc key =>
       match abortControllers acc !! key with
       | Some controller =>
           set_abortControllers (delete key (abortControllers acc))
             (abort controller acc)
       | None => acc
       end)
    keysToDelete m2.

(** [dispose()], lines 333-337. *)
Definition dispose (m : ValidationManager) : ValidationManager :=
  let m1 :=
    set_abortedSignals
      (list_to_set (map snd (map_to_list (abortControllers m)))
         ∪ abortedSignals m) m in
  clearCache None (set_abortControllers ∅ m1).

(** ** [validateField], manager.ts lines 152-255 *)

(** A [validateField] invocation suspended at its [await]: the field, the
    invocation's own abort controller, the value read at the start, the
    rule whose result is awaited and the rules still to run after it.
    [validatingAsync] is [true] in every suspended invocation. *)
Record Suspended := {
  s_field : string;
  s_controller : nat;
  s_value : JsValue;
  s_awaited : Rule;
  s_rest : list Rule
}.

(** Where an invocation stands when control returns to the event loop:
    its promise is settled, or it waits for a rule's thenable. *)
Inductive Outcome :=
| Settled (result : Completion (list string))
| Suspends (k : Suspended).

(** How one turn of the [for ... of] loop ends: it goes on to the next
    rule, leaves the loop with the field's errors, suspends on a thenable,
    or leaves the function by [return []] (the cancellation check). *)
Inductive Turn :=
| TurnContinue
| TurnBreak (fieldErrors : list string)
| TurnAwait
| TurnReturn.

(** [err instanceof Error ? err.message : 'Validation error']. *)
Definition errorMessage (err : Thrown) : string :=
  match err with
  | ThrownError message => message
  | ThrownValue _ => "Validation error"
  end.

(** The rules [validateField] runs for a key:
    [expandedRules[fieldKey] ?? this.rules[name] ?? []], against the
    expansion recomputed from the live values (lines 168-174). *)
Definition fieldRulesOf (fieldKey : string) (m : ValidationManager)
  : list Rule :=
  let expandedRules := expandWildcardPaths (rules m) (values m) in
  match assoc fieldKey expandedRules with
  | Some ra => ra_rules ra
  | None =>
      match assoc fieldKey (rules m) with
      | Some ra => ra_rules ra
      | None => []
      end
  end.

(** The value validated (lines 176-178). *)
Definition currentValueOf (fieldKey : string) (m : ValidationManager)
  : JsValue :=
  if Str.includes_char "." fieldKey
  then getNestedValue (values m) fieldKey
  else getProp (values m) fieldKey.

(** The [finally] block (lines 246-254). *)
Definition finallyBlock (fieldKey : string) (controller : nat)
  (m : ValidationManager) : ValidationManager :=
  if bool_decide (abortControllers m !! fieldKey = Some controller)
  then set_abortControllers (delete fieldKey (abortControllers m))
         (set_isValidating (<[fieldKey := false]> (isValidating m)) m)
  else m.

(** The controller clean-up of the two early returns (lines 182-184 and
    191-193), which lie before the [try]. *)
Definition releaseController (fieldKey : string) (controller : nat)
  (m : ValidationManager) : ValidationManager :=
  if bool_decide (abortControllers m !! fieldKey = Some controller)
  then set_abortControllers (delete fieldKey (abortControllers m)) m
  else m.

(** The commit after the loop (lines 240-245), followed by [finally]. *)
Definition commit (fieldKey : string) (controller : nat)
  (currentValue : JsValue) (fieldErrors : list string)
  (m : ValidationManager) : ValidationManager * Outcome :=
  let '(snapshot, next) := deepClone currentValue (nextRef m) in
  let m1 := set_nextRef next m in
  let m2 :=
    set_validationCache
      (<[fieldKey := {| vc_value := snapshot; vc_errors := fieldErrors |}]>
         (validationCache m1)) m1 in
  let m3 := set_errors (<[fieldKey := fieldErrors]> (errors m2)) m2 in
  (finallyBlock fieldKey controller m3, Settled (Normal fieldErrors)).

(** The synchronous part of one turn, inside the inner [try]: call the
    rule, and classify what it returned (lines 207-231).  A throwing rule
    makes the body complete abruptly. *)
Definition turnBody (rule : Rule) (currentValue allValues : JsValue)
  : Completion Turn :=
  match rule_call rule currentValue allValues with
  | Abrupt err => Abrupt err
  | Normal RetThenable => Normal TurnAwait
  | Normal (RetValue v) =>
      let resolvedErrors := resolveValidationResult v in
      if Nat.ltb 0 (List.length resolvedErrors)
      then Normal (TurnBreak resolvedErrors)
      else Normal TurnContinue
  end.

(** The inner [catch] (lines 232-237). *)
Definition turnCatch (err : Thrown) : Completion Turn :=
  Normal (TurnBreak [errorMessage err]).

(** Lines 210-214: the first thenable met clears the errors and raises the
    in-progress flag. *)
Definition markValidating (fieldKey : string) (validatingAsync : bool)
  (m : ValidationManager) : ValidationManager :=
  if validatingAsync then m
  else set_isValidating (<[fieldKey := true]> (isValidating m))
         (set_errors (<[fieldKey := []]> (errors m)) m).

(** The loop over the chain, from its current position up to the commit or
    the next [await]. *)
Fixpoint runChain (fieldKey : string) (controller : nat)
  (currentValue : JsValue) (validatingAsync : bool) (chain : list Rule)
  (m : ValidationManager) : ValidationManager * Outcome :=
  match chain with
  | [] => commit fieldKey controller currentValue [] m
  | rule :: rest =>
      let m1 := set_callLog (callLog m ++ [(fieldKey, rule_id rule)]) m in
      match tryCatch (turnBody rule currentValue (values m1)) turnCatch with
      | Abrupt err =>
          (* nothing escapes the inner [catch]; were it to, [finally] would
             run and the promise would reject *)
          (finallyBlock fieldKey controller m1, Settled (Abrupt err))
      | Normal (TurnBreak fieldErrors) =>
          commit fieldKey controller currentValue fieldErrors m1
      | Normal TurnContinue =>
          runChain fieldKey controller currentValue validatingAsync rest m1
      | Normal TurnAwait =>
          (markValidating fieldKey validatingAsync m1,
           Suspends {| s_field := fieldKey; s_controller := controller;
                       s_value := currentValue; s_awaited := rule;
                       s_rest := rest |})
      | Normal TurnReturn =>
          (finallyBlock fieldKey controller m1, Settled (Normal []))
      end
  end.

(** Lines 156-163: abort the controller registered for the key, if any,
    and register a new one, numbered [nextController m]. *)
Definition registerController (fieldKey : string) (m : ValidationManager)
  : ValidationManager :=
  let m1 :=
    match abortControllers m !! fieldKey with
    | Some existingController => abort existingController m
    | None => m
    end in
  set_abortControllers
    (<[fieldKey := nextController m]> (abortControllers m1))
    (set_nextController (S (nextController m)) m1).

(** [validateField(name)] from its call to its first [await] or to its
    end. *)
Definition validateField_start (fieldKey : string) (m : ValidationManager)
  : ValidationManager * Outcome :=
  let abortController := nextController m in
  let m2 := registerController fieldKey m in
  let fieldRules := fieldRulesOf fieldKey m2 in
  let currentValue := currentValueOf fieldKey m2 in
  if Nat.eqb (List.length fieldRules) 0 then
    let m3 := set_errors (<[fieldKey := []]> (errors m2)) m2 in
    (releaseController fieldKey abortController m3, Settled (Normal []))
  else
    let miss :=
      if aborted abortController m2
      then (finallyBlock fieldKey abortController m2, Settled (Normal []))
      else runChain fieldKey abortController currentValue false fieldRules m2
    in
    match validationCache m2 !! fieldKey with
    | Some cached =>
        if deepEqual (vc_value cached) currentValue then
          let m3 := set_errors (<[fieldKey := vc_errors cached]> (errors m2)) m2 in
          (releaseController fieldKey abortController m3,
           Settled (Normal (vc_errors cached)))
        else miss
    | None => miss
    end.

(** The continuation of a suspended invocation once the awaited thenable
    has settled (lines 215-224, or the [catch] when it rejected). *)
Definition validateField_resume (k : Suspended) (s : Settlement)
  (m : ValidationManager) : ValidationManager * Outcome :=
  let fieldKey := s_field k in
  let controller := s_controller k in
  let awaited : Completion Turn :=
    match s with
    | Rejected err => Abrupt err
    | Fulfilled result =>
        if aborted controller m then Normal TurnReturn
        else
          let resolvedErrors := resolveValidationResult result in
          if Nat.ltb 0 (List.length resolvedErrors)
          then Normal (TurnBreak resolvedErrors)
          else Normal TurnContinue
    end in
  match tryCatch awaited turnCatch with
  | Abrupt err => (finallyBlock fieldKey controller m, Settled (Abrupt err))
  | Normal TurnReturn | Normal TurnAwait =>
      (finallyBlock fieldKey controller m, Settled (Normal []))
  | Normal (TurnBreak fieldErrors) =>
      commit fieldKey controller (s_value k) fieldErrors m
  | Normal TurnContinue =>
      runChain fieldKey controller (s_value k) true (s_rest k) m
  end.

(** An invocation driven to its end when nothing else runs in between.
    [settle rule value] is how the thenable that [rule] returned for
    [value] settles. *)
Fixpoint drive (settle : Rule -> JsValue -> Settlement) (fuel : nat) (o : Outcome)
  (m : ValidationManager)
  : ValidationManager * option (Completion (list string)) :=
  match o with
  | Settled result => (m, Some result)
  | Suspends k =>
      match fuel with
      | 0 => (m, None)
      | S fuel' =>
          let '(m', o') :=
            validateField_resume k (settle (s_awaited k) (s_value k)) m in
          drive settle fuel' o' m'
      end
  end.

Definition validateField_run (settle : Rule -> JsValue -> Settlement)
  (fieldKey : string) (m : ValidationManager)
  : ValidationManager * option (Completion (list string)) :=
  let '(m1, o) := validateField_start fieldKey m in
  drive settle (List.length (fieldRulesOf fieldKey m)) o m1.

(** What a rule of the chain amounts to for the value validated, once its
    result, awaited if need be, is known: no error, a non-empty error
    list, or a fault (a throw or a rejection). *)
Inductive Verdict :=
| Passes
| Fails (resolvedErrors : list string)
| Faults (err : Thrown).

Definition verdictOfResult (result : JsValue) : Verdict :=
  let resolvedErrors := resolveValidationResult result in
  if Nat.ltb 0 (List.length resolvedErrors) then Fails resolvedErrors
  else Passes.

Definition ruleVerdict (settle : Rule -> JsValue -> Settlement)
  (currentValue allValues : JsValue) (rule : Rule) : Verdict :=
  match rule_call rule currentValue allValues with
  | Abrupt err => Faults err
  | Normal (RetValue result) => verdictOfResult result
  | Normal RetThenable =>
      match settle rule currentValue with
      | Fulfilled result => verdictOfResult result
      | Rejected err => Faults err
      end
  end.

(** What a stopping verdict leaves as the field's errors. *)
Definition stopErrors (v : Verdict) : option (list string) :=
  match v with
  | Passes => None
  | Fails resolvedErrors => Some resolvedErrors
  | Faults err => Some [errorMessage err]
  end.

(** The rule runner as the specification words it (4.5, step 4): iterate
    the chain in order; the first rule that produces a non-empty error, or
    that faults, stops the chain and gives the field's errors; when every
    rule passes the field has no error.  The result is the list of the
    rules run and the field's error list. *)
Fixpoint chainSpec (settle : Rule -> JsValue -> Settlement)
  (currentValue allValues : JsValue) (chain : list Rule)
  : list Rule * list string :=
  match chain with
  | [] => ([], [])
  | rule :: rest =>
      match stopErrors (ruleVerdict settle currentValue allValues rule) with
      | Some fieldErrors => ([rule], fieldErrors)
      | None =>
          let '(run, fieldErrors) :=
            chainSpec settle currentValue allValues rest in
          (rule :: run, fieldErrors)
      end
  end.

(** An outcome that is not a rejection and, when it is a suspension, has
    fewer than [bound] rules left to run. *)
Definition outcomeWithin (bound : nat) (o : Outcome) : Prop :=
  match o with
  | Settled (Normal _) => True
  | Settled (Abrupt _) => False
  | Suspends k => List.length (s_rest k) < bound
  end.

(** The entry a key has in the cache does not match the key's value. *)
Definition cacheMiss (fieldKey : string) (m : ValidationManager) : Prop :=
  match validationCache m !! fieldKey with
  | Some cached => deepEqual (vc_value cached) (currentValueOf fieldKey m) = false
  | None => True
  end.

(** Controllers are numbered in creation order: every controller in use or
    aborted was created before the next one. *)
Definition wfManager (m : ValidationManager) : Prop :=
  (forall c, c ∈ abortedSignals m -> c < nextController m)
  /\ (forall field c, abortControllers m !! field = Some c ->
                      c < nextController m).




(** ** [validateForm], manager.ts lines 261-289 *)

(** [Promise.all]: fulfilled with every result, or rejected with the first
    rejection. *)
Fixpoint promiseAll {A} (results : list (Completion A)) : Completion (list A) :=
  match results with
  | [] => Normal []
  | Normal a :: rest =>
      match promiseAll rest with
      | Normal l => Normal (a :: l)
      | Abrupt e => Abrupt e
      end
  | Abrupt e :: _ => Abrupt e
  end.

(** Lines 262-271: recompute the expansion, and mark its fields in the
    [touched] record when one is passed. *)
Definition validateForm_begin (touched : option (gmap string bool))
  (m : ValidationManager)
  : ValidationManager * option (gmap string bool) * list string :=
  let '(m1, expanded) := getExpandedRules (invalidateExpandedRulesCache m) in
  let allFields := keys expanded in
  let touched' :=
    match touched with
    | Some t => Some (fold_left (fun acc field => <[field := true]> acc)
                        allFields t)
    | None => None
    end in
  (m1, touched', allFields).

(** Lines 275-288, after the join: sweep the nested errors of paths that
    are no longer active, and answer whether no error is left. *)
Definition validateForm_end (allFields : list string) (m : ValidationManager)
  : ValidationManager * bool :=
  let activeFields := keys (rules m) ++ allFields in
  let errors' :=
    filter (fun kv => Str.includes_char "." (fst kv) = false
                      \/ existsb (String.eqb (fst kv)) activeFields = true)
      (errors m) in
  (set_errors errors' m,
   forallb (fun kv => Nat.eqb (List.length (snd kv)) 0) (map_to_list errors')).

(** Line 273 with nothing else running in between: the invocations are
    started in order, each up to its first [await], and then driven to
    their ends in order. *)
Fixpoint startAll (fields : list string) (m : ValidationManager)
  : ValidationManager * list (string * Outcome) :=
  match fields with
  | [] => (m, [])
  | field :: rest =>
      let '(m1, o) := validateField_start field m in
      let '(m2, os) := startAll rest m1 in
      (m2, (field, o) :: os)
  end.

Fixpoint driveAll (settle : Rule -> JsValue -> Settlement)
  (started : list (string * Outcome)) (m : ValidationManager)
  : ValidationManager * list (option (Completion (list string))) :=
  match started with
  | [] => (m, [])
  | (field, o) :: rest =>
      let '(m1, r) := drive settle (List.length (fieldRulesOf field m)) o m in
      let '(m2, rs) := driveAll settle rest m1 in
      (m2, r :: rs)
  end.

(** All the results, when every invocation reached its end. *)
Fixpoint allEnded {A} (results : list (option A)) : option (list A) :=
  match results with
  | [] => Some []
  | Some a :: rest =>
      match allEnded rest with
      | Some l => Some (a :: l)
      | None => None
      end
  | None :: _ => None
  end.

(** [validateForm(touched)]; [None] as a result means an invocation ran out
    of fuel, which [validateForm_run_total] excludes. *)
Definition validateForm_run (settle : Rule -> JsValue -> Settlement)
  (touched : option (gmap string bool)) (m : ValidationManager)
  : ValidationManager * option (gmap string bool) * option (Completion bool) :=
  let '(m1, touched', allFields) := validateForm_begin touched m in
  let '(m2, started) := startAll allFields m1 in
  let '(m3, results) := driveAll settle started m2 in
  match allEnded results with
  | None => (m3, touched', None)
  | Some completions =>
      match promiseAll completions with
      | Abrupt e => (m3, touched', Some (Abrupt e))
      | Normal _ =>
          let '(m4, valid) := validateForm_end allFields m3 in
          (m4, touched', Some (Normal valid))
      end
  end.

(** ** [validateDependentFields], manager.ts lines 296-309 *)





(** ** validation/state.ts: whole-form validity *)

(** [isConditionallyInactive(fieldKey)], state.ts lines 231-271, on the
    field's rules.  [testValues] is the shallow copy [{ ...this.values }]. *)
Fixpoint inactiveByRules (fieldRules : list Rule) (testValues : JsValue)
  : bool :=
  match fieldRules with
  | [] => false
  | rule :: rest =>
      match rule_dependsOn rule with
      | Some _ =>
          match rule_call rule (JStr "") testValues with
          | Abrupt _ => false
          | Normal (RetValue JNull) => true
          | Normal RetThenable => false
          | Normal (RetValue _) => inactiveByRules rest testValues
          end
      | None => inactiveByRules rest testValues
      end
  end.

Definition shallowCopy (v : JsValue) (next : ref) : JsValue :=
  JObj next (ownFields v).

Definition isConditionallyInactive (stateRules : Entries RuleArray)
  (vals : JsValue) (next : ref) (fieldKey : string) : bool :=
  match assoc fieldKey stateRules with
  | None => false
  | Some ra => inactiveByRules (ra_rules ra) (shallowCopy vals next)
  end.

(** The [isValid] computed property, state.ts lines 421-443. *)
Definition isValid (stateRules : Entries RuleArray) (vals : JsValue)
  (next : ref) (errs : gmap string (list string))
  (validating : gmap string bool) : bool :=
  let hasValidating := existsb snd (map_to_list validating) in
  if hasValidating then false
  else
    forallb
      (fun kv =>
         if isConditionallyInactive stateRules vals next (fst kv) then true
         else Nat.eqb (List.length (snd kv)) 0)
      (map_to_list errs).

(** ** forms/core.ts: the form's [validateForm] *)

(** The part of the form the claims involve: the manager, and the state
    manager's [touched] record and rules. *)
Record Form := {
  validationManager : ValidationManager;
  touched : gmap string bool;
  stateRules : Entries RuleArray
}.

(** [createForm(...).setRules(rules)], core.ts lines 86-90, on rules already
    normalised. *)
Definition form_setRules (normalized : Entries RuleArray) (f : Form) : Form :=
  {| validationManager := setRules normalized (validationManager f);
     touched := touched f;
     stateRules := normalized |}.

(** [createForm(...).validateForm()], core.ts lines 108-114: the top-level
    keys of the values are touched, and the manager's [validateForm] is
    called without a [touched] argument. *)
Definition form_validateForm (settle : Rule -> JsValue -> Settlement) (f : Form)
  : Form * option (Completion bool) :=
  let touched1 :=
    fold_left (fun acc key => <[key := true]> acc)
      (keys (ownFields (values (validationManager f)))) (touched f) in
  let '(m', _, result) := validateForm_run settle None (validationManager f) in
  ({| validationManager := m'; touched := touched1;
      stateRules := stateRules f |}, result).

(** ** utils/helpers.ts: [debounce], lines 71-102 *)

Module Debounce.

(** Why a promise returned by the debounced function was rejected: the
    [DOMException('Debounce superseded', 'AbortError')] of line 81, or
    the checker's own failure. *)
Inductive Reason :=
| Superseded
| CheckerFailed (e : Thrown).

Inductive PromiseState :=
| Pending
| Resolved (v : JsValue)
| RejectedWith (why : Reason).

(** A timer armed by [setTimeout]: its id, and what its callback closes
    over (the arguments of the call and the call's promise). *)
Record Timer := {
  t_id : nat;
  t_args : JsValue;
  t_promise : nat
}.

(** The closure state ([timeoutId], [pendingReject]: the promise whose
    [reject] is held) and the part of the environment it acts on: the
    timers still armed, the checker executions awaiting their result,
    the promises handed out, and the log of checker executions. *)
Record State := mkState {
  timeoutId : option nat;
  pendingReject : option nat;
  timers : list Timer;
  inFlight : list nat;
  promises : gmap nat PromiseState;
  checkerCalls : list JsValue;
  nextId : nat
}.

Definition init : State := mkState None None [] [] ∅ [] 1.

(** [resolve] and [reject] act on a pending promise only. *)
Definition settlePromise (p : nat) (s : PromiseState)
  (ps : gmap nat PromiseState) : gmap nat PromiseState :=
  match ps !! p with
  | Some Pending => <[p := s]> ps
  | _ => ps
  end.

(** [clearTimeout(id)]. *)
Definition clearTimeout (id : nat) (ts : list Timer) : list Timer :=
  List.filter (fun t => negb (Nat.eqb (t_id t) id)) ts.

(** A call of the debounced function (lines 78-101); it returns the new
    promise. *)
Definition call (args : JsValue) (st : State) : State * nat :=
  let promises1 :=
    match pendingReject st with
    | Some p => settlePromise p (RejectedWith Superseded) (promises st)
    | None => promises st
    end in
  let timers1 :=
    match timeoutId st with
    | Some id => clearTimeout id (timers st)
    | None => timers st
    end in
  let p := nextId st in
  let id := S (nextId st) in
  (mkState (Some id) (Some p)
     (timers1 ++ [ {| t_id := id; t_args := args; t_promise := p |} ])
     (inFlight st) (<[p := Pending]> promises1) (checkerCalls st)
     (S (S (nextId st))),
   p).

(** An armed timer fires (lines 89-92): [pendingReject] is dropped and the
    checker is executed; its result is awaited. *)
Definition fire (id : nat) (st : State) : State :=
  match List.find (fun t => Nat.eqb (t_id t) id) (timers st) with
  | None => st
  | Some t =>
      mkState (timeoutId st) None (clearTimeout id (timers st))
        (inFlight st ++ [t_promise t]) (promises st)
        (checkerCalls st ++ [t_args t]) (nextId st)
  end.

(** The checker execution started for promise [p] settles (lines 92-98):
    the promise is resolved or rejected, and [finally] resets
    [timeoutId]. *)
Definition checkerSettles (p : nat) (s : Settlement) (st : State) : State :=
  if existsb (Nat.eqb p) (inFlight st) then
    let outcome :=
      match s with
      | Fulfilled v => Resolved v
      | Rejected e => RejectedWith (CheckerFailed e)
      end in
    mkState None (pendingReject st) (timers st)
      (List.filter (fun q => negb (Nat.eqb q p)) (inFlight st))
      (settlePromise p outcome (promises st)) (checkerCalls st) (nextId st)
  else st.

Inductive Event :=
| Call (args : JsValue)
| Fire (id : nat)
| CheckerSettles (p : nat) (s : Settlement).

Definition step (st : State) (e : Event) : State :=
  match e with
  | Call args => fst (call args st)
  | Fire id => fire id st
  | CheckerSettles p s => checkerSettles p s st
  end.

Definition run (events : list Event) : State := fold_left step events init.

Definition armed (id : nat) (st : State) : bool :=
  existsb (fun t => Nat.eqb (t_id t) id) (timers st).

End Debounce.


(** ** rules/basic.ts and rules/advanced.ts: the rules the samples use *)

(** [required(msg)], basic.ts: a synchronous rule. *)
Definition required (id : nat) (msg : string) : Rule :=
  {| rule_id := id;
     rule_call := fun v _ =>
       match v with
       | JNull | JUndefined | JStr "" | JArr _ [] =>
           Normal (RetValue (JStr (if String.eqb msg ""
                                   then "This field is required" else msg)))
       | _ => Normal (RetValue JNull)
       end;
     rule_dependsOn := None |}.

(** What the promise of [requiredIf(conditionField, conditionValue, msg)]
    fulfils with, advanced.ts lines 27-37 ([allValues] is always passed by
    the engine). *)
Definition requiredIf_result (conditionField : string)
  (conditionValue : JsValue) (msg : string) (v allValues : JsValue)
  : JsValue :=
  if negb (strictEq (getProp allValues conditionField) conditionValue)
  then JNull
  else
    match v with
    | JNull | JUndefined | JStr "" | JArr _ [] => JStr msg
    | _ => JNull
    end.

(** [requiredIf(conditionField, conditionValue, msg)], advanced.ts lines
    18-45: the rule is an [async] function, so that a call never throws
    and always returns a promise; it carries the cross-field annotation. *)
Definition requiredIf (id : nat) (conditionField : string)
  (conditionValue : JsValue) (msg : string) : Rule :=
  {| rule_id := id;
     rule_call := fun _ _ => Normal RetThenable;
     rule_dependsOn := Some [conditionField] |}.

(** [sameAs(fieldName, msg)], advanced.ts lines 108-125: an [async] rule
    with the cross-field annotation. *)
Definition sameAs (id : nat) (fieldName : string) : Rule :=
  {| rule_id := id;
     rule_call := fun _ _ => Normal RetThenable;
     rule_dependsOn := Some [fieldName] |}.

(** A remote check ([remote], advanced.ts): every call returns a promise. *)
Definition remoteRule (id : nat) : Rule :=
  {| rule_id := id;
     rule_call := fun v _ =>
       if truthy v then Normal RetThenable else Normal (RetValue JNull);
     rule_dependsOn := None |}.

(** A rule that throws an [Error]. *)
Definition throwingRule (id : nat) (message : string) : Rule :=
  {| rule_id := id;
     rule_call := fun _ _ => Abrupt (ThrownError message);
     rule_dependsOn := None |}.

(** ** Sample inputs used to exercise the theorems *)



Definition sampleRuleArray : RuleArray :=
  {| ra_ref := 50; ra_rules := [required 1 "Name is required"] |}.

Definition sampleItems : JsValue :=
  JObj 1 [("items", JArr 2 [JObj 3 []; JObj 4 []; JObj 5 []]);
          ("tags", JArr 6 [])].

Definition sampleForm : JsValue :=
  JObj 1 [("email", JStr "ann@example.org"); ("phone", JStr "1");
          ("contacts", JArr 2 [JObj 3 [("email", JStr "")]])].

Definition sampleRules : Entries RuleArray :=
  [("email", {| ra_ref := 60;
                ra_rules := [required 1 "Email is required"; remoteRule 2;
                             throwingRule 3 "unreachable"] |});
   ("phone", {| ra_ref := 61;
                ra_rules := [required 5 "Phone is required";
                             throwingRule 6 "boom";
                             required 7 "unreachable"] |});
   ("contacts.*.email",
    {| ra_ref := 62; ra_rules := [required 8 "Contact email is required"] |})].

Definition sampleManager : ValidationManager :=
  setRules sampleRules (newManager sampleForm ∅ ∅ 100).

(** The remote check answers that the value is taken. *)
Definition sampleSettle (rule : Rule) (value : JsValue) : Settlement :=
  Fulfilled (JStr "Taken").

(** [a] reads [b], and [b] reads [c]. *)
Definition sampleDependencies : Entries RuleArray :=
  [("a", {| ra_ref := 70; ra_rules := [sameAs 11 "b"] |});
   ("b", {| ra_ref := 71; ra_rules := [required 12 "b"; sameAs 13 "c"] |});
   ("c", {| ra_ref := 72; ra_rules := [required 14 "c"] |})].

Definition sampleDependencyManager : ValidationManager :=
  setRules sampleDependencies (newManager sampleForm ∅ ∅ 100).

(** A form whose only rule is [requiredIf('type', 'business')] on
    [company], with [type] at ['personal']: the condition is false. *)
Definition sampleConditionalValues : JsValue :=
  JObj 1 [("type", JStr "personal"); ("company", JStr "")].

Definition sampleConditionalRules : Entries RuleArray :=
  [("company",
    {| ra_ref := 80;
       ra_rules := [requiredIf 30 "type" (JStr "business") "Company needed"] |})].

(** A remote check is the only rule of [username]. *)
Definition sampleRemoteManager : ValidationManager :=
  setRules [("username", {| ra_ref := 90; ra_rules := [remoteRule 20] |})]
    (newManager (JObj 1 [("username", JStr "ann")]) ∅ ∅ 100).

(** The first invocation of the supersede scenario, suspended on the
    remote check. *)
Definition firstInvocation : Suspended :=
  {| s_field := "username"; s_controller := 0; s_value := JStr "ann";
     s_awaited := remoteRule 20; s_rest := [] |}.

(** The second invocation, which supersedes the first. *)
Definition secondInvocation : Suspended :=
  {| s_field := "username"; s_controller := 1; s_value := JStr "ann";
     s_awaited := remoteRule 20; s_rest := [] |}.

(** The state once both invocations have started and the second one has
    been resumed with a check that found nothing wrong. *)
Definition afterSecondCommitted : ValidationManager :=
  fst (validateField_resume secondInvocation (Fulfilled JNull)
         (fst (validateField_start "username"
                 (fst (validateField_start "username" sampleRemoteManager))))).

(** The form of the wildcard sample, rules set, nothing touched. *)
Definition sampleFormInstance : Form :=
  form_setRules sampleRules
    {| validationManager := newManager sampleForm ∅ ∅ 100;
       touched := ∅;
       stateRules := [] |}.

(** The wildcard sample once [phone] has been validated: its cache entry
    holds the message of the rule that threw. *)
Definition samplePhoneValidated : ValidationManager :=
  fst (validateField_run sampleSettle "phone" sampleManager).

(** A replacement rule collection under which [phone] would pass. *)
Definition sampleRelaxedRules : Entries RuleArray :=
  [("phone", {| ra_ref := 63; ra_rules := [required 5 "Phone is required"] |})].

(** The remote sample with one invocation for [username] in flight. *)
Definition sampleRemoteInFlight : ValidationManager :=
  fst (validateField_start "username" sampleRemoteManager).

(** [/^\d+$/.test(s)], helpers.ts line 24: one or more decimal digits. *)
Definition isDigit (c : ascii) : bool :=
  let n := nat_of_ascii c in Nat.leb 48 n && Nat.leb n 57.

Fixpoint allDigits (s : string) : bool :=
  match s with
  | EmptyString => true
  | String c rest => isDigit c && allDigits rest
  end.

Definition digitsOnly (s : string) : bool :=
  match s with
  | EmptyString => false
  | _ => allDigits s
  end.



(** A key that is an array index: a canonical decimal below [2^32 - 1].
    Such keys are enumerated first, in ascending order. *)
Definition arrayIndex (key : string) : option nat :=
  match Str.parseIndex key with
  | Some i => if (N.of_nat i <? 4294967295)%N then Some i else None
  | None => None
  end.

(** A new index key takes its place among the index keys at the front. *)
Fixpoint insertIndexed (i : nat) (key : string) (value : JsValue)
  (fields : list (string * JsValue)) : list (string * JsValue) :=
  match fields with
  | [] => [(key, value)]
  | (k, x) :: rest =>
      match arrayIndex k with
      | Some j =>
          if Nat.ltb j i then (k, x) :: insertIndexed i key value rest
          else (key, value) :: (k, x) :: rest
      | None => (key, value) :: (k, x) :: rest
      end
  end.

(** [object[key] = value] on the fields of a plain object: an existing
    key keeps its place; a new key goes to the end, or among the index
    keys when it is one. *)
Definition objSet (key : string) (value : JsValue)
  (fields : list (string * JsValue)) : list (string * JsValue) :=
  match assoc key fields with
  | Some _ => rset key value fields
  | None =>
      match arrayIndex key with
      | Some i => insertIndexed i key value fields
      | None => fields ++ [(key, value)]
      end
  end.





(** [arrayPath(arrayField, index, property)], core.ts lines 185-194: the
    template literal with an integer index, printed in decimal. *)
Definition arrayPath (arrayField : string) (index : nat) (property : string)
  : string :=
  arrayField ++ "." ++ Str.toString index ++ "." ++ property.

(** [objectPath(objectField, property)], core.ts lines 199-208. *)
Definition objectPath (objectField property : string) : string :=
  objectField ++ "." ++ property.



Definition readStep (current : JsValue) (key : string) : JsValue :=
  if isNullish current then JUndefined else getProp current key.

(** The rule array the wildcard sample binds to [contacts.*.email]. *)
Definition sampleContactRules : RuleArray :=
  {| ra_ref := 62; ra_rules := [required 8 "Contact email is required"] |}.

(** What a rules object holds under a key (core.ts lines 13-17): nothing,
    a rule, a rule chain with its [__rules], or an array of such; a value
    that is neither an array nor a function is ignored. *)
#[local] Unset Elimination Schemes.
Inductive RuleInput :=
| InputNone
| InputRule (rule : Rule)
| InputChain (chainRules : list Rule)
| InputArray (items : list RuleInput)
| InputOther.
#[local] Set Elimination Schemes.

Section RuleInputInd.
Variable P : RuleInput -> Prop.
Hypothesis Hnone : P InputNone.
Hypothesis Hrule : forall rule, P (InputRule rule).
Hypothesis Hchain : forall chainRules, P (InputChain chainRules).
Hypothesis Harray : forall items, Forall P items -> P (InputArray items).
Hypothesis Hother : P InputOther.

Fixpoint RuleInput_nested_ind (input : RuleInput) : P input :=
  match input with
  | InputNone => Hnone
  | InputRule rule => Hrule rule
  | InputChain chainRules => Hchain chainRules
  | InputArray items =>
      Harray items
        ((fix go (l : list RuleInput) : Forall P l :=
            match l with
            | [] => Forall_nil_2 P
            | x :: l' => Forall_cons_2 P x l' (RuleInput_nested_ind x) (go l')
            end) items)
  | InputOther => Hother
  end.
End RuleInputInd.

(** The rules collected so far and the identities seen ([bucket] and
    [seen], core.ts lines 28-29; [rules] and [seen], builders.ts lines
    221-222). *)
Record Collected := {
  bucket : list Rule;
  seen : gset nat
}.

(** [if (!seen.has(rule)) { seen.add(rule); bucket.push(rule) }]. *)
Definition collectRule (acc : Collected) (rule : Rule) : Collected :=
  if bool_decide (rule_id rule ∈ seen acc) then acc
  else {| bucket := bucket acc ++ [rule];
          seen := {[rule_id rule]} ∪ seen acc |}.

(** [collectRuleInput(input, bucket, seen)], core.ts lines 26-49. *)
Fixpoint collectRuleInput (input : RuleInput) (acc : Collected) : Collected :=
  match input with
  | InputNone => acc
  | InputArray items =>
      (fix each (l : list RuleInput) (acc : Collected) : Collected :=
         match l with
         | [] => acc
         | item :: rest => each rest (collectRuleInput item acc)
         end) items acc
  | InputChain chainRules => fold_left collectRule chainRules acc
  | InputRule rule => collectRule acc rule
  | InputOther => acc
  end.



(** The last branch of [append], builders.ts lines 241-244. *)
Definition appendRule (chain : Collected) (rule : Rule) : Collected :=
  if bool_decide (rule_id rule ∈ seen chain) then chain
  else {| bucket := bucket chain ++ [rule];
          seen := {[rule_id rule]} ∪ seen chain |}.

(** [append(input)], builders.ts lines 224-246, on the [rules] and [seen]
    of the chain.  The [__rules] of a chain hold plain rules only, so that
    the recursive call on each of them reaches the last branch. *)
Fixpoint append (input : RuleInput) (chain : Collected) : Collected :=
  match input with
  | InputNone => chain
  | InputArray items =>
      (fix each (l : list RuleInput) (chain : Collected) : Collected :=
         match l with
         | [] => chain
         | item :: rest => each rest (append item chain)
         end) items chain
  | InputChain chainRules => fold_left appendRule chainRules chain
  | InputRule rule => appendRule chain rule
  | InputOther => chain
  end.

(** [wrapRule(factories, initialRule)], builders.ts lines 217-297: the
    state the chain closes over. *)
Definition wrapRule (initialRule : Rule) : Collected :=
  {| bucket := [initialRule]; seen := {[rule_id initialRule]} |}.

(** [chain.and(...extras)], lines 265-277, and a chained factory call
    [chain.name(...args)], lines 278-290, which appends the rule the
    factory returned. *)
Definition chain_and (extras : list RuleInput) (chain : Collected) : Collected :=
  fold_left (fun acc extra => append extra acc) extras chain.

(** [chain.build()], [toArray()], [valueOf()] and [__rules]. *)
Definition build (chain : Collected) : list Rule := bucket chain.

(** The rules an input mentions, in the order the walk meets them. *)
Fixpoint inputRules (input : RuleInput) : list Rule :=
  match input with
  | InputRule rule => [rule]
  | InputChain chainRules => chainRules
  | InputArray items =>
      (fix each (l : list RuleInput) : list Rule :=
         match l with
         | [] => []
         | item :: rest => inputRules item ++ each rest
         end) items
  | InputNone | InputOther => []
  end.

(** The identities seen are those of the rules collected, each of which
    occurs once. *)
Definition distinctRules (acc : Collected) : Prop :=
  NoDup (map rule_id (bucket acc))
  /\ forall id, id ∈ seen acc <-> In id (map rule_id (bucket acc)).

(** Nothing collected yet: [bucket = []], [seen = new Set()]. *)
Definition nothingCollected : Collected := {| bucket := []; seen := ∅ |}.


Module FormState.

(** The fields of the class.  [values], [errors] and [isValidating] are the
    reactive objects the validation manager is handed; [onClearCalls]
    counts the calls of the [onClear] option. *)
Record T := mk {
  initialValues : JsValue;
  values : JsValue;
  errors : gmap string (list string);
  touched : gmap string bool;
  dirty : gmap string bool;
  isValidating : gmap string bool;
  isSubmitting : bool;
  rules : Entries RuleArray;
  dirtyTrigger : nat;
  onClearCalls : nat;
  nextRef : ref
}.

(** [new FormStateManager(options)], state.ts lines 29-44: both value
    objects are shallow copies of [options.initialValues]. *)
Definition create (optionsInitialValues : JsValue) (next : ref) : T :=
  {| initialValues := shallowCopy optionsInitialValues next;
     values := shallowCopy optionsInitialValues (S next);
     errors := ∅;
     touched := ∅;
     dirty :=
       fold_left (fun acc key => <[key := false]> acc)
         (keys (ownFields optionsInitialValues)) ∅;
     isValidating := ∅;
     isSubmitting := false;
     rules := [];
     dirtyTrigger := 0;
     onClearCalls := 0;
     nextRef := S (S next) |}.

(** [object[key] = value] on a value object. *)
Definition assign (object : JsValue) (key : string) (value : JsValue)
  : JsValue :=
  match object with
  | JObj r fields => JObj r (objSet key value fields)
  | _ => object
  end.



(** The four records rewritten, the rest kept. *)
Definition withRecords (errs : gmap string (list string))
  (tch drt vld : gmap string bool) (s : T) : T :=
  {| initialValues := initialValues s; values := values s;
     errors := errs; touched := tch; dirty := drt; isValidating := vld;
     isSubmitting := isSubmitting s; rules := rules s;
     dirtyTrigger := dirtyTrigger s; onClearCalls := onClearCalls s;
     nextRef := nextRef s |}.

Definition withValues (initial vals : JsValue) (next : ref) (s : T) : T :=
  {| initialValues := initial; values := vals;
     errors := errors s; touched := touched s; dirty := dirty s;
     isValidating := isValidating s; isSubmitting := isSubmitting s;
     rules := rules s; dirtyTrigger := dirtyTrigger s;
     onClearCalls := onClearCalls s; nextRef := next |}.

(** The body of the loop of [setErrors], lines 111-116; an absent list is
    [None]. *)
Definition setError (s : T) (entry : string * option (list string)) : T :=
  match snd entry with
  | Some errorList =>
      if Nat.ltb 0 (List.length errorList)
      then withRecords (<[fst entry := errorList]> (errors s))
             (<[fst entry := true]> (touched s)) (dirty s) (isValidating s) s
      else s
  | None => s
  end.

(** [setErrors(newErrors)], lines 110-117. *)
Definition setErrors (newErrors : Entries (option (list string))) (s : T) : T :=
  fold_left setError newErrors s.

(** [resetErrors()], lines 122-127. *)
Definition resetErrors (s : T) : T :=
  fold_left
    (fun acc key =>
       withRecords (<[key := []]> (errors acc)) (<[key := false]> (touched acc))
         (dirty acc) (isValidating acc) acc)
    (map fst (map_to_list (errors s))) s.

(** [getEmptyValue(initialValue)], lines 152-175; the empty array is a new
    object. *)
Definition getEmptyValue (initialValue : JsValue) (next : ref) : JsValue * ref :=
  match initialValue with
  | JNull | JUndefined => (JNull, next)
  | JStr _ => (JStr "", next)
  | JNum _ => (JNum (S754_zero false), next)
  | JBool _ => (JBool false, next)
  | JArr _ _ => (JArr next [], S next)
  | _ => (JNull, next)
  end.

(** The four assignments every reset loop makes for a key. *)
Definition resetKey (key : string) (s : T) : T :=
  withRecords (<[key := []]> (errors s)) (<[key := false]> (touched s))
    (<[key := false]> (dirty s)) (<[key := false]> (isValidating s)) s.

(** The body of the loop of [clear], lines 134-143. *)
Definition clearKey (useInitial : bool) (s : T) (key : string) : T :=
  let '(value, next) :=
    if useInitial then (getProp (initialValues s) key, nextRef s)
    else getEmptyValue (getProp (initialValues s) key) (nextRef s) in
  resetKey key (withValues (initialValues s) (assign (values s) key value) next s).

(** [clear(useInitial = false)], lines 133-145. *)
Definition clear (useInitial : bool) (s : T) : T :=
  let s1 := fold_left (clearKey useInitial) (keys (ownFields (values s))) s in
  {| initialValues := initialValues s1; values := values s1;
     errors := errors s1; touched := touched s1; dirty := dirty s1;
     isValidating := isValidating s1; isSubmitting := isSubmitting s1;
     rules := rules s1; dirtyTrigger := dirtyTrigger s1;
     onClearCalls := S (onClearCalls s1); nextRef := nextRef s1 |}.

(** [reset(newValues?)], lines 181-196; [None] is a call without
    argument. *)
Definition reset (newValues : option JsValue) (s : T) : T :=
  let initial1 :=
    match newValues with
    | Some nv =>
        if truthy nv
        then fold_left (fun acc kv => assign acc (fst kv) (snd kv))
               (ownFields nv) (initialValues s)
        else initialValues s
    | None => initialValues s
    end in
  fold_left
    (fun acc key =>
       resetKey key
         (withValues (initialValues acc)
            (assign (values acc) key (getProp (initialValues acc) key))
            (nextRef acc) acc))
    (keys (ownFields initial1))
    (withValues initial1 (values s) (nextRef s) s).

(** [resetState()], lines 201-208. *)
Definition resetState (s : T) : T :=
  fold_left (fun acc key => resetKey key acc) (keys (ownFields (values s))) s.

(** [setRules(rules)], lines 222-224. *)
Definition setRules (r : Entries RuleArray) (s : T) : T :=
  {| initialValues := initialValues s; values := values s;
     errors := errors s; touched := touched s; dirty := dirty s;
     isValidating := isValidating s; isSubmitting := isSubmitting s;
     rules := r; dirtyTrigger := dirtyTrigger s;
     onClearCalls := onClearCalls s; nextRef := nextRef s |}.

(** [markDirty(fieldKey, value)], lines 278-284; the private [deepEqual]
    of lines 292-347 is the code of helpers.ts. *)
Definition markDirty (fieldKey : string) (value : JsValue) (s : T) : T :=
  let initialValue := getProp (initialValues s) fieldKey in
  {| initialValues := initialValues s; values := values s;
     errors := errors s; touched := touched s;
     dirty := <[fieldKey := negb (deepEqual value initialValue)]> (dirty s);
     isValidating := isValidating s; isSubmitting := isSubmitting s;
     rules := rules s; dirtyTrigger := S (dirtyTrigger s);
     onClearCalls := onClearCalls s; nextRef := nextRef s |}.

(** The status getters, lines 353-398. *)
Definition hasError (key : string) (s : T) : bool :=
  default false ((fun e => Nat.ltb 0 (List.length e)) <$> errors s !! key).

Definition error (key : string) (s : T) : option string :=
  match errors s !! key with
  | Some (first :: _) => Some first
  | _ => None
  end.

Definition allErrors (key : string) (s : T) : list string :=
  default [] (errors s !! key).

Definition validating (key : string) (s : T) : bool :=
  default false (isValidating s !! key).

Definition isTouched (key : string) (s : T) : bool :=
  default false (touched s !! key).

Definition isFieldDirty (key : string) (s : T) : bool :=
  default false (dirty s !! key).

(** The [isValid] computed property, lines 421-443. *)
Definition isValid (s : T) : bool :=
  isValid (rules s) (values s) (nextRef s) (errors s) (isValidating s).

(** The [isDirty] computed property, lines 449-464. *)
Definition isDirty (s : T) : bool :=
  let dirtyFields :=
    List.filter (fun key => default false (dirty s !! key))
      (map fst (map_to_list (dirty s))) in
  let activeDirtyFields :=
    List.filter
      (fun fieldKey =>
         negb (isConditionallyInactive (rules s) (values s) (nextRef s)
                 fieldKey))
      dirtyFields in
  Nat.ltb 0 (List.length activeDirtyFields).

(** The [hasAnyErrors] computed property, lines 470-474. *)
Definition hasAnyErrors (s : T) : bool :=
  existsb (fun fieldErrors => Nat.ltb 0 (List.length fieldErrors))
    (map snd (map_to_list (errors s))).

End FormState.

(** What a reset loop that visits [visited] leaves at key [q]. *)
Definition resetAt (visited : list string) (q : string)
  (s s' : FormState.T) : Prop :=
  FormState.errors s' !! q
  = (if bool_decide (q ∈ visited) then Some [] else FormState.errors s !! q)
  /\ FormState.touched s' !! q
     = (if bool_decide (q ∈ visited) then Some false
        else FormState.touched s !! q)
  /\ FormState.dirty s' !! q
     = (if bool_decide (q ∈ visited) then Some false
        else FormState.dirty s !! q)
  /\ FormState.isValidating s' !! q
     = (if bool_decide (q ∈ visited) then Some false
        else FormState.isValidating s !! q).

(** The state manager of the wildcard sample. *)
Definition sampleState : FormState.T := FormState.create sampleForm 300.

(** Errors as a server would report them: one for [email], none for
    [phone]. *)
Definition sampleServerErrors : Entries (option (list string)) :=
  [("email", Some ["Taken"]); ("phone", Some [])].

(** The wildcard sample after [validateForm], and the state manager that
    shares its error store and its in-progress flags. *)
Definition sampleValidated
  : ValidationManager * option (gmap string bool) * option (Completion bool) :=
  validateForm_run sampleSettle None sampleManager.

Definition sampleStateValidated : FormState.T :=
  FormState.withRecords (errors (fst (fst sampleValidated))) ∅ ∅
    (isValidating (fst (fst sampleValidated))) sampleState.







(** [array.splice(index, 1)] for an integer index: a negative index
    counts from the end, an index past the end removes nothing. *)
Definition splice1 {A} (index : Z) (l : list A) : list A :=
  let len := Z.of_nat (List.length l) in
  let start :=
    if (index <? 0)%Z then Z.max (len + index) 0 else Z.min index len in
  firstn (Z.to_nat start) l ++ skipn (S (Z.to_nat start)) l.


(** The form with its manager replaced. *)
Definition withManager (m : ValidationManager) (f : Form) : Form :=
  {| validationManager := m; touched := touched f;
     stateRules := stateRules f |}.

(** [addArrayItem(arrayPath, item)], core.ts lines 161-169: the item is
    pushed onto the array in place, or a new one-element array is bound
    to the field. *)
Definition addArrayItem (arrayPath : string) (item : JsValue) (f : Form) : Form :=
  let m := validationManager f in
  let m1 :=
    match getProp (values m) arrayPath with
    | JArr r items =>
        set_values
          (FormState.assign (values m) arrayPath (JArr r (items ++ [item]))) m
    | _ =>
        set_nextRef (S (nextRef m))
          (set_values
             (FormState.assign (values m) arrayPath (JArr (nextRef m) [item]))
             m)
    end in
  withManager (clearArrayCache arrayPath m1) f.

(** [removeArrayItem(arrayPath, index)], core.ts lines 174-180. *)
Definition removeArrayItem (arrayPath : string) (index : Z) (f : Form) : Form :=
  let m := validationManager f in
  let m1 :=
    match getProp (values m) arrayPath with
    | JArr r items =>
        set_values
          (FormState.assign (values m) arrayPath (JArr r (splice1 index items)))
          m
    | _ => m
    end in
  withManager (clearArrayCache arrayPath m1) f.



(** A second contact, to be added to the wildcard sample. *)
Definition sampleNewContact : JsValue :=
  JObj 9 [("email", JStr "bob@example.org")].

Module Regex.

(** The patterns the rules are written with; [Never] and [Alt] come up in
    derivatives only. *)
Inductive re :=
| Never
| Empty
| Class (p : ascii -> bool)
| Seq (a b : re)
| Alt (a b : re)
| Star (a : re).

(** [a+]. *)
Definition Plus (a : re) : re := Seq a (Star a).

Fixpoint nullable (r : re) : bool :=
  match r with
  | Never => false
  | Empty => true
  | Class _ => false
  | Seq a b => nullable a && nullable b
  | Alt a b => nullable a || nullable b
  | Star _ => true
  end.

(** What is left of [r] to match once [c] is read. *)
Fixpoint deriv (c : ascii) (r : re) : re :=
  match r with
  | Never | Empty => Never
  | Class p => if p c then Empty else Never
  | Seq a b =>
      if nullable a then Alt (Seq (deriv c a) b) (deriv c b)
      else Seq (deriv c a) b
  | Alt a b => Alt (deriv c a) (deriv c b)
  | Star a => Seq (deriv c a) (Star a)
  end.

(** [/^r$/.test(s)]: the whole of [s] matches [r]. *)
Fixpoint test (r : re) (s : string) {struct s} : bool :=
  match s with
  | EmptyString => nullable r
  | String c rest => test (deriv c r) rest
  end.

(** The strings a pattern denotes. *)
Inductive Matches : re -> string -> Prop :=
| MEmpty : Matches Empty ""
| MClass p c : p c = true -> Matches (Class p) (String c "")
| MSeq a b s t : Matches a s -> Matches b t -> Matches (Seq a b) (s ++ t)
| MAltL a b s : Matches a s -> Matches (Alt a b) s
| MAltR a b s : Matches b s -> Matches (Alt a b) s
| MStarNil a : Matches (Star a) ""
| MStarApp a s t :
    Matches a s -> Matches (Star a) t -> Matches (Star a) (s ++ t).

(** Every character of [s] is in the class. *)
Fixpoint every (p : ascii -> bool) (s : string) : bool :=
  match s with
  | EmptyString => true
  | String c rest => p c && every p rest
  end.

(** How often [c] occurs in [s]. *)
Fixpoint count (c : ascii) (s : string) : nat :=
  match s with
  | EmptyString => 0
  | String x rest => (if Ascii.eqb x c then 1 else 0) + count c rest
  end.

(** [\s], for the code units below 256: tab, line feed, vertical tab, form
    feed, carriage return, space and no-break space. *)
Definition isSpace (c : ascii) : bool :=
  let n := nat_of_ascii c in
  (Nat.leb 9 n && Nat.leb n 13) || Nat.eqb n 32 || Nat.eqb n 160.

(** [[^\s@]]. *)
Definition plainChar (c : ascii) : bool :=
  negb (isSpace c || Ascii.eqb c "@").

(** [/^[^\s@]+@[^\s@]+\.[^\s@]+$/], basic.ts line 478 of [email]. *)
Definition emailRegex : re :=
  Seq (Plus (Class plainChar))
    (Seq (Class (Ascii.eqb "@"))
       (Seq (Plus (Class plainChar))
          (Seq (Class (Ascii.eqb ".")) (Plus (Class plainChar))))).

(** A non-empty run of [[^\s@]]. *)
Definition plain (s : string) : bool :=
  negb (String.eqb s "") && every plainChar s.

End Regex.

Module Rules.

(** A [MaybeRefOrGetter<string> | undefined]: nothing, a string, a ref (or
    computed) holding a string, or a getter returning one. *)
Inductive Message :=
| MessageUndefined
| MessageString (s : string)
| MessageRef (s : string)
| MessageGetter (s : string).

(** [resolveMessage(message)], helpers.ts lines 197-203; [None] is
    [null]. *)
Definition resolveMessage (message : Message) : option string :=
  match message with
  | MessageUndefined => None
  | MessageString s => if String.eqb s "" then None else Some s
  | MessageRef s => Some s
  | MessageGetter s => Some s
  end.

(** A parameter default, [msg = 'text']: it stands in for [undefined]. *)
Definition orDefault (msg : Message) (text : string) : Message :=
  match msg with
  | MessageUndefined => MessageString text
  | _ => msg
  end.

(** [resolveMessage(msg) || 'text']. *)
Definition orFallback (resolved : option string) (text : string) : string :=
  match resolved with
  | Some s => if String.eqb s "" then text else s
  | None => text
  end.

(** A message that is, or yields, the empty string. *)
Definition blank (msg : Message) : bool :=
  match msg with
  | MessageUndefined => false
  | MessageString s | MessageRef s | MessageGetter s => String.eqb s ""
  end.

(** What a rule answers is [null] or a non-empty message. *)
Definition reports (result : JsValue) : Prop :=
  result = JNull \/ exists m : string, m <> "" /\ result = JStr m.

(** [return message] for a [string | null]. *)
Definition ofMessage (resolved : option string) : JsValue :=
  match resolved with
  | Some s => JStr s
  | None => JNull
  end.

(** [list.includes(v)]: equality is [===], except that a NaN is found. *)
Definition sameValueZero (a b : JsValue) : bool :=
  match a, b with
  | JNum S754_nan, JNum S754_nan => true
  | _, _ => strictEq a b
  end.

Section Coercions.

(** [String(v)], [Number(v)] and the decimal form of a number in a
    template literal, for whatever the value is. *)
Variable toStr : JsValue -> string.
Variable toNum : JsValue -> JsNumber.
Variable numToString : JsNumber -> string.

(** [Array.isArray(v) && v.length === 0]. *)
Definition isEmptyArray (v : JsValue) : bool :=
  match v with JArr _ [] => true | _ => false end.

(** [required(msg)], basic.ts lines 15-30 of the class. *)
Definition required (msg : Message) (v : JsValue) : JsValue :=
  let msg := orDefault msg "This field is required" in
  if strictEq v JNull || strictEq v JUndefined || strictEq v (JStr "")
     || isEmptyArray v
  then JStr (orFallback (resolveMessage msg) "This field is required")
  else JNull.

(** The rule [minLength(len, msg)] returns; the factory throws instead
    when [len < 0]. *)
Definition minLength (len : JsNumber) (msg : Message) (v : JsValue) : JsValue :=
  if negb (truthy v) || SFleb len (num_of_nat (String.length (toStr v)))
  then JNull
  else JStr (orFallback (resolveMessage msg)
               ("Minimum " ++ numToString len ++ " characters")).

(** The rule [maxLength(len, msg)] returns; the factory throws instead
    when [len < 0]. *)
Definition maxLength (len : JsNumber) (msg : Message) (v : JsValue) : JsValue :=
  let message :=
    orFallback (resolveMessage msg)
      ("Maximum " ++ numToString len ++ " characters") in
  if negb (truthy v) || SFleb (num_of_nat (String.length (toStr v))) len
  then JNull else JStr message.

(** [regex(pattern, msg)]; [test] is [pattern.test], of a pattern without
    the [g] and [y] flags, which would make it depend on earlier calls. *)
Definition regex (test : JsValue -> bool) (msg : Message) (v : JsValue)
  : JsValue :=
  let message := resolveMessage (orDefault msg "Invalid format") in
  if negb (truthy v) || test v then JNull else ofMessage message.

(** [email(msg)]: [emailRegex.test(v)] reads [v] as a string. *)
Definition email (msg : Message) (v : JsValue) : JsValue :=
  let message := resolveMessage (orDefault msg "Invalid email address") in
  if negb (truthy v) || Regex.test Regex.emailRegex (toStr v) then JNull
  else ofMessage message.

(** [numeric(msg)]. *)
Definition numeric (msg : Message) (v : JsValue) : JsValue :=
  if negb (truthy v)
     && negb (strictEq v (JNum (S754_zero false)))
  then JNull
  else
    let message := resolveMessage (orDefault msg "Only numbers are allowed") in
    if digitsOnly (toStr v) then JNull else ofMessage message.

(** The rule [oneOf(list, msg)] returns; the factory throws instead when
    the list is empty or not an array. *)
Definition oneOf (list : list JsValue) (msg : Message) (v : JsValue) : JsValue :=
  let message := resolveMessage (orDefault msg "Invalid value") in
  if negb (truthy v) || existsb (fun x => sameValueZero x v) list
  then JNull else ofMessage message.

(** [!isNaN(num) && num >= min], [... && num <= max]. *)
Definition atLeast (min num : JsNumber) : bool :=
  negb (num_is_nan num) && SFleb min num.

Definition atMost (max num : JsNumber) : bool :=
  negb (num_is_nan num) && SFleb num max.

(** The rule [between(min, max, msg)] returns; the factory throws instead
    when [min > max]. *)
Definition between (min max : JsNumber) (msg : Message) (v : JsValue)
  : JsValue :=
  if isNullish v then JNull
  else
    let num := toNum v in
    let message :=
      orFallback (resolveMessage msg)
        ("Value must be between " ++ numToString min ++ " and "
         ++ numToString max) in
    if atLeast min num && SFleb num max then JNull else JStr message.

(** [minValue(min, msg)] and [maxValue(max, msg)]. *)
Definition minValue (min : JsNumber) (msg : Message) (v : JsValue) : JsValue :=
  if isNullish v then JNull
  else
    let num := toNum v in
    let message :=
      orFallback (resolveMessage msg) ("Minimum value: " ++ numToString min) in
    if atLeast min num then JNull else JStr message.

Definition maxValue (max : JsNumber) (msg : Message) (v : JsValue) : JsValue :=
  if isNullish v then JNull
  else
    let num := toNum v in
    let message :=
      orFallback (resolveMessage msg) ("Maximum value: " ++ numToString max) in
    if atMost max num then JNull else JStr message.

(** [arrayMinLength(min, msg)], array.ts. *)
Definition arrayMinLength (min : JsNumber) (msg : Message) (arr : JsValue)
  : JsValue :=
  match arr with
  | JArr _ items =>
      let message :=
        orFallback (resolveMessage msg)
          ("Minimum " ++ numToString min ++ " items required") in
      if SFleb min (num_of_nat (List.length items)) then JNull
      else JStr message
  | _ => JNull
  end.

(** [arrayRequired(msg)]. *)
Definition arrayRequired (msg : Message) (arr : JsValue) : JsValue :=
  match arr with
  | JArr _ (_ :: _) => JNull
  | _ => JStr (orFallback (resolveMessage msg) "At least one item required")
  end.

(** [arrayMaxLength(max, msg)]. *)
Definition arrayMaxLength (max : JsNumber) (msg : Message) (arr : JsValue)
  : JsValue :=
  match arr with
  | JArr _ items =>
      let message :=
        orFallback (resolveMessage msg)
          ("Maximum " ++ numToString max ++ " items allowed") in
      if SFleb (num_of_nat (List.length items)) max then JNull
      else JStr message
  | _ => JNull
  end.

(** What the promise of [sameAs(fieldName, msg)] fulfils with, advanced.ts
    lines 112-117. *)
Definition sameAs (fieldName : string) (msg : Message) (v formValues : JsValue)
  : JsValue :=
  if negb (truthy formValues) then JNull
  else if negb (truthy v) && negb (truthy (getProp formValues fieldName))
  then JNull
  else
    let message :=
      orFallback (resolveMessage msg) ("Must match " ++ fieldName ++ " field") in
    if strictEq v (getProp formValues fieldName) then JNull else JStr message.

(** What the promise of [requiredIf(conditionField, conditionValue, msg)]
    fulfils with, advanced.ts lines 27-37. *)
Definition requiredIf (conditionField : string) (conditionValue : JsValue)
  (msg : Message) (v formValues : JsValue) : JsValue :=
  let msg := orDefault msg "This field is required" in
  if negb (truthy formValues) then JNull
  else if negb (strictEq (getProp formValues conditionField) conditionValue)
  then JNull
  else
    let message := resolveMessage msg in
    if strictEq v JNull || strictEq v JUndefined || strictEq v (JStr "")
    then ofMessage message
    else if isEmptyArray v then ofMessage message
    else JNull.

(** What the promise of [custom(validator, msg)] fulfils with once the
    validator has answered [result], advanced.ts lines 85-97. *)
Definition custom (msg : Message) (result : JsValue) : JsValue :=
  match result with
  | JStr _ => result
  | JBool true => JNull
  | _ => JStr (orFallback (resolveMessage msg) "Validation failed")
  end.

End Coercions.

End Rules.

(** [String(v)] and [Number(v)] where they are the identity, on strings
    and on numbers, and a number format for the samples. *)
Definition sampleToStr (v : JsValue) : string :=
  match v with JStr s => s | _ => "" end.

Definition sampleToNum (v : JsValue) : JsNumber :=
  match v with JNum x => x | _ => S754_nan end.

Definition sampleNumToString (x : JsNumber) : string :=
  match x with S754_zero _ => "0" | _ => "" end.

(** [{ password: 'hunter2', confirm: 'hunter2', plan: 'pro', company: '' }]. *)
Definition sampleSignup : JsValue :=
  JObj 1 [("password", JStr "hunter2"); ("confirm", JStr "hunter2");
          ("plan", JStr "pro"); ("company", JStr "")].

(** The loop of [clearArrayCache] that aborts and forgets the controllers
    of the doomed keys. *)
Definition forgetController (acc : ValidationManager) (key : string)
  : ValidationManager :=
  match abortControllers acc !! key with
  | Some controller =>
      set_abortControllers (delete key (abortControllers acc))
        (abort controller acc)
  | None => acc
  end.






(** The closure and its environment after [i + 1] calls in a row, the last
    one with [args], when no timer fired in between. *)
Definition afterBurst (i : nat) (args : JsValue) (st : Debounce.State) : Prop :=
  Debounce.timeoutId st = Some (2 * i + 2)
  /\ Debounce.pendingReject st = Some (2 * i + 1)
  /\ Debounce.timers st
     = [ {| Debounce.t_id := 2 * i + 2; Debounce.t_args := args;
            Debounce.t_promise := 2 * i + 1 |} ]
  /\ Debounce.inFlight st = []
  /\ Debounce.checkerCalls st = []
  /\ Debounce.nextId st = 2 * i + 3
  /\ Debounce.promises st !! (2 * i + 1) = Some Debounce.Pending
  /\ forall j, j < i ->
               Debounce.promises st !! (2 * j + 1)
               = Some (Debounce.RejectedWith Debounce.Superseded).

(** * Properties *)

(** ** Snapshots: a clone deep-equals its original *)











(** An invalid date (its time value is NaN) behaves the same way. *)
Lemma deepEqual_deepClone_invalid_date :
  deepEqual (fst (deepClone (JDate 1 S754_nan) 2)) (JDate 1 S754_nan) = false.
Proof. reflexivity. Qed.


(** ** The wildcard expander *)

Lemma includes_char_split (path : string) :
  In "*" (Str.split_dot path) -> Str.includes_char "*" path = true.
Proof.
  induction path as [|c rest IH]; simpl.
  - intros [H|[]]. discriminate H.
  - destruct (Ascii.eqb_spec c "."%char) as [->|Hdot]; simpl.
    + intros [H|H]; [discriminate H | now apply IH].
    + destruct (Ascii.eqb_spec c "*"%char) as [->|Hstar]; [reflexivity|].
      destruct (Str.split_dot rest) as [|seg segs] eqn:E.
      * intros [H|[]]. injection H as ->. now contradiction Hstar.
      * intros [H|H].
        -- injection H as -> _. now contradiction Hstar.
        -- apply IH. now right.
Qed.

Lemma indexOf_middle (x : string) (pre post : list string) :
  ~ In x pre -> indexOf x (pre ++ x :: post) = Z.of_nat (List.length pre).
Proof.
  induction pre as [|p pre IH]; simpl; intros Hx.
  - now rewrite String.eqb_refl.
  - destruct (String.eqb_spec p x) as [->|_]; [exfalso; apply Hx; now left|].
    rewrite IH by (intros H; apply Hx; now right).
    destruct (Z.ltb_spec (Z.of_nat (List.length pre)) 0); lia.
Qed.

Lemma slice0_middle {A} (pre : list A) (x : A) (post : list A) :
  slice0 (pre ++ x :: post) (Z.of_nat (List.length pre)) = pre.
Proof.
  unfold slice0.
  destruct (Z.ltb_spec (Z.of_nat (List.length pre)) 0); [lia|].
  rewrite Nat2Z.id. apply (take_app_length pre (x :: post)).
Qed.

Lemma map_wildcard_id (index : nat) (parts : list string) :
  ~ In "*" parts ->
  map (fun part => if String.eqb part "*" then Str.toString index else part)
    parts = parts.
Proof.
  induction parts as [|p parts IH]; simpl; intros H; [reflexivity|].
  destruct (String.eqb_spec p "*") as [->|_]; [exfalso; apply H; now left|].
  f_equal. apply IH. intros Hin; apply H; now right.
Qed.

Lemma concretePath_middle (pre post : list string) (index : nat) :
  ~ In "*" pre -> ~ In "*" post ->
  concretePath (pre ++ "*" :: post) index =
  Str.join_dot (pre ++ Str.toString index :: post).
Proof.
  intros Hpre Hpost. unfold concretePath.
  rewrite map_app. simpl.
  now rewrite (map_wildcard_id index pre Hpre), (map_wildcard_id index post Hpost).
Qed.

(** [index.toString()] is injective. *)
Lemma toString_inj (i j : nat) : Str.toString i = Str.toString j -> i = j.
Proof.
  unfold Str.toString. intros H.
  apply Unsigned.to_uint_inj.
  assert (E : Some (Nat.to_uint i) = Some (Nat.to_uint j))
    by (rewrite <- !NilEmpty.usu; now rewrite H).
  now injection E.
Qed.

Lemma string_length_append (s t : string) :
  String.length (s ++ t) = String.length s + String.length t.
Proof. induction s as [|c s IH]; simpl; [reflexivity | now rewrite IH]. Qed.

Lemma string_append_inv_head (p s t : string) :
  (p ++ s = p ++ t)%string -> s = t.
Proof.
  induction p as [|c p IH]; intros H.
  - exact H.
  - change (String c (p ++ s) = String c (p ++ t))%string in H.
    injection H as H. now apply IH.
Qed.

Lemma string_append_inv_tail (s t q : string) :
  (s ++ q = t ++ q)%string -> s = t.
Proof.
  revert t; induction s as [|c s IH]; intros [|d t] H.
  - reflexivity.
  - exfalso. apply (f_equal String.length) in H.
    rewrite !string_length_append in H. simpl in H. lia.
  - exfalso. apply (f_equal String.length) in H.
    rewrite !string_length_append in H. simpl in H. lia.
  - change (String c (s ++ q) = String d (t ++ q))%string in H.
    injection H as -> H. f_equal. now apply IH.
Qed.

Lemma string_append_nil_r (s : string) : (s ++ "")%string = s.
Proof.
  induction s as [|c s IH]; [reflexivity|].
  change (String c (s ++ "") = String c s)%string. now rewrite IH.
Qed.

Lemma string_append_assoc (s t u : string) :
  ((s ++ t) ++ u = s ++ (t ++ u))%string.
Proof.
  induction s as [|c s IH]; [reflexivity|].
  change (String c ((s ++ t) ++ u) = String c (s ++ (t ++ u)))%string.
  now rewrite IH.
Qed.

Lemma join_dot_cons (p : string) (q : string) (rest : list string) :
  Str.join_dot (p :: q :: rest) = (p ++ "." ++ Str.join_dot (q :: rest))%string.
Proof. reflexivity. Qed.

(** A joined path is its middle segment between a head and a tail that do
    not depend on it. *)
Lemma join_dot_middle (pre post : list string) :
  exists head tail : string,
    forall x, Str.join_dot (pre ++ x :: post) = (head ++ x ++ tail)%string.
Proof.
  induction pre as [|p pre (head & tail & IH)].
  - destruct post as [|q post].
    + exists "", "". intros x. cbn [app Str.join_dot].
      now rewrite string_append_nil_r.
    + exists "", ("." ++ Str.join_dot (q :: post))%string. intros x.
      reflexivity.
  - exists (p ++ "." ++ head)%string, tail. intros x.
    assert (E : Str.join_dot ((p :: pre) ++ x :: post)
                = (p ++ "." ++ Str.join_dot (pre ++ x :: post))%string)
      by (destruct pre; apply join_dot_cons).
    rewrite E, IH. now rewrite !string_append_assoc.
Qed.

Lemma join_dot_middle_inj (pre post : list string) (x y : string) :
  Str.join_dot (pre ++ x :: post) = Str.join_dot (pre ++ y :: post) -> x = y.
Proof.
  destruct (join_dot_middle pre post) as (head & tail & E).
  rewrite !E. intros H.
  apply string_append_inv_head in H. now apply string_append_inv_tail in H.
Qed.

Lemma keys_rset {A} (k : string) (x : A) (l : Entries A) :
  forall k', In k' (keys (rset k x l)) <-> k' = k \/ In k' (keys l).
Proof.
  intros k'. induction l as [|[k0 y] l IH]; simpl.
  - intuition congruence.
  - destruct (String.eqb_spec k0 k) as [->|Hne]; simpl.
    + intuition congruence.
    + rewrite IH. intuition congruence.
Qed.

Lemma rset_fresh {A} (k : string) (x : A) (l : Entries A) :
  ~ In k (keys l) -> rset k x l = l ++ [(k, x)].
Proof.
  induction l as [|[k0 y] l IH]; simpl; intros H; [reflexivity|].
  destruct (String.eqb_spec k0 k) as [->|_]; [exfalso; apply H; now left|].
  f_equal. apply IH. intros Hin; apply H; now right.
Qed.

Lemma fold_rset_keys {A} (writes acc : Entries A) :
  forall k,
    In k (keys (fold_left (fun e w => rset (fst w) (snd w) e) writes acc))
    <-> In k (keys acc) \/ In k (keys writes).
Proof.
  revert acc; induction writes as [|[k0 x] writes IH]; intros acc k; simpl.
  - intuition.
  - rewrite IH, keys_rset. intuition congruence.
Qed.

Lemma fold_rset_fresh {A} (writes acc : Entries A) :
  NoDup (keys (acc ++ writes)) ->
  fold_left (fun e w => rset (fst w) (snd w) e) writes acc = acc ++ writes.
Proof.
  revert acc; induction writes as [|[k x] writes IH]; intros acc ND; simpl.
  - now rewrite app_nil_r.
  - rewrite rset_fresh.
    + rewrite IH; rewrite <- app_assoc; [reflexivity | exact ND].
    + unfold keys in ND. rewrite map_app in ND. simpl in ND.
      apply NoDup_app in ND as (_ & Hdisj & _).
      intros Hin. apply list_elem_of_In in Hin.
      apply (Hdisj k Hin). now left.
Qed.

Lemma NoDup_map_inj {A B} (f : A -> B) (l : list A) :
  (forall x y, f x = f y -> x = y) -> NoDup l -> NoDup (map f l).
Proof.
  intros Hinj. induction l as [|x l IH]; simpl; intros ND.
  - constructor.
  - apply NoDup_cons in ND as [Hx ND]. apply NoDup_cons. split.
    + intros Hin. apply list_elem_of_In, in_map_iff in Hin as (y & E & Hy).
      apply Hinj in E. subst y. apply Hx. now apply list_elem_of_In.
    + now apply IH.
Qed.

Lemma expandWildcardPaths_keys (rs : Entries RuleArray) (vals : JsValue) :
  forall k,
    In k (keys (expandWildcardPaths rs vals)) <->
    exists entry, In entry rs /\ In k (keys (expandEntry vals entry)).
Proof.
  intros k. unfold expandWildcardPaths. rewrite fold_rset_keys. simpl.
  unfold keys. rewrite in_map_iff. split.
  - intros [[]|([k' ra] & <- & Hin)].
    apply in_flat_map in Hin as (entry & Hentry & Hin).
    exists entry. split; [assumption|]. apply in_map_iff. now exists (k', ra).
  - intros (entry & Hentry & Hin). right.
    apply in_map_iff in Hin as (w & <- & Hw).
    exists w. split; [reflexivity|]. apply in_flat_map. now exists entry.
Qed.

Lemma assoc_rset {A} (k k0 : string) (y : A) (l : Entries A) :
  assoc k (rset k0 y l) = if String.eqb k0 k then Some y else assoc k l.
Proof.
  induction l as [|[k1 z] l IH]; simpl.
  - reflexivity.
  - destruct (String.eqb_spec k1 k0) as [->|Hne]; simpl.
    + now destruct (String.eqb k0 k).
    + rewrite IH. destruct (String.eqb_spec k1 k) as [->|_]; [|reflexivity].
      destruct (String.eqb_spec k0 k) as [->|_]; [now contradiction Hne|].
      reflexivity.
Qed.

Lemma fold_rset_assoc_uniform {A} (k : string) (x : A) (writes : Entries A) :
  (forall w, In w writes -> fst w = k -> snd w = x) ->
  forall acc,
    assoc k acc = Some x \/ In k (keys writes) ->
    assoc k (fold_left (fun e w => rset (fst w) (snd w) e) writes acc) = Some x.
Proof.
  induction writes as [|[k0 y] writes IH]; intros Hall acc Hk; simpl.
  - destruct Hk as [Hk|[]]. exact Hk.
  - apply IH; [intros w Hw; apply Hall; now right|].
    rewrite assoc_rset. simpl in Hk.
    destruct (String.eqb_spec k0 k) as [->|Hne].
    + left. f_equal. apply (Hall (k, y)); [now left | reflexivity].
    + destruct Hk as [Hk|[Hk|Hk]]; [now left | now contradiction Hne | now right].
Qed.

(** Whatever an entry expands to is bound to the entry's own rule array. *)
Lemma expandEntry_shared (vals : JsValue) (entry w : string * RuleArray) :
  In w (expandEntry vals entry) -> snd w = snd entry.
Proof.
  destruct entry as [path ra]. unfold expandEntry. simpl.
  destruct (Str.includes_char "*" path).
  - destruct (getNestedValue vals _) as [| | | | | | | | r items|];
      try (intros []).
    intros Hw. apply in_map_iff in Hw as (i & <- & _). reflexivity.
  - intros [<-|[]]. reflexivity.
Qed.

Lemma expandWildcardPaths_single (entry : string * RuleArray) (vals : JsValue) :
  expandWildcardPaths [entry] vals =
  fold_left (fun expanded w => rset (fst w) (snd w) expanded)
    (expandEntry vals entry) [].
Proof. unfold expandWildcardPaths. cbn [flat_map]. now rewrite app_nil_r. Qed.

(** C4: expansion of one rule path of the collection against the current
    value tree.  (1) A path with exactly one wildcard segment whose prefix
    resolves to an array of length N yields exactly N entries, pairwise
    distinct, the wildcard replaced by 0 .. N-1 in order, every one bound
    to the very rule array of the rule path (same address, same rules);
    they are the whole expansion when the collection has this rule path
    only, and keys of the expansion of any collection that contains it,
    where they are bound to that rule array unless another rule path of
    the collection expands to the same key.
    (2) When the prefix does not resolve to an array nothing is emitted
    (an array of length 0 is case (1) with N = 0).  (3) A path without
    ['*'] is emitted unchanged with its rule array. *)
Theorem expandWildcardPaths_cardinality :
  (forall (vals : JsValue) (path : string) (ra : RuleArray)
          (pre post : list string) (r : ref) (items : list JsValue),
      Str.split_dot path = pre ++ "*" :: post ->
      ~ In "*" pre -> ~ In "*" post ->
      getNestedValue vals (Str.join_dot pre) = JArr r items ->
      let emitted :=
        map (fun index =>
               (Str.join_dot (pre ++ Str.toString index :: post), ra))
          (seq 0 (List.length items)) in
      expandEntry vals (path, ra) = emitted
      /\ List.length emitted = List.length items
      /\ NoDup (keys emitted)
      /\ expandWildcardPaths [(path, ra)] vals = emitted
      /\ (forall rs k, In (path, ra) rs -> In k (keys emitted) ->
                       In k (keys (expandWildcardPaths rs vals)))
      /\ (forall rs k, In (path, ra) rs -> In k (keys emitted) ->
            (forall entry, In entry rs ->
                           In k (keys (expandEntry vals entry)) ->
                           snd entry = ra) ->
            assoc k (expandWildcardPaths rs vals) = Some ra))
  /\ (forall (vals : JsValue) (path : string) (ra : RuleArray)
             (pre post : list string),
         Str.split_dot path = pre ++ "*" :: post ->
         ~ In "*" pre ->
         isArray (getNestedValue vals (Str.join_dot pre)) = false ->
         expandEntry vals (path, ra) = []
         /\ expandWildcardPaths [(path, ra)] vals = [])
  /\ (forall (vals : JsValue) (path : string) (ra : RuleArray),
         Str.includes_char "*" path = false ->
         expandEntry vals (path, ra) = [(path, ra)]
         /\ expandWildcardPaths [(path, ra)] vals = [(path, ra)]
         /\ (forall rs, In (path, ra) rs ->
                        In path (keys (expandWildcardPaths rs vals)))).
Proof.
  split; [|split].
  - intros vals path ra pre post r items Hsplit Hpre Hpost Harr emitted.
    assert (Hstar : Str.includes_char "*" path = true).
    { apply includes_char_split. rewrite Hsplit. apply in_or_app.
      right; now left. }
    assert (Hentry : expandEntry vals (path, ra) = emitted).
    { unfold expandEntry. rewrite Hstar, Hsplit.
      rewrite (indexOf_middle "*" pre post Hpre), slice0_middle, Harr.
      subst emitted. apply map_ext. intros index.
      now rewrite concretePath_middle. }
    assert (Hnodup : NoDup (keys emitted)).
    { subst emitted. unfold keys. rewrite map_map. simpl.
      apply NoDup_map_inj; [|apply NoDup_seq].
      intros i j E. apply join_dot_middle_inj in E. now apply toString_inj. }
    repeat split.
    + exact Hentry.
    + subst emitted. now rewrite length_map, length_seq.
    + exact Hnodup.
    + rewrite expandWildcardPaths_single, Hentry.
      now apply (fold_rset_fresh emitted []).
    + intros rs k Hin Hk. apply expandWildcardPaths_keys.
      exists (path, ra). now rewrite Hentry.
    + intros rs k Hin Hk Hothers. unfold expandWildcardPaths.
      apply fold_rset_assoc_uniform.
      * intros [k' ra'] Hw Hk'. simpl in Hk'. subst k'. simpl.
        apply in_flat_map in Hw as (entry & Hentry' & Hw).
        rewrite <- (Hothers entry Hentry').
        -- now apply (expandEntry_shared vals entry (k, ra')).
        -- apply in_map_iff. now exists (k, ra').
      * right. apply in_map_iff in Hk as ([k' ra'] & <- & Hw).
        apply in_map_iff. exists (k', ra'). split; [reflexivity|].
        apply in_flat_map. exists (path, ra). now rewrite Hentry.
  - intros vals path ra pre post Hsplit Hpre Hnot.
    assert (Hstar : Str.includes_char "*" path = true).
    { apply includes_char_split. rewrite Hsplit. apply in_or_app.
      right; now left. }
    assert (Hentry : expandEntry vals (path, ra) = []).
    { unfold expandEntry. rewrite Hstar, Hsplit.
      rewrite (indexOf_middle "*" pre post Hpre), slice0_middle.
      destruct (getNestedValue vals (Str.join_dot pre)); try reflexivity.
      discriminate Hnot. }
    split; [exact Hentry|].
    now rewrite expandWildcardPaths_single, Hentry.
  - intros vals path ra Hstar.
    assert (Hentry : expandEntry vals (path, ra) = [(path, ra)]).
    { unfold expandEntry. now rewrite Hstar. }
    repeat split.
    + exact Hentry.
    + now rewrite expandWildcardPaths_single, Hentry.
    + intros rs Hin. apply expandWildcardPaths_keys.
      exists (path, ra). rewrite Hentry. split; [assumption | now left].
Qed.

Lemma expandWildcardPaths_cardinality_witness :
  expandWildcardPaths [("items.*.name", sampleRuleArray)] sampleItems =
  [("items.0.name", sampleRuleArray); ("items.1.name", sampleRuleArray);
   ("items.2.name", sampleRuleArray)]
  /\ expandWildcardPaths [("tags.*.label", sampleRuleArray)] sampleItems = []
  /\ expandWildcardPaths [("missing.*.x", sampleRuleArray)] sampleItems = []
  /\ expandWildcardPaths [("title", sampleRuleArray)] sampleItems =
     [("title", sampleRuleArray)].
Proof.
  destruct expandWildcardPaths_cardinality as (Harray & Hnone & Hplain).
  split; [|split; [|split]].
  - destruct (Harray sampleItems "items.*.name" sampleRuleArray
                ["items"] ["name"] 2 [JObj 3 []; JObj 4 []; JObj 5 []])
      as (_ & _ & _ & E & _).
    + reflexivity.
    + intros [H|[]]; discriminate H.
    + intros [H|[]]; discriminate H.
    + reflexivity.
    + exact E.
  - destruct (Harray sampleItems "tags.*.label" sampleRuleArray
                ["tags"] ["label"] 6 [])
      as (_ & _ & _ & E & _).
    + reflexivity.
    + intros [H|[]]; discriminate H.
    + intros [H|[]]; discriminate H.
    + reflexivity.
    + exact E.
  - destruct (Hnone sampleItems "missing.*.x" sampleRuleArray
                ["missing"] ["x"]) as (_ & E).
    + reflexivity.
    + intros [H|[]]; discriminate H.
    + reflexivity.
    + exact E.
  - destruct (Hplain sampleItems "title" sampleRuleArray) as (_ & E & _).
    + reflexivity.
    + exact E.
Defined.

(** ** The rule runner *)

Lemma finallyBlock_frame (p : string) (c : nat) (m : ValidationManager) :
  let m' := finallyBlock p c m in
  errors m' = errors m /\ validationCache m' = validationCache m
  /\ callLog m' = callLog m /\ rules m' = rules m /\ values m' = values m
  /\ abortedSignals m' = abortedSignals m
  /\ nextController m' = nextController m
  /\ fieldDependencies m' = fieldDependencies m.
Proof. unfold finallyBlock. case_bool_decide; simpl; repeat split. Qed.

Lemma commit_outcome p c v errs m :
  snd (commit p c v errs m) = Settled (Normal errs).
Proof. unfold commit. now destruct (deepClone v (nextRef m)). Qed.

Lemma commit_state p c v errs m :
  let m' := fst (commit p c v errs m) in
  errors m' = <[p := errs]> (errors m)
  /\ validationCache m' =
     <[p := {| vc_value := fst (deepClone v (nextRef m)); vc_errors := errs |}]>
       (validationCache m)
  /\ callLog m' = callLog m /\ rules m' = rules m /\ values m' = values m
  /\ abortedSignals m' = abortedSignals m
  /\ nextController m' = nextController m
  /\ fieldDependencies m' = fieldDependencies m.
Proof.
  unfold commit. destruct (deepClone v (nextRef m)) as [snapshot next].
  cbn [fst]. unfold finallyBlock. case_bool_decide; simpl; repeat split.
Qed.

Lemma verdictOfResult_passes result :
  verdictOfResult result = Passes ->
  Nat.ltb 0 (List.length (resolveValidationResult result)) = false.
Proof.
  unfold verdictOfResult.
  now destruct (Nat.ltb 0 (List.length (resolveValidationResult result))).
Qed.

Lemma verdictOfResult_fails result errs :
  verdictOfResult result = Fails errs ->
  Nat.ltb 0 (List.length (resolveValidationResult result)) = true
  /\ resolveValidationResult result = errs.
Proof.
  unfold verdictOfResult.
  destruct (Nat.ltb 0 (List.length (resolveValidationResult result)));
    [|discriminate].
  intros E. now injection E.
Qed.

Lemma commit_result p c v errs m :
  exists m',
    commit p c v errs m = (m', Settled (Normal errs))
    /\ errors m' !! p = Some errs
    /\ validationCache m' !! p =
       Some {| vc_value := fst (deepClone v (nextRef m)); vc_errors := errs |}
    /\ callLog m' = callLog m /\ rules m' = rules m /\ values m' = values m.
Proof.
  exists (fst (commit p c v errs m)).
  pose proof (commit_outcome p c v errs m) as Ho.
  pose proof (commit_state p c v errs m) as (He & Hc & Hl & Hr & Hv & _).
  destruct (commit p c v errs m) as [m' o]. simpl in *. subst o.
  rewrite He, Hc, !lookup_insert_eq. repeat split; assumption.
Qed.

Lemma drive_settled settle fuel result m :
  drive settle fuel (Settled result) m = (m, Some result).
Proof. destruct fuel; reflexivity. Qed.

Lemma drive_step settle fuel k m :
  drive settle (S fuel) (Suspends k) m =
  drive settle fuel
    (snd (validateField_resume k (settle (s_awaited k) (s_value k)) m))
    (fst (validateField_resume k (settle (s_awaited k) (s_value k)) m)).
Proof.
  cbn [drive].
  now destruct (validateField_resume k (settle (s_awaited k) (s_value k)) m).
Qed.

Lemma markValidating_frame p va m :
  let m' := markValidating p va m in
  abortedSignals m' = abortedSignals m /\ values m' = values m
  /\ rules m' = rules m /\ callLog m' = callLog m /\ nextRef m' = nextRef m
  /\ nextController m' = nextController m
  /\ validationCache m' = validationCache m
  /\ abortControllers m' = abortControllers m.
Proof. unfold markValidating. destruct va; simpl; repeat split. Qed.

(** The rule runner refines [chainSpec]: run to its end from any position
    of the chain, an invocation that is not cancelled calls the rules
    [chainSpec] says, in that order, and commits the errors it says. *)
Lemma drive_runChain_spec settle p c value :
  forall chain m validatingAsync fuel,
    c ∉ abortedSignals m ->
    List.length chain <= fuel ->
    exists m',
      drive settle fuel
        (snd (runChain p c value validatingAsync chain m))
        (fst (runChain p c value validatingAsync chain m))
      = (m', Some (Normal (snd (chainSpec settle value (values m) chain))))
      /\ errors m' !! p = Some (snd (chainSpec settle value (values m) chain))
      /\ validationCache m' !! p =
         Some {| vc_value := fst (deepClone value (nextRef m));
                 vc_errors := snd (chainSpec settle value (values m) chain) |}
      /\ callLog m' =
         callLog m ++ map (fun x => (p, rule_id x))
                        (fst (chainSpec settle value (values m) chain))
      /\ rules m' = rules m /\ values m' = values m.
Proof.
  induction chain as [|r chain IH]; intros m va fuel Hab Hfuel.
  - cbn [runChain chainSpec fst snd map].
    destruct (commit_result p c value [] m) as (m' & -> & ? & ? & Hl & ? & ?).
    exists m'. cbn [fst snd]. rewrite drive_settled, app_nil_r.
    repeat split; assumption.
  - cbn [runChain chainSpec].
    remember (set_callLog (callLog m ++ [(p, rule_id r)]) m) as m1 eqn:Em1.
    assert (Hm1 : values m1 = values m /\ nextRef m1 = nextRef m
                  /\ abortedSignals m1 = abortedSignals m
                  /\ rules m1 = rules m
                  /\ callLog m1 = callLog m ++ [(p, rule_id r)])
      by (subst m1; repeat split).
    destruct Hm1 as (Hv1 & Hn1 & Ha1 & Hr1 & Hl1).
    pose proof (markValidating_frame p va m1)
      as (Ha2 & Hv2 & Hr2 & Hl2 & Hn2 & _).
    cbv zeta in Ha2, Hv2, Hr2, Hl2, Hn2.
    assert (Hstop : forall errs m0 fuel0,
               nextRef m0 = nextRef m -> callLog m0 = callLog m1 ->
               rules m0 = rules m -> values m0 = values m ->
               exists m',
                 drive settle fuel0 (snd (commit p c value errs m0))
                   (fst (commit p c value errs m0)) = (m', Some (Normal errs))
                 /\ errors m' !! p = Some errs
                 /\ validationCache m' !! p =
                    Some {| vc_value := fst (deepClone value (nextRef m));
                            vc_errors := errs |}
                 /\ callLog m' = callLog m ++ map (fun x => (p, rule_id x)) [r]
                 /\ rules m' = rules m /\ values m' = values m).
    { intros errs m0 fuel0 Hn0 Hl0 Hr0 Hv0.
      destruct (commit_result p c value errs m0)
        as (m' & -> & ? & Hc & Hl & Hr & Hv).
      exists m'. cbn [fst snd]. rewrite drive_settled.
      rewrite Hc, Hl, Hr, Hv, Hn0, Hl0, Hr0, Hv0, Hl1.
      repeat split; assumption. }
    assert (Hgo : forall va0 m0 fuel0,
               abortedSignals m0 = abortedSignals m ->
               nextRef m0 = nextRef m -> callLog m0 = callLog m1 ->
               rules m0 = rules m -> values m0 = values m ->
               List.length chain <= fuel0 ->
               exists m',
                 drive settle fuel0 (snd (runChain p c value va0 chain m0))
                   (fst (runChain p c value va0 chain m0))
                 = (m', Some (Normal
                                (snd (chainSpec settle value (values m) chain))))
                 /\ errors m' !! p
                    = Some (snd (chainSpec settle value (values m) chain))
                 /\ validationCache m' !! p =
                    Some {| vc_value := fst (deepClone value (nextRef m));
                            vc_errors :=
                              snd (chainSpec settle value (values m) chain) |}
                 /\ callLog m' =
                    callLog m
                    ++ map (fun x => (p, rule_id x))
                         (r :: fst (chainSpec settle value (values m) chain))
                 /\ rules m' = rules m /\ values m' = values m).
    { intros va0 m0 fuel0 Ha0 Hn0 Hl0 Hr0 Hv0 Hf0.
      destruct (IH m0 va0 fuel0) as (m' & E & He & Hc & Hl & Hr & Hv);
        [now rewrite Ha0 | exact Hf0 |].
      exists m'. rewrite Hv0 in *. rewrite E, Hc, Hl, Hr, Hv, Hn0, Hl0, Hr0, Hl1.
      repeat split; try assumption. simpl. now rewrite <- app_assoc. }
    unfold ruleVerdict, turnBody. rewrite Hv1.
    destruct (rule_call r value (values m)) as [[result|]|err] eqn:Ecall;
      cbn [tryCatch turnCatch].
    + unfold verdictOfResult.
      destruct (Nat.ltb 0 (List.length (resolveValidationResult result)));
        cbn [tryCatch stopErrors fst snd].
      * now apply Hstop.
      * destruct (chainSpec settle value (values m) chain) as [run errs] eqn:Es.
        cbn [fst snd]. specialize (Hgo va m1 fuel).
        cbn [fst snd] in Hgo. apply Hgo; try assumption; try reflexivity.
        simpl in Hfuel. lia.
    + cbn [fst snd]. destruct fuel as [|fuel]; [simpl in Hfuel; lia|].
      rewrite drive_step. cbn [s_awaited s_value].
      unfold validateField_resume. cbn [s_field s_controller s_value s_rest].
      assert (Hnot : aborted c (markValidating p va m1) = false).
      { unfold aborted. rewrite Ha2, Ha1. now apply bool_decide_eq_false. }
      destruct (settle r value) as [result|err]; cbn [tryCatch turnCatch].
      * rewrite Hnot. unfold verdictOfResult.
        destruct (Nat.ltb 0 (List.length (resolveValidationResult result)));
          cbn [tryCatch stopErrors fst snd].
        -- apply Hstop; congruence.
        -- destruct (chainSpec settle value (values m) chain)
             as [run errs] eqn:Es.
           cbn [fst snd].
           specialize (Hgo true (markValidating p va m1) fuel).
           cbn [fst snd] in Hgo. apply Hgo; try congruence.
           simpl in Hfuel. lia.
      * cbn [stopErrors fst snd]. apply Hstop; congruence.
    + cbn [stopErrors fst snd]. now apply Hstop.
Qed.

Lemma chainSpec_stops settle value allValues pre r post errs :
  Forall (fun x => ruleVerdict settle value allValues x = Passes) pre ->
  stopErrors (ruleVerdict settle value allValues r) = Some errs ->
  chainSpec settle value allValues (pre ++ r :: post) = (pre ++ [r], errs).
Proof.
  intros Hpre Hstop. induction Hpre as [|x pre Hx _ IH]; cbn [app chainSpec].
  - now rewrite Hstop.
  - rewrite Hx. cbn [stopErrors]. now rewrite IH.
Qed.

(** The chain run to its end: the rules before the first one that stops
    pass, each is called once and in order, the stopping rule is the last
    one called, and what it reports is committed. *)
Lemma drive_runChain_stops settle p c value r post errs :
  forall pre m validatingAsync fuel,
    c ∉ abortedSignals m ->
    Forall (fun x => ruleVerdict settle value (values m) x = Passes) pre ->
    stopErrors (ruleVerdict settle value (values m) r) = Some errs ->
    List.length (pre ++ r :: post) <= fuel ->
    exists m',
      drive settle fuel
        (snd (runChain p c value validatingAsync (pre ++ r :: post) m))
        (fst (runChain p c value validatingAsync (pre ++ r :: post) m))
      = (m', Some (Normal errs))
      /\ errors m' !! p = Some errs
      /\ validationCache m' !! p =
         Some {| vc_value := fst (deepClone value (nextRef m));
                 vc_errors := errs |}
      /\ callLog m' = callLog m ++ map (fun x => (p, rule_id x)) (pre ++ [r])
      /\ rules m' = rules m /\ values m' = values m.
Proof.
  intros pre m va fuel Hab Hpre Hstop Hfuel.
  destruct (drive_runChain_spec settle p c value (pre ++ r :: post) m va fuel
              Hab Hfuel) as (m' & E & He & Hc & Hl & Hr & Hv).
  rewrite (chainSpec_stops settle value (values m) pre r post errs Hpre Hstop)
    in E, He, Hc, Hl.
  exists m'. repeat split; assumption.
Qed.

Lemma registerController_frame p m :
  let m' := registerController p m in
  values m' = values m /\ rules m' = rules m /\ callLog m' = callLog m
  /\ nextRef m' = nextRef m /\ errors m' = errors m
  /\ validationCache m' = validationCache m
  /\ nextController m' = S (nextController m)
  /\ abortControllers m' !! p = Some (nextController m)
  /\ fieldDependencies m' = fieldDependencies m.
Proof.
  unfold registerController.
  destruct (abortControllers m !! p); simpl; rewrite lookup_insert_eq;
    repeat split.
Qed.

Lemma registerController_fresh p m :
  wfManager m -> nextController m ∉ abortedSignals (registerController p m).
Proof.
  intros [Hab Hctl]. unfold registerController.
  destruct (abortControllers m !! p) as [c|] eqn:E; simpl.
  - intros Hin. apply elem_of_union in Hin as [Hin|Hin].
    + apply elem_of_singleton in Hin. apply Hctl in E. lia.
    + apply Hab in Hin. lia.
  - intros Hin. apply Hab in Hin. lia.
Qed.

(** The controller the key had is aborted by the new invocation. *)
Lemma registerController_aborts p c m :
  abortControllers m !! p = Some c ->
  aborted c (registerController p m) = true.
Proof.
  intros E. unfold registerController, aborted. rewrite E. simpl.
  apply bool_decide_eq_true. set_solver.
Qed.

Lemma fieldRulesOf_ext p m m' :
  rules m' = rules m -> values m' = values m ->
  fieldRulesOf p m' = fieldRulesOf p m.
Proof. intros Hr Hv. unfold fieldRulesOf. now rewrite Hr, Hv. Qed.

Lemma currentValueOf_ext p m m' :
  values m' = values m -> currentValueOf p m' = currentValueOf p m.
Proof. intros Hv. unfold currentValueOf. now rewrite Hv. Qed.

(** On a cache miss the invocation goes straight into the chain. *)
Lemma validateField_start_miss p m :
  wfManager m -> cacheMiss p m -> fieldRulesOf p m <> [] ->
  validateField_start p m =
  runChain p (nextController m) (currentValueOf p m) false (fieldRulesOf p m)
    (registerController p m).
Proof.
  intros Hwf Hmiss Hrules. unfold validateField_start.
  pose proof (registerController_frame p m)
    as (Hv & Hr & _ & _ & _ & Hc & _).
  cbv zeta in Hv, Hr, Hc.
  rewrite (fieldRulesOf_ext p m _ Hr Hv), (currentValueOf_ext p m _ Hv), Hc.
  destruct (fieldRulesOf p m) as [|r0 chain] eqn:E; [congruence|].
  cbn [List.length Nat.eqb].
  assert (Hnot : aborted (nextController m) (registerController p m) = false).
  { apply bool_decide_eq_false. now apply registerController_fresh. }
  rewrite Hnot. unfold cacheMiss in Hmiss.
  destruct (validationCache m !! p) as [cached|]; [|reflexivity].
  now rewrite Hmiss.
Qed.

(** A chain whose rules up to [r] pass and whose rule [r] stops with
    [errs], validated from a cache miss with nothing else running. *)
Lemma validateField_run_stops settle p m pre r post errs :
  wfManager m -> cacheMiss p m ->
  fieldRulesOf p m = pre ++ r :: post ->
  Forall (fun x => ruleVerdict settle (currentValueOf p m) (values m) x
                   = Passes) pre ->
  stopErrors (ruleVerdict settle (currentValueOf p m) (values m) r)
  = Some errs ->
  exists m',
    validateField_run settle p m = (m', Some (Normal errs))
    /\ errors m' !! p = Some errs
    /\ validationCache m' !! p =
       Some {| vc_value := fst (deepClone (currentValueOf p m) (nextRef m));
               vc_errors := errs |}
    /\ callLog m' = callLog m ++ map (fun x => (p, rule_id x)) (pre ++ [r])
    /\ rules m' = rules m /\ values m' = values m.
Proof.
  intros Hwf Hmiss Hchain Hpre Hstop. unfold validateField_run.
  rewrite validateField_start_miss; [|assumption|assumption|].
  2:{ rewrite Hchain. now destruct pre. }
  rewrite Hchain.
  pose proof (registerController_frame p m)
    as (Hv & Hr & Hl & Hn & _).
  cbv zeta in Hv, Hr, Hl, Hn.
  destruct (drive_runChain_stops settle p (nextController m)
              (currentValueOf p m) r post errs pre (registerController p m)
              false (List.length (pre ++ r :: post)))
    as (m' & E & He & Hc & Hlog & Hrules & Hvals).
  - now apply registerController_fresh.
  - now rewrite Hv.
  - now rewrite Hv.
  - lia.
  - exists m'.
    destruct (runChain p (nextController m) (currentValueOf p m) false
                (pre ++ r :: post) (registerController p m)) as [m1 o].
    cbn [fst snd] in E. rewrite E.
    rewrite Hc, Hlog, Hrules, Hvals, Hn, Hl, Hr, Hv.
    repeat split; assumption.
Qed.

(** C3: the rules of the chain bound to a path are evaluated in list
    order and evaluation stops at the first rule whose result, awaited if
    it is a promise, is a non-empty error: the rules called are exactly
    those up to and including that rule, in order (none after it), and the
    error list committed for the path, which is also the value returned,
    is exactly that rule's message list. *)
Theorem chain_stops_at_first_failure
  (settle : Rule -> JsValue -> Settlement) (p : string)
  (m : ValidationManager) (pre post : list Rule) (r : Rule)
  (errs : list string) :
  wfManager m -> cacheMiss p m ->
  fieldRulesOf p m = pre ++ r :: post ->
  Forall (fun x => ruleVerdict settle (currentValueOf p m) (values m) x
                   = Passes) pre ->
  ruleVerdict settle (currentValueOf p m) (values m) r = Fails errs ->
  exists m',
    validateField_run settle p m = (m', Some (Normal errs))
    /\ errs <> []
    /\ errors m' !! p = Some errs
    /\ callLog m' = callLog m ++ map (fun x => (p, rule_id x)) (pre ++ [r]).
Proof.
  intros Hwf Hmiss Hchain Hpre Hfail.
  destruct (validateField_run_stops settle p m pre r post errs)
    as (m' & E & He & _ & Hlog & _); try assumption.
  - now rewrite Hfail.
  - exists m'. repeat split; try assumption.
    unfold ruleVerdict in Hfail.
    assert (Hres : forall result, verdictOfResult result = Fails errs ->
                                  errs <> []).
    { intros result Hres. apply verdictOfResult_fails in Hres as [Hlen <-].
      intros Hnil. rewrite Hnil in Hlen. discriminate Hlen. }
    destruct (rule_call r _ _) as [[result|]|err]; [eauto| |discriminate].
    destruct (settle r _) as [result|err]; [eauto|discriminate].
Qed.

(** ** Faults stay inside the field *)

Lemma outcomeWithin_mono (a b : nat) (o : Outcome) :
  a <= b -> outcomeWithin a o -> outcomeWithin b o.
Proof. destruct o as [[|]|k]; simpl; auto. lia. Qed.

(** Nothing escapes the inner [try]/[catch]. *)
Lemma turn_caught rule value allValues :
  exists t, tryCatch (turnBody rule value allValues) turnCatch = Normal t.
Proof.
  unfold turnBody.
  destruct (rule_call rule value allValues) as [[result|]|err]; simpl; eauto.
  destruct (Nat.ltb 0 (List.length (resolveValidationResult result))); eauto.
Qed.

Lemma runChain_within p c value :
  forall chain va m,
    outcomeWithin (List.length chain) (snd (runChain p c value va chain m))
    /\ rules (fst (runChain p c value va chain m)) = rules m
    /\ values (fst (runChain p c value va chain m)) = values m.
Proof.
  induction chain as [|r chain IH]; intros va m.
  - cbn [runChain]. rewrite commit_outcome.
    pose proof (commit_state p c value [] m) as (_ & _ & _ & Hr & Hv & _).
    repeat split; assumption.
  - cbn [runChain].
    remember (set_callLog (callLog m ++ [(p, rule_id r)]) m) as m1 eqn:Em1.
    assert (Hm1 : rules m1 = rules m /\ values m1 = values m)
      by (subst m1; split; reflexivity).
    destruct Hm1 as [Hr1 Hv1].
    destruct (turn_caught r value (values m1)) as [t ->].
    destruct t as [|errs| |].
    + destruct (IH va m1) as (Hw & Hr & Hv).
      rewrite Hr, Hv, Hr1, Hv1. repeat split.
      eapply outcomeWithin_mono; [|exact Hw]. simpl. lia.
    + rewrite commit_outcome.
      pose proof (commit_state p c value errs m1) as (_ & _ & _ & Hr & Hv & _).
      cbv zeta in Hr, Hv. rewrite Hr, Hv, Hr1, Hv1. repeat split.
    + cbn [fst snd].
      pose proof (markValidating_frame p va m1) as (_ & Hv & Hr & _).
      cbv zeta in Hr, Hv. rewrite Hr, Hv, Hr1, Hv1.
      repeat split. simpl. lia.
    + cbn [fst snd].
      pose proof (finallyBlock_frame p c m1) as (_ & _ & _ & Hr & Hv & _).
      cbv zeta in Hr, Hv. rewrite Hr, Hv, Hr1, Hv1. repeat split.
Qed.

Lemma validateField_resume_within k s m :
  outcomeWithin (List.length (s_rest k)) (snd (validateField_resume k s m))
  /\ rules (fst (validateField_resume k s m)) = rules m
  /\ values (fst (validateField_resume k s m)) = values m.
Proof.
  unfold validateField_resume.
  assert (Hcommit : forall errs,
             outcomeWithin (List.length (s_rest k))
               (snd (commit (s_field k) (s_controller k) (s_value k) errs m))
             /\ rules (fst (commit (s_field k) (s_controller k) (s_value k)
                              errs m)) = rules m
             /\ values (fst (commit (s_field k) (s_controller k) (s_value k)
                               errs m)) = values m).
  { intros errs. rewrite commit_outcome.
    pose proof (commit_state (s_field k) (s_controller k) (s_value k) errs m)
      as (_ & _ & _ & Hr & Hv & _).
    repeat split; assumption. }
  pose proof (finallyBlock_frame (s_field k) (s_controller k) m)
    as (_ & _ & _ & Hr & Hv & _).
  cbv zeta in Hr, Hv.
  destruct s as [result|err]; cbn [tryCatch turnCatch].
  - destruct (aborted (s_controller k) m); cbn [tryCatch fst snd].
    + repeat split; assumption.
    + destruct (Nat.ltb 0 (List.length (resolveValidationResult result)));
        cbn [tryCatch]; [apply Hcommit | apply runChain_within].
  - apply Hcommit.
Qed.

Lemma validateField_start_within p m :
  outcomeWithin (List.length (fieldRulesOf p m)) (snd (validateField_start p m))
  /\ rules (fst (validateField_start p m)) = rules m
  /\ values (fst (validateField_start p m)) = values m.
Proof.
  unfold validateField_start.
  pose proof (registerController_frame p m) as (Hv & Hr & _).
  cbv zeta in Hv, Hr.
  rewrite (fieldRulesOf_ext p m _ Hr Hv), (currentValueOf_ext p m _ Hv).
  remember (registerController p m) as m2 eqn:Em2.
  destruct (fieldRulesOf p m) as [|r0 chain] eqn:E.
  - cbn [List.length Nat.eqb fst snd]. unfold releaseController.
    case_bool_decide; simpl; rewrite Hr, Hv; repeat split.
  - cbn [List.length Nat.eqb].
    assert (Hmiss :
      let miss :=
        if aborted (nextController m) m2
        then (finallyBlock p (nextController m) m2, Settled (Normal []))
        else runChain p (nextController m) (currentValueOf p m) false
               (r0 :: chain) m2 in
      outcomeWithin (S (List.length chain)) (snd miss)
      /\ rules (fst miss) = rules m /\ values (fst miss) = values m).
    { cbv zeta. destruct (aborted (nextController m) m2).
      - pose proof (finallyBlock_frame p (nextController m) m2)
          as (_ & _ & _ & Hr' & Hv' & _).
        cbv zeta in Hr', Hv'. cbn [fst snd]. rewrite Hr', Hv', Hr, Hv.
        repeat split.
      - destruct (runChain_within p (nextController m) (currentValueOf p m)
                    (r0 :: chain) false m2) as (Hw & Hr' & Hv').
        rewrite Hr', Hv', Hr, Hv. repeat split. exact Hw. }
    cbv zeta in Hmiss.
    destruct (validationCache m2 !! p) as [cached|]; [|exact Hmiss].
    destruct (deepEqual (vc_value cached) (currentValueOf p m));
      [|exact Hmiss].
    cbn [fst snd]. unfold releaseController.
    case_bool_decide; simpl; rewrite Hr, Hv; repeat split.
Qed.

(** With as much fuel as rules are left, an invocation reaches its end,
    and its promise is fulfilled. *)
Lemma drive_total settle :
  forall fuel o m,
    outcomeWithin fuel o ->
    exists m' errs,
      drive settle fuel o m = (m', Some (Normal errs))
      /\ rules m' = rules m /\ values m' = values m.
Proof.
  induction fuel as [|fuel IH]; intros o m Hw.
  - destruct o as [[errs|err]|k]; simpl in Hw; [|contradiction|lia].
    exists m, errs. repeat split.
  - destruct o as [[errs|err]|k]; simpl in Hw; [|contradiction|].
    + exists m, errs. repeat split.
    + cbn [drive].
      destruct (validateField_resume_within k
                  (settle (s_awaited k) (s_value k)) m) as (Hw' & Hr & Hv).
      destruct (validateField_resume k (settle (s_awaited k) (s_value k)) m)
        as [m1 o1]. cbn [fst snd] in *.
      destruct (IH o1 m1) as (m' & errs & E & Hr' & Hv').
      * eapply outcomeWithin_mono; [|exact Hw']. lia.
      * exists m', errs. rewrite E, Hr', Hv', Hr, Hv. repeat split.
Qed.

Lemma validateField_run_total settle p m :
  exists m' errs,
    validateField_run settle p m = (m', Some (Normal errs))
    /\ rules m' = rules m /\ values m' = values m.
Proof.
  unfold validateField_run.
  destruct (validateField_start_within p m) as (Hw & Hr & Hv).
  destruct (validateField_start p m) as [m1 o]. cbn [fst snd] in *.
  destruct (drive_total settle (List.length (fieldRulesOf p m)) o m1)
    as (m' & errs & E & Hr' & Hv').
  - exact Hw.
  - exists m', errs. rewrite E, Hr', Hv', Hr, Hv. repeat split.
Qed.

Lemma startAll_within :
  forall fields m,
    rules (fst (startAll fields m)) = rules m
    /\ values (fst (startAll fields m)) = values m
    /\ Forall (fun fo => outcomeWithin
                           (List.length (fieldRulesOf (fst fo) m)) (snd fo))
         (snd (startAll fields m)).
Proof.
  induction fields as [|field fields IH]; intros m.
  - repeat split. constructor.
  - cbn [startAll].
    destruct (validateField_start_within field m) as (Hw & Hr & Hv).
    destruct (validateField_start field m) as [m1 o]. cbn [fst snd] in *.
    destruct (IH m1) as (Hr' & Hv' & Hall).
    destruct (startAll fields m1) as [m2 os]. cbn [fst snd] in *.
    rewrite Hr', Hv', Hr, Hv. repeat split.
    constructor; [exact Hw|].
    eapply Forall_impl; [exact Hall|]. intros [f o'] Ho. simpl in *.
    now rewrite <- (fieldRulesOf_ext f m m1 Hr Hv).
Qed.

Lemma driveAll_total settle :
  forall started m,
    Forall (fun fo => outcomeWithin
                        (List.length (fieldRulesOf (fst fo) m)) (snd fo))
      started ->
    exists m' results,
      driveAll settle started m = (m', map (fun e => Some (Normal e)) results)
      /\ rules m' = rules m /\ values m' = values m.
Proof.
  induction started as [|[field o] started IH]; intros m Hall.
  - exists m, []. repeat split.
  - inversion Hall as [|? ? Ho Hrest]; subst. cbn [driveAll]. simpl in Ho.
    destruct (drive_total settle (List.length (fieldRulesOf field m)) o m Ho)
      as (m1 & errs & -> & Hr & Hv).
    destruct (IH m1) as (m' & results & E & Hr' & Hv').
    { eapply Forall_impl; [exact Hrest|]. intros [f o'] Ho'. simpl in *.
      now rewrite (fieldRulesOf_ext f m m1 Hr Hv). }
    rewrite E. exists m', (errs :: results).
    rewrite Hr', Hv', Hr, Hv. repeat split.
Qed.

Lemma allEnded_fulfilled {A} (results : list A) :
  allEnded (map (fun e => Some (Normal e)) results)
  = Some (map Normal results).
Proof.
  induction results as [|e results IH]; simpl; [reflexivity|].
  now rewrite IH.
Qed.

Lemma promiseAll_fulfilled {A} (results : list A) :
  promiseAll (map Normal results) = Normal results.
Proof.
  induction results as [|e results IH]; simpl; [reflexivity|].
  now rewrite IH.
Qed.

(** [validateForm] reaches its end and its promise is fulfilled, whatever
    the rules do. *)
Lemma validateForm_run_total settle touched m :
  exists m' touched' valid,
    validateForm_run settle touched m = (m', touched', Some (Normal valid)).
Proof.
  unfold validateForm_run.
  destruct (validateForm_begin touched m) as [[m1 touched'] allFields].
  destruct (startAll_within allFields m1) as (_ & _ & Hall).
  destruct (startAll allFields m1) as [m2 started] eqn:Estart.
  cbn [fst snd] in Hall.
  destruct (driveAll_total settle started m2) as (m3 & results & -> & _).
  { pose proof (startAll_within allFields m1) as (Hr & Hv & _).
    rewrite Estart in Hr, Hv. cbn [fst] in Hr, Hv.
    eapply Forall_impl; [exact Hall|]. intros [f o] Ho. simpl in *.
    now rewrite (fieldRulesOf_ext f m1 m2 Hr Hv). }
  rewrite allEnded_fulfilled, promiseAll_fulfilled.
  destruct (validateForm_end allFields m3) as [m4 valid].
  now exists m4, touched', valid.
Qed.

(** C7: a rule of the chain that throws, or whose promise rejects, does
    not make [validateField] reject.  (1) Whatever the rules do, no step
    of a [validateField] invocation (its start, a resumption after an
    [await]) rejects the invocation's promise, and an invocation left to
    run ends with its promise fulfilled.  (2) When the rules before the faulting one pass, the
    faulting rule is the last one called, and the path gets, as its error
    list and as the value returned, the single message of the fault: the
    [message] of a thrown [Error], ['Validation error'] for anything else
    thrown.  (3) Consequently [validateForm] ends with its promise
    fulfilled, whatever the rules do. *)
Theorem rule_fault_is_contained (settle : Rule -> JsValue -> Settlement) :
  ((forall p m err, snd (validateField_start p m) <> Settled (Abrupt err))
   /\ (forall k s m err,
          snd (validateField_resume k s m) <> Settled (Abrupt err))
   /\ (forall p m, exists m' errs,
          validateField_run settle p m = (m', Some (Normal errs))))
  /\ (forall p m pre r post err,
         wfManager m -> cacheMiss p m ->
         fieldRulesOf p m = pre ++ r :: post ->
         Forall (fun x => ruleVerdict settle (currentValueOf p m) (values m) x
                          = Passes) pre ->
         ruleVerdict settle (currentValueOf p m) (values m) r = Faults err ->
         exists m',
           validateField_run settle p m
           = (m', Some (Normal [errorMessage err]))
           /\ errors m' !! p = Some [errorMessage err]
           /\ callLog m'
              = callLog m ++ map (fun x => (p, rule_id x)) (pre ++ [r])
           /\ (forall message, err = ThrownError message ->
                               errors m' !! p = Some [message]))
  /\ (forall touched m, exists m' touched' valid,
         validateForm_run settle touched m
         = (m', touched', Some (Normal valid))).
Proof.
  split; [|split].
  - split; [|split].
    + intros p m err E.
      destruct (validateField_start_within p m) as (Hw & _).
      rewrite E in Hw. exact Hw.
    + intros k s m err E.
      destruct (validateField_resume_within k s m) as (Hw & _).
      rewrite E in Hw. exact Hw.
    + intros p m.
      destruct (validateField_run_total settle p m) as (m' & errs & E & _).
      now exists m', errs.
  - intros p m pre r post err Hwf Hmiss Hchain Hpre Hfault.
    destruct (validateField_run_stops settle p m pre r post
                [errorMessage err])
      as (m' & E & He & _ & Hlog & _); try assumption.
    + now rewrite Hfault.
    + exists m'. repeat split; try assumption.
      intros message ->. exact He.
  - intros touched m. apply validateForm_run_total.
Qed.

(** ** The numbering of controllers is an invariant *)

Lemma wfManager_new vals errs validating next :
  wfManager (newManager vals errs validating next).
Proof. split; simpl; intros; [set_solver | simplify_map_eq]. Qed.

Lemma wfManager_ext m m' :
  abortedSignals m' = abortedSignals m ->
  abortControllers m' = abortControllers m ->
  nextController m' = nextController m ->
  wfManager m -> wfManager m'.
Proof. unfold wfManager. intros -> -> ->. auto. Qed.

Lemma wfManager_setRules r m : wfManager m -> wfManager (setRules r m).
Proof.
  apply wfManager_ext; unfold setRules, clearStaleErrors, getExpandedRules;
    reflexivity.
Qed.

Lemma wfManager_clearCache key m : wfManager m -> wfManager (clearCache key m).
Proof.
  apply wfManager_ext; unfold clearCache; destruct key as [key|];
    try destruct (truthy (JStr key)); reflexivity.
Qed.

Lemma wfManager_registerController p m :
  wfManager m -> wfManager (registerController p m).
Proof.
  intros [Hab Hctl]. unfold registerController. split.
  - intros c Hc. destruct (abortControllers m !! p) as [c0|] eqn:E;
      simpl in *.
    + apply elem_of_union in Hc as [Hc|Hc].
      * apply elem_of_singleton in Hc. subst c. apply Hctl in E. lia.
      * apply Hab in Hc. lia.
    + apply Hab in Hc. lia.
  - intros field c Hc.
    destruct (abortControllers m !! p) as [c0|] eqn:E; simpl in *;
      apply lookup_insert_Some in Hc as [[_ <-]|[_ Hc]];
      try lia; apply Hctl in Hc; lia.
Qed.

Lemma wfManager_shrink m m' :
  abortedSignals m' = abortedSignals m ->
  nextController m' = nextController m ->
  (forall field c, abortControllers m' !! field = Some c ->
                   abortControllers m !! field = Some c) ->
  wfManager m -> wfManager m'.
Proof.
  unfold wfManager. intros -> -> Hsub [Hab Hctl]. split; [exact Hab|].
  intros field c Hc. eapply Hctl, Hsub, Hc.
Qed.

Lemma wfManager_finallyBlock p c m :
  wfManager m -> wfManager (finallyBlock p c m).
Proof.
  unfold finallyBlock. case_bool_decide; [|auto].
  apply wfManager_shrink; try reflexivity. simpl.
  intros field c' Hc. now apply lookup_delete_Some in Hc as [_ Hc].
Qed.

Lemma wfManager_commit p c v errs m :
  wfManager m -> wfManager (fst (commit p c v errs m)).
Proof.
  intros Hwf. unfold commit. destruct (deepClone v (nextRef m)) as [snap n].
  cbn [fst]. apply wfManager_finallyBlock.
  revert Hwf. apply wfManager_ext; reflexivity.
Qed.

Lemma wfManager_runChain p c value :
  forall chain va m,
    wfManager m -> wfManager (fst (runChain p c value va chain m)).
Proof.
  induction chain as [|r chain IH]; intros va m Hwf.
  - cbn [runChain]. now apply wfManager_commit.
  - cbn [runChain].
    assert (Hwf1 : wfManager (set_callLog (callLog m ++ [(p, rule_id r)]) m))
      by (revert Hwf; apply wfManager_ext; reflexivity).
    destruct (tryCatch _ turnCatch) as [[|errs| |]|err]; cbn [fst].
    + now apply IH.
    + now apply wfManager_commit.
    + revert Hwf1. apply wfManager_ext; unfold markValidating;
        destruct va; reflexivity.
    + now apply wfManager_finallyBlock.
    + now apply wfManager_finallyBlock.
Qed.

Lemma wfManager_releaseController p c m :
  wfManager m -> wfManager (releaseController p c m).
Proof.
  unfold releaseController. case_bool_decide; [|auto].
  apply wfManager_shrink; try reflexivity. simpl.
  intros field c' Hc. now apply lookup_delete_Some in Hc as [_ Hc].
Qed.

Lemma wfManager_validateField_start p m :
  wfManager m -> wfManager (fst (validateField_start p m)).
Proof.
  intros Hwf. apply (wfManager_registerController p) in Hwf.
  unfold validateField_start.
  remember (registerController p m) as m2 eqn:Em2.
  assert (Hset : forall x, wfManager (set_errors x m2))
    by (intros x; revert Hwf; apply wfManager_ext; reflexivity).
  destruct (Nat.eqb _ 0); cbn [fst].
  - now apply wfManager_releaseController.
  - assert (Hmiss :
      wfManager
        (fst (if aborted (nextController m) m2
              then (finallyBlock p (nextController m) m2, Settled (Normal []))
              else runChain p (nextController m) (currentValueOf p m2) false
                     (fieldRulesOf p m2) m2))).
    { destruct (aborted (nextController m) m2); cbn [fst].
      - now apply wfManager_finallyBlock.
      - now apply wfManager_runChain. }
    destruct (validationCache m2 !! p) as [cached|]; [|exact Hmiss].
    destruct (deepEqual _ _); [|exact Hmiss].
    cbn [fst]. now apply wfManager_releaseController.
Qed.

Lemma wfManager_validateField_resume k s m :
  wfManager m -> wfManager (fst (validateField_resume k s m)).
Proof.
  intros Hwf. unfold validateField_resume.
  destruct (tryCatch _ turnCatch) as [[|errs| |]|err]; cbn [fst].
  - now apply wfManager_runChain.
  - now apply wfManager_commit.
  - now apply wfManager_finallyBlock.
  - now apply wfManager_finallyBlock.
  - now apply wfManager_finallyBlock.
Qed.

Lemma wfManager_sample : wfManager sampleManager.
Proof. apply wfManager_setRules, wfManager_new. Qed.

Lemma chain_stops_at_first_failure_witness :
  exists m',
    validateField_run sampleSettle "email" sampleManager
    = (m', Some (Normal ["Taken"]))
    /\ ["Taken"] <> []
    /\ errors m' !! "email" = Some ["Taken"]
    /\ callLog m' = [("email", 1); ("email", 2)].
Proof.
  apply (chain_stops_at_first_failure sampleSettle "email" sampleManager
           [required 1 "Email is required"] [throwingRule 3 "unreachable"]
           (remoteRule 2) ["Taken"]).
  - exact wfManager_sample.
  - vm_compute. exact I.
  - reflexivity.
  - repeat constructor.
  - reflexivity.
Defined.

Lemma rule_fault_is_contained_witness :
  exists m',
    validateField_run sampleSettle "phone" sampleManager
    = (m', Some (Normal ["boom"]))
    /\ errors m' !! "phone" = Some ["boom"]
    /\ callLog m' = [("phone", 5); ("phone", 6)]
    /\ (forall message, ThrownError "boom" = ThrownError message ->
                        errors m' !! "phone" = Some [message]).
Proof.
  destruct (rule_fault_is_contained sampleSettle) as (_ & Hfault & _).
  apply (Hfault "phone" sampleManager [required 5 "Phone is required"]
           (throwingRule 6 "boom") [required 7 "unreachable"]
           (ThrownError "boom")).
  - exact wfManager_sample.
  - vm_compute. exact I.
  - reflexivity.
  - repeat constructor.
  - reflexivity.
Defined.

(** ** The validation cache *)

(** A validation from a cache miss, left to run: the chain is executed as
    [chainSpec] says and its result is committed. *)
Lemma validateField_run_miss settle p m :
  wfManager m -> cacheMiss p m -> fieldRulesOf p m <> [] ->
  exists m',
    validateField_run settle p m
    = (m', Some (Normal (snd (chainSpec settle (currentValueOf p m) (values m)
                                (fieldRulesOf p m)))))
    /\ errors m' !! p
       = Some (snd (chainSpec settle (currentValueOf p m) (values m)
                      (fieldRulesOf p m)))
    /\ validationCache m' !! p =
       Some {| vc_value := fst (deepClone (currentValueOf p m) (nextRef m));
               vc_errors := snd (chainSpec settle (currentValueOf p m)
                                   (values m) (fieldRulesOf p m)) |}
    /\ callLog m' =
       callLog m ++ map (fun x => (p, rule_id x))
                      (fst (chainSpec settle (currentValueOf p m) (values m)
                              (fieldRulesOf p m)))
    /\ rules m' = rules m /\ values m' = values m.
Proof.
  intros Hwf Hmiss Hchain. unfold validateField_run.
  rewrite validateField_start_miss by assumption.
  pose proof (registerController_frame p m) as (Hv & Hr & Hl & Hn & _).
  cbv zeta in Hv, Hr, Hl, Hn.
  destruct (drive_runChain_spec settle p (nextController m)
              (currentValueOf p m) (fieldRulesOf p m)
              (registerController p m) false
              (List.length (fieldRulesOf p m)))
    as (m' & E & He & Hc & Hlog & Hrules & Hvals).
  - now apply registerController_fresh.
  - lia.
  - exists m'.
    destruct (runChain p (nextController m) (currentValueOf p m) false
                (fieldRulesOf p m) (registerController p m)) as [m1 o].
    cbn [fst snd] in E. rewrite Hv in *. rewrite E.
    rewrite Hc, Hlog, Hrules, Hvals, Hn, Hl, Hr.
    repeat split; assumption.
Qed.

(** A validation that finds a matching cache entry runs no rule. *)
Lemma validateField_start_hit p m cached :
  fieldRulesOf p m <> [] ->
  validationCache m !! p = Some cached ->
  deepEqual (vc_value cached) (currentValueOf p m) = true ->
  exists m',
    validateField_start p m = (m', Settled (Normal (vc_errors cached)))
    /\ callLog m' = callLog m
    /\ errors m' !! p = Some (vc_errors cached)
    /\ validationCache m' = validationCache m
    /\ rules m' = rules m /\ values m' = values m.
Proof.
  intros Hchain Hcached Heq. unfold validateField_start.
  pose proof (registerController_frame p m)
    as (Hv & Hr & Hl & _ & _ & Hc & _).
  cbv zeta in Hv, Hr, Hl, Hc.
  rewrite (fieldRulesOf_ext p m _ Hr Hv), (currentValueOf_ext p m _ Hv), Hc.
  destruct (fieldRulesOf p m) as [|r0 chain]; [congruence|].
  cbn [List.length Nat.eqb]. rewrite Hcached, Heq.
  eexists. split; [reflexivity|].
  unfold releaseController. case_bool_decide; simpl;
    rewrite lookup_insert_eq; repeat split; assumption.
Qed.

Lemma clearCache_frame key m :
  let m' := clearCache key m in
  rules m' = rules m /\ values m' = values m /\ callLog m' = callLog m
  /\ errors m' = errors m /\ nextRef m' = nextRef m.
Proof.
  unfold clearCache. destruct key as [key|];
    try destruct (truthy (JStr key)); simpl; repeat split.
Qed.

(** [clearCache(key)] drops the entry of the key and of every path that
    extends the key by a dot. *)
Lemma clearCache_drops key m q :
  q = key \/ Str.startsWith q (key ++ ".") = true ->
  validationCache (clearCache (Some key) m) !! q = None.
Proof.
  intros Hq. unfold clearCache.
  destruct (truthy (JStr key)); simpl; [|apply lookup_empty].
  apply map_lookup_filter_None. destruct Hq as [->|Hq].
  - left. apply lookup_delete_eq.
  - right. intros x _. simpl. congruence.
Qed.

(** ... and no other entry. *)
Lemma clearCache_keeps key m q :
  key <> "" -> q <> key -> Str.startsWith q (key ++ ".") = false ->
  validationCache (clearCache (Some key) m) !! q = validationCache m !! q.
Proof.
  intros Hkey Hq Hpre. unfold clearCache.
  assert (Ht : truthy (JStr key) = true).
  { simpl. destruct (String.eqb_spec key ""); [contradiction|reflexivity]. }
  rewrite Ht. simpl.
  destruct (validationCache m !! q) as [x|] eqn:E.
  - apply map_lookup_filter_Some. split; [|exact Hpre].
    now rewrite lookup_delete_ne.
  - apply map_lookup_filter_None. left. now rewrite lookup_delete_ne.
Qed.

Lemma chainSpec_nonempty settle value allValues chain :
  chain <> [] -> fst (chainSpec settle value allValues chain) <> [].
Proof.
  destruct chain as [|r chain]; [congruence|]. intros _. cbn [chainSpec].
  destruct (stopErrors _); [discriminate|].
  now destruct (chainSpec settle value allValues chain).
Qed.

(** C2: [validateField] on a path that has a rule chain, called from a
    well-formed state and left to run, leaves a cache entry holding the
    errors it returned.  As long as that entry is in the cache (no
    invalidation) and its snapshot deep-equals the path's current value, a
    further call returns the stored errors, writes them to the error
    store, and calls no rule.  [clearCache(p)] removes the entry of [p]
    and of every path that extends [p] by a dot; the next call then runs
    the chain again from its first rule, as an uncached validation does. *)
Theorem cache_hit_until_invalidated
  (settle : Rule -> JsValue -> Settlement) (p : string)
  (m : ValidationManager) :
  wfManager m -> fieldRulesOf p m <> [] ->
  exists m1 errs1 cached,
    validateField_run settle p m = (m1, Some (Normal errs1))
    /\ validationCache m1 !! p = Some cached
    /\ vc_errors cached = errs1
    /\ (forall m2,
           validationCache m2 !! p = Some cached ->
           fieldRulesOf p m2 <> [] ->
           deepEqual (vc_value cached) (currentValueOf p m2) = true ->
           exists m2',
             validateField_start p m2 = (m2', Settled (Normal errs1))
             /\ callLog m2' = callLog m2
             /\ errors m2' !! p = Some errs1)
    /\ (forall m2,
           wfManager m2 -> fieldRulesOf p m2 <> [] ->
           let m3 := clearCache (Some p) m2 in
           let run := fst (chainSpec settle (currentValueOf p m2) (values m2)
                             (fieldRulesOf p m2)) in
           validationCache m3 !! p = None
           /\ (forall q, Str.startsWith q (p ++ ".") = true ->
                         validationCache m3 !! q = None)
           /\ run <> []
           /\ exists m4 errs,
               validateField_run settle p m3 = (m4, Some (Normal errs))
               /\ callLog m4
                  = callLog m2 ++ map (fun x => (p, rule_id x)) run).
Proof.
  intros Hwf Hchain.
  assert (Hsecond : forall cached m2,
             validationCache m2 !! p = Some cached ->
             fieldRulesOf p m2 <> [] ->
             deepEqual (vc_value cached) (currentValueOf p m2) = true ->
             exists m2',
               validateField_start p m2
               = (m2', Settled (Normal (vc_errors cached)))
               /\ callLog m2' = callLog m2
               /\ errors m2' !! p = Some (vc_errors cached)).
  { intros cached m2 Hc Hr Heq.
    destruct (validateField_start_hit p m2 cached Hr Hc Heq)
      as (m2' & E & Hl & He & _).
    now exists m2'. }
  assert (Hthird : forall m2,
             wfManager m2 -> fieldRulesOf p m2 <> [] ->
             let m3 := clearCache (Some p) m2 in
             let run := fst (chainSpec settle (currentValueOf p m2) (values m2)
                               (fieldRulesOf p m2)) in
             validationCache m3 !! p = None
             /\ (forall q, Str.startsWith q (p ++ ".") = true ->
                           validationCache m3 !! q = None)
             /\ run <> []
             /\ exists m4 errs,
                 validateField_run settle p m3 = (m4, Some (Normal errs))
                 /\ callLog m4
                    = callLog m2 ++ map (fun x => (p, rule_id x)) run).
  { intros m2 Hwf2 Hr2 m3 run.
    pose proof (clearCache_frame (Some p) m2) as (Hr & Hv & Hl & _).
    cbv zeta in Hr, Hv, Hl. fold m3 in Hr, Hv, Hl.
    assert (Hnone : validationCache m3 !! p = None)
      by (apply clearCache_drops; now left).
    split; [exact Hnone|]. split.
    { intros q Hq. apply clearCache_drops. now right. }
    split; [now apply chainSpec_nonempty|].
    destruct (validateField_run_miss settle p m3)
      as (m4 & E & _ & _ & Hlog & _).
    - now apply wfManager_clearCache.
    - unfold cacheMiss. now rewrite Hnone.
    - now rewrite (fieldRulesOf_ext p m2 m3 Hr Hv).
    - exists m4. eexists. split; [exact E|].
      rewrite Hlog, Hl, (currentValueOf_ext p m2 m3 Hv), Hv,
        (fieldRulesOf_ext p m2 m3 Hr Hv).
      reflexivity. }
  destruct (validationCache m !! p) as [cached0|] eqn:Ecache.
  - destruct (deepEqual (vc_value cached0) (currentValueOf p m)) eqn:Eeq.
    + (* the first call is itself a hit *)
      destruct (validateField_start_hit p m cached0 Hchain Ecache Eeq)
        as (m1 & E & _ & _ & Hc & _).
      exists m1, (vc_errors cached0), cached0.
      unfold validateField_run. rewrite E, drive_settled, Hc.
      split; [reflexivity|]. split; [exact Ecache|].
      split; [reflexivity|]. split; [|exact Hthird].
      intros m2. apply (Hsecond _ m2).
    + destruct (validateField_run_miss settle p m)
        as (m1 & E & _ & Hc & _); try assumption.
      { unfold cacheMiss. now rewrite Ecache. }
      exists m1. eexists. eexists. split; [exact E|]. split; [exact Hc|].
      split; [reflexivity|]. split; [|exact Hthird].
      intros m2 H1 H2 H3. exact (Hsecond _ m2 H1 H2 H3).
  - destruct (validateField_run_miss settle p m)
      as (m1 & E & _ & Hc & _); try assumption.
    { unfold cacheMiss. now rewrite Ecache. }
    exists m1. eexists. eexists. split; [exact E|]. split; [exact Hc|].
    split; [reflexivity|]. split; [|exact Hthird].
    intros m2 H1 H2 H3. exact (Hsecond _ m2 H1 H2 H3).
Qed.

(** ** The dependency graph and the cascade *)






















(** One hop only: [a] reads [b] and [b] reads [c], and a change of [c]
    reaches [b] but not [a]. *)
Lemma dependents_not_transitive :
  getDependentFields "c" sampleDependencyManager = ["b"]
  /\ getDependentFields "b" sampleDependencyManager = ["a"].
Proof. split; reflexivity. Qed.


(** ** Whole-form validity *)

Lemma existsb_snd_map_to_list (validating : gmap string bool) :
  existsb snd (map_to_list validating) = false <->
  forall k b, validating !! k = Some b -> b = false.
Proof.
  split.
  - intros H k b Hk. destruct b; [|reflexivity].
    apply elem_of_map_to_list, list_elem_of_In in Hk.
    assert (E : existsb snd (map_to_list validating) = true)
      by (apply existsb_exists; now exists (k, true)).
    congruence.
  - intros H. destruct (existsb snd (map_to_list validating)) eqn:E;
      [|reflexivity].
    apply existsb_exists in E as ([k b] & Hin & Hb). simpl in Hb. subst b.
    apply list_elem_of_In, elem_of_map_to_list in Hin.
    now apply H in Hin.
Qed.



(** What [validateForm] answers is plainer: no error list is left
    non-empty after the sweep, conditionally inactive or not. *)
Lemma validateForm_end_iff allFields m :
  snd (validateForm_end allFields m) = true <->
  forall k e, errors (fst (validateForm_end allFields m)) !! k = Some e ->
              e = [].
Proof.
  unfold validateForm_end. cbn [fst snd errors set_errors].
  rewrite forallb_forall. split.
  - intros H k e Hk. apply elem_of_map_to_list, list_elem_of_In in Hk.
    specialize (H (k, e) Hk). simpl in H. apply Nat.eqb_eq in H.
    now destruct e.
  - intros H [k e] Hin. simpl.
    apply list_elem_of_In, elem_of_map_to_list in Hin.
    now rewrite (H k e Hin).
Qed.

(** The flag never rises for the [requiredIf] of rules/advanced.ts: the
    rule is an [async] function, its call returns a promise, and
    [isConditionallyInactive] answers [false] on a promise. *)
Lemma requiredIf_never_flagged id conditionField conditionValue msg testValues :
  inactiveByRules [requiredIf id conditionField conditionValue msg] testValues
  = false.
Proof. reflexivity. Qed.

(** So a stale error of a [requiredIf] field whose condition is false does
    make the form invalid. *)
Lemma requiredIf_stale_error_counts :
  requiredIf_result "type" (JStr "business") "Company needed" (JStr "")
    sampleConditionalValues = JNull
  /\ isValid sampleConditionalRules sampleConditionalValues 0
       {[ "company" := ["Company needed"] ]} ∅ = false.
Proof. split; reflexivity. Qed.

Lemma cache_hit_until_invalidated_witness :
  exists m1 errs1 cached,
    validateField_run sampleSettle "email" sampleManager
    = (m1, Some (Normal errs1))
    /\ validationCache m1 !! "email" = Some cached
    /\ vc_errors cached = errs1.
Proof.
  destruct (cache_hit_until_invalidated sampleSettle "email" sampleManager)
    as (m1 & errs1 & cached & Hrun & Hcache & Herrs & _).
  - exact wfManager_sample.
  - vm_compute. discriminate.
  - now exists m1, errs1, cached.
Defined.

(** ** Snapshots and the cache *)



(** ** Cancellation *)

(** A new invocation for a path aborts the controller the path had. *)
Lemma validateField_start_supersedes p c m :
  wfManager m -> abortControllers m !! p = Some c ->
  aborted c (fst (validateField_start p m)) = true
  /\ abortControllers (fst (validateField_start p m)) !! p <> Some c.
Proof.
  intros Hwf Hc.
  assert (Hlt : c < nextController m) by (destruct Hwf as [_ H]; eauto).
  assert (Hab : forall m', abortedSignals m' = abortedSignals (registerController p m) ->
                           aborted c m' = true).
  { intros m' E. pose proof (registerController_aborts p c m Hc) as H.
    unfold aborted in *. now rewrite E. }
  assert (Hreg : abortControllers (registerController p m) !! p
                 = Some (nextController m))
    by apply registerController_frame.
  unfold validateField_start.
  remember (registerController p m) as m2 eqn:Em2.
  assert (Hrelease : forall x,
    aborted c (releaseController p (nextController m)
                 (set_errors x m2)) = true
    /\ abortControllers (releaseController p (nextController m)
                           (set_errors x m2)) !! p <> Some c).
  { intros x. unfold releaseController. case_bool_decide; simpl.
    - split; [now apply Hab|]. now rewrite lookup_delete_eq.
    - split; [now apply Hab|]. rewrite Hreg. intros E. injection E. lia. }
  assert (Hfinal : forall m',
    abortedSignals m' = abortedSignals m2 ->
    abortControllers m' = abortControllers m2 ->
    aborted c (finallyBlock p (nextController m) m') = true
    /\ abortControllers (finallyBlock p (nextController m) m') !! p <> Some c).
  { intros m' Ea Ec. unfold finallyBlock. case_bool_decide; simpl.
    - split; [now apply Hab|]. now rewrite lookup_delete_eq.
    - split; [now apply Hab|]. rewrite Ec, Hreg. intros E. injection E. lia. }
  assert (Hcommit : forall v errs m',
    abortedSignals m' = abortedSignals m2 ->
    abortControllers m' = abortControllers m2 ->
    aborted c (fst (commit p (nextController m) v errs m')) = true
    /\ abortControllers (fst (commit p (nextController m) v errs m')) !! p
       <> Some c).
  { intros v errs m' Ea Ec. unfold commit.
    destruct (deepClone v (nextRef m')) as [snap n]. cbn [fst].
    apply Hfinal; assumption. }
  assert (Hchain : forall chain va value m',
    abortedSignals m' = abortedSignals m2 ->
    abortControllers m' = abortControllers m2 ->
    aborted c (fst (runChain p (nextController m) value va chain m')) = true
    /\ abortControllers
         (fst (runChain p (nextController m) value va chain m')) !! p
       <> Some c).
  { induction chain as [|r chain IH]; intros va value m' Ea Ec.
    - cbn [runChain]. now apply Hcommit.
    - cbn [runChain].
      destruct (tryCatch _ turnCatch) as [[|errs| |]|err]; cbn [fst].
      + now apply IH.
      + now apply Hcommit.
      + pose proof (markValidating_frame p va
                      (set_callLog (callLog m' ++ [(p, rule_id r)]) m'))
          as (Ea' & _ & _ & _ & _ & _ & _ & Ec').
        cbv zeta in Ea', Ec'. split.
        * apply Hab. now rewrite Ea'.
        * rewrite Ec'. simpl. rewrite Ec, Hreg. intros E. injection E. lia.
      + now apply Hfinal.
      + now apply Hfinal. }
  destruct (Nat.eqb _ 0); cbn [fst]; [apply Hrelease|].
  assert (Hmiss :
    aborted c
      (fst (if aborted (nextController m) m2
            then (finallyBlock p (nextController m) m2, Settled (Normal []))
            else runChain p (nextController m) (currentValueOf p m2) false
                   (fieldRulesOf p m2) m2)) = true
    /\ abortControllers
         (fst (if aborted (nextController m) m2
               then (finallyBlock p (nextController m) m2, Settled (Normal []))
               else runChain p (nextController m) (currentValueOf p m2) false
                      (fieldRulesOf p m2) m2)) !! p <> Some c).
  { destruct (aborted (nextController m) m2); cbn [fst];
      [now apply Hfinal | now apply Hchain]. }
  destruct (validationCache m2 !! p) as [cached|]; [|exact Hmiss].
  destruct (deepEqual _ _); [|exact Hmiss].
  cbn [fst]. apply Hrelease.
Qed.

(** A superseded invocation whose awaited result is fulfilled commits
    nothing: the state is left as it is and the invocation returns the
    empty list. *)
Lemma superseded_fulfilled_discarded k result m :
  aborted (s_controller k) m = true ->
  abortControllers m !! s_field k <> Some (s_controller k) ->
  validateField_resume k (Fulfilled result) m = (m, Settled (Normal [])).
Proof.
  intros Hab Hctl. unfold validateField_resume. rewrite Hab.
  cbn [tryCatch]. unfold finallyBlock.
  now rewrite bool_decide_eq_false_2.
Qed.

(** A resumption by a rejection does not look at the cancellation: in any
    state, aborted or not, it commits the message of the rejection for the
    path and returns it. *)
Lemma rejected_resumption_commits k err m :
  snd (validateField_resume k (Rejected err) m)
  = Settled (Normal [errorMessage err])
  /\ errors (fst (validateField_resume k (Rejected err) m)) !! s_field k
     = Some [errorMessage err]
  /\ vc_errors <$>
       validationCache (fst (validateField_resume k (Rejected err) m))
         !! s_field k
     = Some [errorMessage err].
Proof.
  unfold validateField_resume. cbn [tryCatch turnCatch].
  destruct (commit_result (s_field k) (s_controller k) (s_value k)
              [errorMessage err] m) as (m' & -> & He & Hc & _).
  cbn [fst snd]. rewrite He, Hc. repeat split.
Qed.

(** C1 fails when the awaited result is a rejection.  Two invocations for
    [username] are started one after the other and both wait for the
    remote check; the second aborts the first.  The second is resumed with
    a check that passes and commits the empty error list.  The first is
    then resumed with a rejection (the request failed): though its
    controller is aborted, it writes its error to the error store and to
    the cache, over what the later invocation committed, and returns it. *)
Theorem superseded_rejection_is_committed :
  snd (validateField_start "username" sampleRemoteManager)
  = Suspends firstInvocation
  /\ snd (validateField_start "username"
            (fst (validateField_start "username" sampleRemoteManager)))
     = Suspends secondInvocation
  /\ aborted (s_controller firstInvocation) afterSecondCommitted = true
  /\ errors afterSecondCommitted !! "username" = Some []
  /\ snd (validateField_resume firstInvocation
            (Rejected (ThrownError "Network error")) afterSecondCommitted)
     = Settled (Normal ["Network error"])
  /\ errors (fst (validateField_resume firstInvocation
                    (Rejected (ThrownError "Network error"))
                    afterSecondCommitted)) !! "username"
     = Some ["Network error"]
  /\ vc_errors <$>
       validationCache (fst (validateField_resume firstInvocation
                               (Rejected (ThrownError "Network error"))
                               afterSecondCommitted)) !! "username"
     = Some ["Network error"]
  /\ validateField_resume firstInvocation (Fulfilled (JStr "Taken"))
       afterSecondCommitted
     = (afterSecondCommitted, Settled (Normal [])).
Proof.
  repeat split; vm_compute; reflexivity.
Qed.

(** ** Touched marking *)

Lemma fold_mark_touched (fields : list string) :
  forall (t : gmap string bool) f,
    fold_left (fun acc field => <[field := true]> acc) fields t !! f
    = if bool_decide (f ∈ fields) then Some true else t !! f.
Proof.
  induction fields as [|x fields IH]; intros t f; cbn [fold_left].
  - rewrite bool_decide_eq_false_2; [reflexivity|]. apply not_elem_of_nil.
  - rewrite IH. destruct (decide (f ∈ fields)) as [Hin|Hnin].
    + rewrite !bool_decide_eq_true_2; [reflexivity | | assumption].
      apply elem_of_cons. now right.
    + rewrite (bool_decide_eq_false_2 _ Hnin).
      destruct (decide (x = f)) as [->|Hne].
      * rewrite lookup_insert_eq.
        rewrite bool_decide_eq_true_2; [reflexivity|].
        apply elem_of_cons. now left.
      * rewrite lookup_insert_ne by assumption.
        rewrite bool_decide_eq_false_2; [reflexivity|].
        intros H. apply elem_of_cons in H as [H|H]; [congruence|contradiction].
Qed.

(** The manager's [validateForm], when it is handed the [touched] record,
    marks every path of the recomputed expansion, nested ones included. *)
Lemma validateForm_begin_marks t m f :
  In f (keys (expandWildcardPaths (rules m) (values m))) ->
  exists t',
    snd (fst (validateForm_begin (Some t) m)) = Some t'
    /\ t' !! f = Some true.
Proof.
  intros Hin. unfold validateForm_begin, getExpandedRules,
                invalidateExpandedRulesCache.
  cbn [expandedRulesCache set_expandedRulesCache rules values fst snd].
  eexists. split; [reflexivity|].
  rewrite fold_mark_touched. rewrite bool_decide_eq_true_2; [reflexivity|].
  now apply list_elem_of_In.
Qed.

(** C9 fails at the form's [validateForm]: it marks the top-level keys of
    the values and calls the manager's [validateForm] without the
    [touched] record, so that the nested path [contacts.0.email], which is
    in the expansion and gets validated, is not marked as touched. *)
Theorem form_validateForm_leaves_nested_untouched :
  In "contacts.0.email"
    (keys (expandWildcardPaths
             (rules (validationManager sampleFormInstance))
             (values (validationManager sampleFormInstance))))
  /\ touched (fst (form_validateForm sampleSettle sampleFormInstance))
       !! "contacts.0.email" = None
  /\ touched (fst (form_validateForm sampleSettle sampleFormInstance))
       !! "contacts" = Some true
  /\ errors (validationManager
               (fst (form_validateForm sampleSettle sampleFormInstance)))
       !! "contacts.0.email" = Some ["Contact email is required"].
Proof.
  split; [|split; [|split]].
  - vm_compute. right. right. now left.
  - vm_compute. reflexivity.
  - vm_compute. reflexivity.
  - vm_compute. reflexivity.
Qed.

(** ** The debounce adapter *)

(** When no checker execution is in flight, a call rejects the pending
    promise of the call it supersedes and disarms its timer. *)
Lemma call_supersedes_pending args st t p :
  Debounce.timeoutId st = Some t ->
  Debounce.pendingReject st = Some p ->
  Debounce.promises st !! p = Some Debounce.Pending ->
  p < Debounce.nextId st -> t <= Debounce.nextId st ->
  Debounce.promises (fst (Debounce.call args st)) !! p
  = Some (Debounce.RejectedWith Debounce.Superseded)
  /\ Debounce.armed t (fst (Debounce.call args st)) = false.
Proof.
  intros Ht Hp Hpending Hlt Hle. unfold Debounce.call. rewrite Ht, Hp.
  cbn [fst Debounce.promises Debounce.timers]. split.
  - rewrite lookup_insert_ne by lia.
    unfold Debounce.settlePromise. rewrite Hpending.
    apply lookup_insert_eq.
  - unfold Debounce.armed. cbn [Debounce.timers].
    rewrite existsb_app. cbn [existsb Debounce.t_id].
    assert (E : Nat.eqb (S (Debounce.nextId st)) t = false)
      by (apply Nat.eqb_neq; lia).
    rewrite E, !orb_false_r.
    unfold Debounce.clearTimeout.
    induction (Debounce.timers st) as [|x ts IH]; [reflexivity|].
    cbn [List.filter].
    destruct (Nat.eqb (Debounce.t_id x) t) eqn:Ex; cbn [negb]; [exact IH|].
    cbn [existsb]. now rewrite Ex, IH.
Qed.

(** C8 fails when a call arrives while the checker runs.  Call 1 is made
    and its timer fires; call 2 arrives while the checker is still
    running; the checker's result then settles call 1 and [finally] resets
    [timeoutId], which by now holds the timer of call 2; call 3 supersedes
    call 2.  The promise of call 2 is rejected as superseded, but its timer
    stays armed; when it fires the checker is executed for the superseded
    call, and the handle by which call 3 could be rejected is dropped. *)
Theorem debounce_superseded_timer_survives :
  let st :=
    Debounce.run
      [Debounce.Call (JStr "a"); Debounce.Fire 2; Debounce.Call (JStr "ab");
       Debounce.CheckerSettles 1 (Fulfilled (JBool true));
       Debounce.Call (JStr "abc")] in
  Debounce.promises st !! 3
  = Some (Debounce.RejectedWith Debounce.Superseded)
  /\ Debounce.armed 4 st = true
  /\ Debounce.checkerCalls (Debounce.step st (Debounce.Fire 4))
     = [JStr "a"; JStr "ab"]
  /\ Debounce.promises (Debounce.step st (Debounce.Fire 4)) !! 5
     = Some Debounce.Pending
  /\ Debounce.pendingReject (Debounce.step st (Debounce.Fire 4)) = None.
Proof. repeat split; vm_compute; reflexivity. Qed.

(** ** utils/helpers.ts: [setNestedValue] *)

(** ** forms/core.ts: path builders *)

(** ** forms/core.ts and rules/builders.ts: rule inputs and rule chains *)

(** ** validation/state.ts: [FormStateManager] *)

(** ** forms/core.ts: the array helpers of the form *)

(** ** Regular expressions: [/^r$/.test(s)] *)

(** ** rules: messages and the rule factories *)

(** ** The manager: results, rule replacement, disposal *)

Lemma resolveValidationResult_items (items : list JsValue) :
  Forall (fun message : string => message <> "")
    (flat_map
       (fun r => match r with
                 | JStr s => if Nat.ltb 0 (String.length s) then [s] else []
                 | _ => []
                 end) items).
Proof.
  induction items as [|x items IH]; cbn [flat_map]; [constructor|].
  apply Forall_app. split; [|exact IH].
  destruct x; try constructor.
  destruct s as [|c s]; cbn; repeat constructor. discriminate.
Qed.

(** X1: [resolveValidationResult] never hands an empty message on.  A
    non-empty string is the one error of the field; an array contributes
    its non-empty strings, in order, and nothing else; every other value,
    the empty string included, means no error. *)
Theorem resolveValidationResult_messages :
  (forall result,
      Forall (fun message : string => message <> "")
        (resolveValidationResult result))
  /\ (forall s, resolveValidationResult (JStr s) = if String.eqb s "" then [] else [s])
  /\ (forall r (messages : list string),
         resolveValidationResult (JArr r (map JStr messages))
         = List.filter (fun s => negb (String.eqb s "")) messages)
  /\ (forall result,
         isArray result = false -> typeof result <> TString ->
         resolveValidationResult result = []).
Proof.
  split; [|split; [|split]].
  - intros result. unfold resolveValidationResult.
    destruct (truthy result) eqn:T; cbn [negb]; [|constructor].
    destruct result; cbn iota; try constructor.
    + intros ->. discriminate T.
    + constructor.
    + apply resolveValidationResult_items.
  - intros s. unfold resolveValidationResult. cbn [truthy].
    destruct (String.eqb s ""); reflexivity.
  - intros r messages. unfold resolveValidationResult. cbn [truthy negb].
    induction messages as [|s messages IH]; [reflexivity|].
    cbn [map flat_map List.filter]. rewrite IH.
    destruct s as [|c s]; reflexivity.
  - intros result Harr Hstr. unfold resolveValidationResult.
    destruct (truthy result); cbn [negb]; [|reflexivity].
    destruct result; try reflexivity; [now contradiction Hstr | discriminate Harr].
Qed.

Lemma setRules_frame r m :
  let m' := setRules r m in
  rules m' = r /\ values m' = values m
  /\ validationCache m' = validationCache m /\ callLog m' = callLog m
  /\ abortControllers m' = abortControllers m
  /\ isValidating m' = isValidating m.
Proof.
  unfold setRules, clearStaleErrors, getExpandedRules. simpl. repeat split.
Qed.

(** X2: [setRules] leaves the validation cache alone.  A path validated
    under the old rules whose value has not changed is answered from the
    cache under the new rules: the stored errors are returned and written
    to the error store, and none of the new rules is called. *)
Theorem setRules_keeps_cached_verdict r m p cached :
  validationCache m !! p = Some cached ->
  deepEqual (vc_value cached) (currentValueOf p m) = true ->
  fieldRulesOf p (setRules r m) <> [] ->
  exists m',
    validateField_start p (setRules r m)
    = (m', Settled (Normal (vc_errors cached)))
    /\ errors m' !! p = Some (vc_errors cached)
    /\ callLog m' = callLog m.
Proof.
  intros Hcached Heq Hrules.
  pose proof (setRules_frame r m) as (_ & Hv & Hc & Hl & _).
  cbv zeta in Hv, Hc, Hl.
  destruct (validateField_start_hit p (setRules r m) cached)
    as (m' & E & Hlog & He & _).
  - exact Hrules.
  - now rewrite Hc.
  - now rewrite (currentValueOf_ext p m _ Hv).
  - exists m'. rewrite Hlog, Hl. repeat split; assumption.
Qed.

Lemma dispose_frame m :
  validationCache (dispose m) = ∅ /\ abortControllers (dispose m) = ∅
  /\ errors (dispose m) = errors m /\ isValidating (dispose m) = isValidating m
  /\ rules (dispose m) = rules m /\ values (dispose m) = values m.
Proof. unfold dispose, clearCache. simpl. repeat split. Qed.

Lemma dispose_aborts m field c :
  abortControllers m !! field = Some c -> aborted c (dispose m) = true.
Proof.
  intros E. unfold aborted, dispose, clearCache. simpl.
  apply bool_decide_eq_true. apply elem_of_union_l, elem_of_list_to_set.
  apply list_elem_of_In, in_map_iff. exists (field, c). split; [reflexivity|].
  apply list_elem_of_In, elem_of_map_to_list. exact E.
Qed.

(** X3: [dispose] cancels what is in flight.  Afterwards the cache and the
    controller map are empty, and an invocation that was registered when
    [dispose] ran, once its awaited result is fulfilled, returns the empty
    list and changes nothing: no error, no cache entry, no flag. *)
Theorem dispose_discards_pending m k result :
  abortControllers m !! s_field k = Some (s_controller k) ->
  validationCache (dispose m) = ∅
  /\ abortControllers (dispose m) = ∅
  /\ validateField_resume k (Fulfilled result) (dispose m)
     = (dispose m, Settled (Normal [])).
Proof.
  intros Hreg. pose proof (dispose_frame m) as (Hc & Ha & _).
  split; [exact Hc|]. split; [exact Ha|].
  apply superseded_fulfilled_discarded.
  - now apply (dispose_aborts m (s_field k)).
  - rewrite Ha, lookup_empty. discriminate.
Qed.

Lemma forgetController_frame acc key :
  validationCache (forgetController acc key) = validationCache acc
  /\ errors (forgetController acc key) = errors acc
  /\ expandedRulesCache (forgetController acc key) = expandedRulesCache acc
  /\ abortedSignals acc ⊆ abortedSignals (forgetController acc key)
  /\ abortControllers (forgetController acc key)
     = delete key (abortControllers acc).
Proof.
  unfold forgetController.
  destruct (abortControllers acc !! key) as [c|] eqn:E; simpl.
  - split; [reflexivity|]. split; [reflexivity|]. split; [reflexivity|].
    split; [|reflexivity]. intros x Hx. now apply elem_of_union_r.
  - split; [reflexivity|]. split; [reflexivity|]. split; [reflexivity|].
    split; [reflexivity | now rewrite delete_id].
Qed.

Lemma fold_forgetController_frame keys :
  forall acc,
    let acc' := fold_left forgetController keys acc in
    validationCache acc' = validationCache acc
    /\ errors acc' = errors acc
    /\ expandedRulesCache acc' = expandedRulesCache acc
    /\ abortedSignals acc ⊆ abortedSignals acc'
    /\ forall q, abortControllers acc' !! q
                 = if bool_decide (q ∈ keys) then None
                   else abortControllers acc !! q.
Proof.
  induction keys as [|key keys IH]; intros acc; cbn [fold_left].
  - cbv zeta. split; [reflexivity|]. split; [reflexivity|].
    split; [reflexivity|]. split; [reflexivity|]. intros q.
    rewrite bool_decide_eq_false_2; [reflexivity | apply not_elem_of_nil].
  - destruct (forgetController_frame acc key) as (Hc & He & Hx & Hs & Ha).
    destruct (IH (forgetController acc key)) as (Hc' & He' & Hx' & Hs' & Ha').
    cbv zeta. rewrite Hc', He', Hx'.
    split; [assumption|]. split; [assumption|]. split; [assumption|]. split.
    + intros c Hin. apply Hs', Hs, Hin.
    + intros q. rewrite Ha', Ha. destruct (decide (q = key)) as [->|Hne].
      * rewrite lookup_delete_eq.
        rewrite (bool_decide_eq_true_2 (key ∈ key :: keys))
          by apply list_elem_of_here.
        now destruct (bool_decide (key ∈ keys)).
      * rewrite lookup_delete_ne by congruence.
        assert (Hiff : q ∈ key :: keys <-> q ∈ keys).
        { rewrite elem_of_cons. tauto. }
        now rewrite (bool_decide_ext _ _ Hiff).
Qed.

Lemma fold_forgetController_aborts keys :
  forall acc q c,
    q ∈ keys -> abortControllers acc !! q = Some c ->
    c ∈ abortedSignals (fold_left forgetController keys acc).
Proof.
  induction keys as [|key keys IH]; intros acc q c Hin Hc.
  - now apply not_elem_of_nil in Hin.
  - cbn [fold_left]. destruct (decide (q = key)) as [->|Hne].
    + destruct (fold_forgetController_frame keys (forgetController acc key))
        as (_ & _ & _ & Hs & _).
      apply Hs. unfold forgetController. rewrite Hc. simpl.
      apply elem_of_union_l, elem_of_singleton. reflexivity.
    + apply (IH _ q).
      * apply elem_of_cons in Hin as [E|Hin]; [contradiction | exact Hin].
      * destruct (forgetController_frame acc key) as (_ & _ & _ & _ & ->).
        now rewrite lookup_delete_ne.
Qed.

Lemma clearArrayCache_unfold arrayPath m :
  clearArrayCache arrayPath m
  = fold_left forgetController
      (List.filter (fun key => Str.startsWith key (arrayPath ++ "."))
         (map fst (map_to_list (validationCache m))))
      (set_errors
         (filter (fun kv => Str.startsWith (fst kv) (arrayPath ++ ".") = false
                            \/ validationCache m !! fst kv = None)
            (errors m))
         (set_validationCache
            (filter (fun kv => Str.startsWith (fst kv) (arrayPath ++ ".") = false)
               (validationCache m))
            (invalidateExpandedRulesCache m))).
Proof. reflexivity. Qed.

Lemma doomed_keys arrayPath m q :
  q ∈ List.filter (fun key => Str.startsWith key (arrayPath ++ "."))
        (map fst (map_to_list (validationCache m)))
  <-> Str.startsWith q (arrayPath ++ ".") = true
      /\ is_Some (validationCache m !! q).
Proof.
  rewrite list_elem_of_In, filter_In, <- list_elem_of_In.
  rewrite list_elem_of_fmap. split.
  - intros [((k & x) & -> & Hin) Hpre]. split; [exact Hpre|].
    apply elem_of_map_to_list in Hin. now exists x.
  - intros [Hpre [x Hx]]. split; [|exact Hpre].
    exists (q, x). split; [reflexivity|]. now apply elem_of_map_to_list.
Qed.

(** X4: the reach of [clearArrayCache(arrayPath)].  The memo of the
    expansion is dropped.  Every cache entry whose key extends [arrayPath]
    by a dot is removed; for such a key that was cached, the error entry
    is removed too and the invocation in flight, if any, is aborted and
    forgotten.  A key outside the array, and a key under it that had no
    cache entry, keeps its errors and its controller. *)
Theorem clearArrayCache_scope (arrayPath q : string) (m : ValidationManager) :
  let m' := clearArrayCache arrayPath m in
  let under := Str.startsWith q (arrayPath ++ ".") in
  expandedRulesCache m' = None
  /\ (under = true -> validationCache m' !! q = None)
  /\ (under = false -> validationCache m' !! q = validationCache m !! q)
  /\ (under = true -> is_Some (validationCache m !! q) ->
      errors m' !! q = None /\ abortControllers m' !! q = None
      /\ forall c, abortControllers m !! q = Some c -> aborted c m' = true)
  /\ (under = false \/ validationCache m !! q = None ->
      errors m' !! q = errors m !! q
      /\ abortControllers m' !! q = abortControllers m !! q).
Proof.
  cbv zeta. rewrite clearArrayCache_unfold.
  match goal with
  | |- context [fold_left forgetController ?keys ?acc] =>
      destruct (fold_forgetController_frame keys acc)
        as (Hc & He & Hx & _ & Ha);
      pose proof (fold_forgetController_aborts keys acc) as Hab
  end.
  cbv zeta in Hc, He, Hx, Ha. rewrite Hc, He, Hx. simpl.
  split; [reflexivity|]. split; [|split; [|split]].
  - intros Hpre. apply map_lookup_filter_None. right. intros x _. simpl.
    congruence.
  - intros Hpre. destruct (validationCache m !! q) as [x|] eqn:E.
    + apply map_lookup_filter_Some. split; assumption.
    + apply map_lookup_filter_None. now left.
  - intros Hpre Hcached.
    assert (Hin : q ∈ List.filter
                        (fun key => Str.startsWith key (arrayPath ++ "."))
                        (map fst (map_to_list (validationCache m))))
      by now apply doomed_keys.
    split; [|split].
    + apply map_lookup_filter_None. right. intros x _. simpl.
      intros [H|H]; [congruence|]. rewrite H in Hcached.
      now destruct Hcached.
    + rewrite Ha. now rewrite bool_decide_eq_true_2.
    + intros c Hreg. unfold aborted. apply bool_decide_eq_true.
      apply (Hab q c Hin). exact Hreg.
  - intros Hout. split.
    + destruct (errors m !! q) as [x|] eqn:E.
      * apply map_lookup_filter_Some. split; [assumption|]. exact Hout.
      * apply map_lookup_filter_None. now left.
    + rewrite Ha. rewrite bool_decide_eq_false_2; [reflexivity|].
      rewrite doomed_keys. intros [Hpre Hcached].
      destruct Hout as [H|H]; [congruence|]. rewrite H in Hcached.
      now destruct Hcached.
Qed.











(** ** [debounce]: a burst of calls *)

Lemma afterBurst_first args :
  afterBurst 0 args (Debounce.step Debounce.init (Debounce.Call args)).
Proof.
  unfold afterBurst. cbn. rewrite lookup_insert_eq.
  repeat split. intros j Hj. lia.
Qed.

Lemma afterBurst_call i args args' st :
  afterBurst i args st ->
  afterBurst (S i) args' (Debounce.step st (Debounce.Call args')).
Proof.
  intros (Ht & Hp & Hts & Hf & Hc & Hn & Hpend & Hrej).
  unfold afterBurst, Debounce.step, Debounce.call. cbn [fst].
  rewrite Ht, Hp, Hts, Hn. cbn [Debounce.timeoutId Debounce.pendingReject
    Debounce.timers Debounce.inFlight Debounce.checkerCalls Debounce.nextId
    Debounce.promises].
  unfold Debounce.settlePromise. rewrite Hpend.
  unfold Debounce.clearTimeout. cbn [List.filter Debounce.t_id].
  rewrite Nat.eqb_refl. cbn [negb app].
  replace (2 * S i + 2) with (S (2 * i + 3)) by lia.
  replace (2 * S i + 1) with (2 * i + 3) by lia.
  replace (2 * S i + 3) with (S (S (2 * i + 3))) by lia.
  rewrite lookup_insert_eq.
  split; [reflexivity|]. split; [reflexivity|]. split; [reflexivity|].
  split; [assumption|]. split; [assumption|]. split; [reflexivity|].
  split; [reflexivity|]. intros j Hj.
  rewrite lookup_insert_ne by lia.
  destruct (decide (j = i)) as [->|Hne].
  - apply lookup_insert_eq.
  - rewrite lookup_insert_ne by lia. apply Hrej. lia.
Qed.

Lemma last_cons_default {A} (more : list A) :
  forall a d, List.last (a :: more) d = List.last more a.
Proof.
  induction more as [|b more IH]; intros a d; [reflexivity|].
  change (List.last (a :: b :: more) d) with (List.last (b :: more) d).
  now rewrite !IH.
Qed.

Lemma afterBurst_calls more :
  forall i args st,
    afterBurst i args st ->
    afterBurst (i + List.length more) (List.last more args)
      (fold_left Debounce.step (map Debounce.Call more) st).
Proof.
  induction more as [|a more IH]; intros i args st H.
  - cbn. now rewrite Nat.add_0_r.
  - cbn [List.length map fold_left].
    replace (i + S (List.length more)) with (S i + List.length more) by lia.
    rewrite last_cons_default.
    apply IH. now apply (afterBurst_call i args).
Qed.

(** X6: what [debounce] is for.  After any number of calls in a row, with
    no timer firing in between, exactly one timer is armed, and it carries
    the arguments of the last call; the promise of every earlier call has
    been rejected as superseded and the promise of the last call is
    pending; the checker has not run.  When that timer fires the checker
    runs once, with the last arguments, and what it settles with settles
    the promise of the last call. *)
Theorem debounce_burst_runs_checker_once (first : JsValue) (more : list JsValue)
  (s : Settlement) :
  let i := List.length more in
  let lastArgs := List.last more first in
  let st := Debounce.run (map Debounce.Call (first :: more)) in
  let fired := Debounce.step st (Debounce.Fire (2 * i + 2)) in
  let settled := Debounce.step fired (Debounce.CheckerSettles (2 * i + 1) s) in
  Debounce.timers st
  = [ {| Debounce.t_id := 2 * i + 2; Debounce.t_args := lastArgs;
         Debounce.t_promise := 2 * i + 1 |} ]
  /\ Debounce.checkerCalls st = []
  /\ (forall j, j < i ->
                Debounce.promises st !! (2 * j + 1)
                = Some (Debounce.RejectedWith Debounce.Superseded))
  /\ Debounce.promises st !! (2 * i + 1) = Some Debounce.Pending
  /\ Debounce.checkerCalls fired = [lastArgs]
  /\ Debounce.timers fired = []
  /\ Debounce.checkerCalls settled = [lastArgs]
  /\ Debounce.promises settled !! (2 * i + 1)
     = Some match s with
            | Fulfilled v => Debounce.Resolved v
            | Rejected e => Debounce.RejectedWith (Debounce.CheckerFailed e)
            end
  /\ Debounce.timeoutId settled = None.
Proof.
  cbv zeta. unfold Debounce.run. cbn [map fold_left].
  pose proof (afterBurst_calls more 0 first _ (afterBurst_first first)) as H.
  change (0 + List.length more) with (List.length more) in H.
  destruct H as (Ht & Hp & Hts & Hf & Hc & Hn & Hpend & Hrej).
  set (st := fold_left Debounce.step (map Debounce.Call more)
               (Debounce.step Debounce.init (Debounce.Call first))) in *.
  set (id := 2 * List.length more + 2) in *.
  set (p := 2 * List.length more + 1) in *.
  split; [exact Hts|]. split; [exact Hc|]. split; [exact Hrej|].
  split; [exact Hpend|].
  assert (Hfired :
    Debounce.step st (Debounce.Fire id)
    = Debounce.mkState (Debounce.timeoutId st) None [] [p]
        (Debounce.promises st) [List.last more first] (Debounce.nextId st)).
  { unfold Debounce.step, Debounce.fire. rewrite Hts.
    cbn [List.find Debounce.t_id]. rewrite Nat.eqb_refl.
    unfold Debounce.clearTimeout. cbn [List.filter Debounce.t_id].
    rewrite Nat.eqb_refl, Hf, Hc. reflexivity. }
  rewrite Hfired. cbn [Debounce.checkerCalls Debounce.timers].
  split; [reflexivity|]. split; [reflexivity|].
  unfold Debounce.step, Debounce.checkerSettles.
  cbn [Debounce.inFlight existsb]. rewrite Nat.eqb_refl. cbn [orb].
  cbn [Debounce.checkerCalls Debounce.promises Debounce.timeoutId].
  split; [reflexivity|]. split; [|reflexivity].
  unfold Debounce.settlePromise. rewrite Hpend. apply lookup_insert_eq.
Qed.

Lemma setRules_keeps_cached_verdict_witness :
  exists m',
    validateField_start "phone" (setRules sampleRelaxedRules samplePhoneValidated)
    = (m', Settled (Normal ["boom"]))
    /\ errors m' !! "phone" = Some ["boom"]
    /\ callLog m' = callLog samplePhoneValidated.
Proof.
  apply (setRules_keeps_cached_verdict sampleRelaxedRules samplePhoneValidated
           "phone" {| vc_value := JStr "1"; vc_errors := ["boom"] |}).
  - vm_compute. reflexivity.
  - vm_compute. reflexivity.
  - vm_compute. discriminate.
Defined.

Lemma dispose_discards_pending_witness :
  validationCache (dispose sampleRemoteInFlight) = ∅
  /\ abortControllers (dispose sampleRemoteInFlight) = ∅
  /\ validateField_resume firstInvocation (Fulfilled (JStr "Taken"))
       (dispose sampleRemoteInFlight)
     = (dispose sampleRemoteInFlight, Settled (Normal [])).
Proof.
  apply (dispose_discards_pending sampleRemoteInFlight firstInvocation
           (JStr "Taken")).
  vm_compute. reflexivity.
Defined.

(** ** Paths: writing and reading back *)

Lemma assoc_rset_same {A} (k : string) (x : A) (l : Entries A) :
  assoc k (rset k x l) = Some x.
Proof. now rewrite assoc_rset, String.eqb_refl. Qed.

Lemma assoc_app_fresh {A} (k : string) (x : A) (l : list (string * A)) :
  assoc k l = None -> assoc k (l ++ [(k, x)]) = Some x.
Proof.
  induction l as [|[k0 y] l IH]; cbn [assoc app].
  - now rewrite String.eqb_refl.
  - destruct (String.eqb k0 k); [discriminate | exact IH].
Qed.

Lemma assoc_insertIndexed (i : nat) (k : string) (x : JsValue) fields :
  assoc k fields = None -> assoc k (insertIndexed i k x fields) = Some x.
Proof.
  induction fields as [|[k0 y] fields IH]; cbn [assoc insertIndexed].
  - now rewrite String.eqb_refl.
  - destruct (String.eqb k0 k) eqn:E; [discriminate|]. intros Hnone.
    destruct (arrayIndex k0) as [j|]; [destruct (Nat.ltb j i)|];
      cbn [assoc]; rewrite ?E, ?String.eqb_refl; auto.
Qed.

Lemma assoc_objSet (k : string) (x : JsValue) fields :
  assoc k (objSet k x fields) = Some x.
Proof.
  unfold objSet. destruct (assoc k fields) eqn:E.
  - apply assoc_rset_same.
  - destruct (arrayIndex k).
    + now apply assoc_insertIndexed.
    + now apply assoc_app_fresh.
Qed.










(** ** Paths: the builders of the form *)

Lemma string_of_uint_digits (d : Decimal.uint) :
  allDigits (NilEmpty.string_of_uint d) = true.
Proof. induction d; cbn; auto. Qed.

Lemma toString_digits (n : nat) : digitsOnly (Str.toString n) = true.
Proof.
  unfold digitsOnly, Str.toString.
  pose proof (string_of_uint_digits (Nat.to_uint n)) as H.
  destruct (NilEmpty.string_of_uint (Nat.to_uint n)) eqn:E; [|exact H].
  exfalso.
  assert (Hn : Some (Nat.to_uint n) = Some Decimal.Nil)
    by (rewrite <- NilEmpty.usu, E; reflexivity).
  injection Hn as Hn. apply (f_equal Nat.of_uint) in Hn.
  rewrite DecimalNat.Unsigned.of_to in Hn. subst n. discriminate E.
Qed.

Lemma parseIndex_toString (n : nat) : Str.parseIndex (Str.toString n) = Some n.
Proof.
  unfold Str.parseIndex. unfold Str.toString at 1.
  rewrite NilEmpty.usu, DecimalNat.Unsigned.of_to.
  now rewrite String.eqb_refl.
Qed.

Lemma allDigits_excludes (c : ascii) (s : string) :
  isDigit c = false -> allDigits s = true -> Str.includes_char c s = false.
Proof.
  intros Hc. induction s as [|d s IH]; cbn; [reflexivity|].
  intros H. apply andb_prop in H as [Hd Hs].
  destruct (Ascii.eqb_spec d c) as [->|_]; [congruence | now apply IH].
Qed.

Lemma toString_no_dot (n : nat) : Str.includes_char "." (Str.toString n) = false.
Proof.
  apply allDigits_excludes; [reflexivity|].
  pose proof (toString_digits n) as H. unfold digitsOnly in H.
  now destruct (Str.toString n).
Qed.

Lemma toString_not_star (n : nat) : Str.toString n <> "*".
Proof.
  intros E. pose proof (toString_digits n) as H. rewrite E in H.
  discriminate H.
Qed.

Lemma split_dot_plain (s : string) :
  Str.includes_char "." s = false -> Str.split_dot s = [s].
Proof.
  induction s as [|c s IH]; cbn; [reflexivity|].
  destruct (Ascii.eqb c "."); [discriminate|].
  intros H. now rewrite (IH H).
Qed.

Lemma split_dot_app (a b : string) :
  Str.includes_char "." a = false ->
  Str.split_dot (a ++ "." ++ b) = a :: Str.split_dot b.
Proof.
  induction a as [|c a IH]; intros H.
  - reflexivity.
  - change (String c a ++ "." ++ b)%string with (String c (a ++ "." ++ b)).
    cbn [Str.split_dot]. cbn [Str.includes_char] in H.
    destruct (Ascii.eqb c "."); [discriminate|]. now rewrite (IH H).
Qed.

Lemma includes_char_app (c : ascii) (a b : string) :
  Str.includes_char c (a ++ b)
  = Str.includes_char c a || Str.includes_char c b.
Proof.
  induction a as [|d a IH]; [reflexivity|].
  change (String d a ++ b)%string with (String d (a ++ b)).
  cbn [Str.includes_char]. now destruct (Ascii.eqb d c).
Qed.

Lemma arrayPath_split (arrayField property : string) (index : nat) :
  Str.includes_char "." arrayField = false ->
  Str.includes_char "." property = false ->
  Str.split_dot (arrayPath arrayField index property)
  = [arrayField; Str.toString index; property].
Proof.
  intros Hf Hp. unfold arrayPath.
  rewrite (split_dot_app _ _ Hf), (split_dot_app _ _ (toString_no_dot index)).
  now rewrite (split_dot_plain _ Hp).
Qed.

Lemma wildcard_entry_expands vals arrayField property ra r items :
  Str.includes_char "." arrayField = false ->
  Str.includes_char "." property = false ->
  arrayField <> "" -> arrayField <> "*" -> property <> "*" ->
  getProp vals arrayField = JArr r items ->
  expandEntry vals ((arrayField ++ ".*." ++ property)%string, ra)
  = map (fun index => (arrayPath arrayField index property, ra))
      (seq 0 (List.length items)).
Proof.
  intros Hf Hp Hne Hfs Hps Harr. unfold expandEntry.
  assert (Hstar : Str.includes_char "*" (arrayField ++ ".*." ++ property)%string
                  = true).
  { rewrite includes_char_app. apply orb_true_intro. now right. }
  assert (Hsplit : Str.split_dot (arrayField ++ ".*." ++ property)%string
                   = [arrayField; "*"; property]).
  { change (arrayField ++ ".*." ++ property)%string
      with (arrayField ++ "." ++ ("*" ++ "." ++ property))%string.
    rewrite (split_dot_app _ _ Hf), (split_dot_app "*" property eq_refl).
    now rewrite (split_dot_plain _ Hp). }
  rewrite Hstar, Hsplit.
  change [arrayField; "*"; property] with ([arrayField] ++ "*" :: [property]).
  rewrite (indexOf_middle "*" [arrayField] [property]), (slice0_middle [arrayField])
    by (intros [H|[]]; congruence).
  cbn [Str.join_dot].
  assert (Hget : getNestedValue vals arrayField = JArr r items).
  { unfold getNestedValue. rewrite (split_dot_plain _ Hf). cbn [fold_left].
    assert (Ht : truthy vals = true)
      by (destruct vals; try reflexivity; cbn in Harr;
          try discriminate Harr;
          repeat match type of Harr with
                 | context [match ?x with _ => _ end] => destruct x
                 end; discriminate Harr).
    assert (Hn : isNullish vals = false) by (now destruct vals).
    rewrite Ht, Hn. cbn [truthy].
    destruct (String.eqb_spec arrayField ""); [contradiction|]. exact Harr. }
  rewrite Hget. apply map_ext. intros index.
  rewrite (concretePath_middle [arrayField] [property])
    by (intros [H|[]]; congruence).
  reflexivity.
Qed.

(** X9: [arrayPath(field, index, property)] names the property of one
    element the way the engine does.  For a field and a property without
    a dot, split at the dots it gives back the three parts; the value
    [validateField] validates under it is that property of that element
    of the array; it is one of the keys the wildcard rule path
    [field.*.property] expands to as soon as the array has such an
    element, and [validateField] then runs the rules declared under the
    wildcard, unless another rule path expands to the same key. *)
Theorem arrayPath_names_element (m : ValidationManager)
  (arrayField property : string) (index : nat) (ra : RuleArray)
  (r : ref) (items : list JsValue) :
  Str.includes_char "." arrayField = false ->
  Str.includes_char "." property = false ->
  arrayField <> "" -> arrayField <> "*" -> property <> "*" ->
  getProp (values m) arrayField = JArr r items ->
  In ((arrayField ++ ".*." ++ property)%string, ra) (rules m) ->
  let path := arrayPath arrayField index property in
  Str.split_dot path = [arrayField; Str.toString index; property]
  /\ currentValueOf path m
     = readStep (nth index items JUndefined) property
  /\ (index < List.length items ->
      In path (keys (expandWildcardPaths (rules m) (values m))))
  /\ (index < List.length items ->
      (forall entry, In entry (rules m) ->
                     In path (keys (expandEntry (values m) entry)) ->
                     snd entry = ra) ->
      fieldRulesOf path m = ra_rules ra).
Proof.
  intros Hf Hp Hne Hfs Hps Harr Hentry. cbv zeta.
  pose proof (arrayPath_split arrayField property index Hf Hp) as Hsplit.
  pose proof (wildcard_entry_expands (values m) arrayField property ra r items
                Hf Hp Hne Hfs Hps Harr) as Hexp.
  assert (Hdot : Str.includes_char "." (arrayPath arrayField index property)
                 = true).
  { unfold arrayPath. rewrite includes_char_app.
    apply orb_true_intro. right. reflexivity. }
  assert (Hpath : truthy (JStr (arrayPath arrayField index property)) = true).
  { unfold arrayPath. cbn [truthy].
    destruct arrayField; [contradiction | reflexivity]. }
  assert (Hkey : index < List.length items ->
                 In (arrayPath arrayField index property)
                   (keys (expandEntry (values m)
                            ((arrayField ++ ".*." ++ property)%string, ra)))).
  { intros Hlt. rewrite Hexp. unfold keys. rewrite map_map. cbn [fst].
    apply in_map_iff. exists index. split; [reflexivity|].
    apply in_seq. lia. }
  remember (arrayPath arrayField index property) as path eqn:Epath.
  split; [exact Hsplit|]. split; [|split].
  - unfold currentValueOf. rewrite Hdot. unfold getNestedValue.
    rewrite Hsplit.
    assert (Ht : truthy (values m) = true /\ isNullish (values m) = false).
    { destruct (values m); try (split; reflexivity); cbn in Harr;
        try discriminate Harr;
        repeat match type of Harr with
               | context [match ?x with _ => _ end] => destruct x
               end; discriminate Harr. }
    destruct Ht as [Ht Hn]. rewrite Ht, Hpath. cbn [negb orb fold_left]. rewrite Hn, Harr.
    cbn [isNullish getProp]. rewrite parseIndex_toString. reflexivity.
  - intros Hlt. apply expandWildcardPaths_keys.
    eexists. split; [exact Hentry | now apply Hkey].
  - intros Hlt Huniform. unfold fieldRulesOf.
    assert (E : assoc path (expandWildcardPaths (rules m) (values m)) = Some ra).
    { unfold expandWildcardPaths. apply fold_rset_assoc_uniform.
      - intros [k ra'] Hw Hk. cbn [fst] in Hk. subst k. cbn [snd].
        apply in_flat_map in Hw as (entry & Hin & Hw).
        rewrite <- (Huniform entry Hin).
        + now apply (expandEntry_shared (values m) entry (path, ra')).
        + apply in_map_iff. now exists (path, ra').
      - right. apply in_map_iff.
        specialize (Hkey Hlt). apply in_map_iff in Hkey as ([k ra'] & Ek & Hw).
        exists (k, ra'). split; [exact Ek|]. apply in_flat_map.
        eexists. split; [exact Hentry | exact Hw]. }
    now rewrite E.
Qed.

Lemma arrayPath_names_element_witness :
  Str.split_dot (arrayPath "contacts" 0 "email")
  = ["contacts"; Str.toString 0; "email"]
  /\ currentValueOf (arrayPath "contacts" 0 "email") sampleManager
     = readStep (nth 0 [JObj 3 [("email", JStr "")]] JUndefined) "email"
  /\ (0 < List.length [JObj 3 [("email", JStr "")]] ->
      In (arrayPath "contacts" 0 "email")
        (keys (expandWildcardPaths (rules sampleManager)
                 (values sampleManager))))
  /\ (0 < List.length [JObj 3 [("email", JStr "")]] ->
      (forall entry, In entry (rules sampleManager) ->
                     In (arrayPath "contacts" 0 "email")
                       (keys (expandEntry (values sampleManager) entry)) ->
                     snd entry = sampleContactRules) ->
      fieldRulesOf (arrayPath "contacts" 0 "email") sampleManager
      = ra_rules sampleContactRules).
Proof.
  apply (arrayPath_names_element sampleManager "contacts" "email" 0
           sampleContactRules 2 [JObj 3 [("email", JStr "")]]).
  - reflexivity.
  - reflexivity.
  - discriminate.
  - discriminate.
  - discriminate.
  - reflexivity.
  - right. right. left. reflexivity.
Defined.

(** ** Rule inputs: normalisation and chains *)

Lemma collectRule_spec acc rule :
  distinctRules acc ->
  distinctRules (collectRule acc rule)
  /\ (exists added, bucket (collectRule acc rule) = bucket acc ++ added
                    /\ (added = [] \/ added = [rule]))
  /\ In (rule_id rule) (map rule_id (bucket (collectRule acc rule))).
Proof.
  intros [Hnd Hseen]. unfold collectRule. case_bool_decide as Hin.
  - split; [now split|]. split.
    + exists []. rewrite app_nil_r. split; [reflexivity | now left].
    + now apply Hseen.
  - unfold distinctRules. cbn [bucket seen]. split; [split|split].
    + rewrite List.map_app. cbn [map]. apply NoDup_app. split; [exact Hnd|].
      split; [|apply NoDup_singleton].
      intros id Hid Heq. apply list_elem_of_singleton in Heq. subst id.
      apply Hin, Hseen. now apply list_elem_of_In.
    + intros id. rewrite List.map_app, in_app_iff, elem_of_union, elem_of_singleton.
      cbn [map In]. rewrite Hseen. intuition congruence.
    + exists [rule]. split; [reflexivity | now right].
    + rewrite List.map_app, in_app_iff. right. now left.
Qed.

Lemma fold_collectRule_spec rules :
  forall acc,
    distinctRules acc ->
    let acc' := fold_left collectRule rules acc in
    distinctRules acc'
    /\ (exists added, bucket acc' = bucket acc ++ added
                      /\ added `sublist_of` rules)
    /\ (forall rule, In rule rules ->
                     In (rule_id rule) (map rule_id (bucket acc')))
    /\ (forall id, In id (map rule_id (bucket acc')) ->
                   In id (map rule_id (bucket acc))
                   \/ In id (map rule_id rules)).
Proof.
  induction rules as [|rule rules IH]; intros acc Hacc; cbn [fold_left].
  - cbv zeta. split; [exact Hacc|]. split; [|split].
    + exists []. now rewrite app_nil_r.
    + intros rule [].
    + intros id H. now left.
  - destruct (collectRule_spec acc rule Hacc)
      as (H1 & (added1 & E1 & S1) & Hin1).
    destruct (IH _ H1) as (H2 & (added2 & E2 & S2) & Hin2 & Hback).
    cbv zeta. split; [exact H2|]. split; [|split].
    + exists (added1 ++ added2). rewrite E2, E1, <- app_assoc.
      split; [reflexivity|].
      change (rule :: rules) with ([rule] ++ rules).
      apply sublist_app; [|exact S2].
      destruct S1 as [->| ->]; [apply sublist_nil_l | reflexivity].
    + intros x [<-|Hx]; [|now apply Hin2].
      rewrite E2, List.map_app, in_app_iff. now left.
    + intros id Hid. destruct (Hback id Hid) as [H|H].
      * rewrite E1, List.map_app, in_app_iff in H. destruct H as [H|H]; [now left|].
        right. cbn [map]. left.
        destruct S1 as [->| ->]; [destruct H | now destruct H as [H|[]]].
      * right. cbn [map]. now right.
Qed.


Lemma append_fold (input : RuleInput) :
  forall chain,
    append input chain = fold_left collectRule (inputRules input) chain.
Proof.
  induction input as [|rule|chainRules|items IH|] using RuleInput_nested_ind;
    intros chain; try reflexivity.
  cbn [append inputRules]. revert chain.
  induction IH as [|item items Hitem _ IHitems]; intros chain; [reflexivity|].
  rewrite fold_left_app, <- Hitem. apply IHitems.
Qed.

Lemma distinctRules_nothing : distinctRules nothingCollected.
Proof.
  split; [constructor|]. intros id. cbn. rewrite elem_of_empty. tauto.
Qed.






(** X11: a rule chain never repeats a rule.  Whatever is appended to the
    chain that [wrapRule] starts from an initial rule (by [and], or by
    chained factory calls), the initial rule stays first, the rules of the
    chain are pairwise distinct and are exactly those recorded as seen,
    every rule mentioned by what was appended is in the chain, a further
    [and] only adds at the end, and normalising the chain gives its rules
    back unchanged. *)
Theorem chain_rules_are_distinct (initialRule : Rule)
  (extras more : list RuleInput) :
  let chain := chain_and extras (wrapRule initialRule) in
  hd_error (build chain) = Some initialRule
  /\ distinctRules chain
  /\ (forall rule, In rule (inputRules (InputArray extras)) ->
                   In (rule_id rule) (map rule_id (build chain)))
  /\ (exists added, build (chain_and more chain) = build chain ++ added)
  /\ bucket (collectRuleInput (InputChain (build chain)) nothingCollected)
     = build chain.
Proof.
  cbv zeta.
  assert (Hand : forall inputs chain,
             chain_and inputs chain
             = fold_left collectRule (inputRules (InputArray inputs)) chain).
  { intros inputs chain. rewrite <- append_fold. reflexivity. }
  assert (Hstart : distinctRules (wrapRule initialRule)).
  { split; cbn.
    - apply NoDup_singleton.
    - intros id. rewrite elem_of_singleton. intuition congruence. }
  rewrite !Hand.
  destruct (fold_collectRule_spec (inputRules (InputArray extras))
              (wrapRule initialRule) Hstart)
    as (Hdistinct & (added & Eb & _) & Hall & _).
  cbv zeta in Hdistinct, Eb, Hall.
  set (chain := fold_left collectRule (inputRules (InputArray extras))
                  (wrapRule initialRule)) in *.
  split; [unfold build; now rewrite Eb|]. split; [exact Hdistinct|].
  split; [exact Hall|]. split.
  - destruct (fold_collectRule_spec (inputRules (InputArray more)) chain
                Hdistinct) as (_ & (added' & Eb' & _) & _).
    now exists added'.
  - cbn [collectRuleInput]. unfold build.
    destruct Hdistinct as [Hnd _]. clear -Hnd.
    assert (Hgen : forall rs acc,
               distinctRules acc ->
               NoDup (map rule_id (bucket acc ++ rs)) ->
               bucket (fold_left collectRule rs acc) = bucket acc ++ rs).
    { induction rs as [|rule rs IH]; intros acc Hacc Hnd';
        cbn [fold_left]; [now rewrite app_nil_r|].
      assert (Hnew : rule_id rule ∉ seen acc).
      { intros Hin. apply Hacc in Hin.
        rewrite List.map_app in Hnd'. apply NoDup_app in Hnd' as (_ & Hdisj & _).
        apply (Hdisj (rule_id rule)); [now apply list_elem_of_In|].
        cbn [map]. apply list_elem_of_here. }
      destruct (collectRule_spec acc rule Hacc) as (Hacc' & _).
      assert (Eb : bucket (collectRule acc rule) = bucket acc ++ [rule]).
      { unfold collectRule. now rewrite bool_decide_eq_false_2. }
      rewrite IH; rewrite ?Eb, <- ?app_assoc; [reflexivity | exact Hacc' | exact Hnd']. }
    apply (Hgen (bucket chain) nothingCollected distinctRules_nothing Hnd).
Qed.


(** ** The form state: errors, flags and resets *)

(** A loop that binds every key it visits to the same value. *)
Lemma fold_bind_const {St A} (get : St -> gmap string A) (x : A)
  (step : St -> string -> St) :
  (forall acc key, get (step acc key) = <[key := x]> (get acc)) ->
  forall visited s q,
    get (fold_left step visited s) !! q
    = if bool_decide (q ∈ visited) then Some x else get s !! q.
Proof.
  intros Hstep. induction visited as [|key visited IH]; intros s q;
    cbn [fold_left].
  - rewrite bool_decide_eq_false_2; [reflexivity | apply not_elem_of_nil].
  - rewrite IH, Hstep. destruct (decide (q ∈ visited)) as [Hin|Hnin].
    + rewrite !bool_decide_eq_true_2; [reflexivity | | assumption].
      apply elem_of_cons. now right.
    + rewrite (bool_decide_eq_false_2 _ Hnin).
      destruct (decide (key = q)) as [->|Hne].
      * rewrite lookup_insert_eq, bool_decide_eq_true_2; [reflexivity|].
        apply list_elem_of_here.
      * rewrite lookup_insert_ne by assumption.
        rewrite bool_decide_eq_false_2; [reflexivity|].
        intros H. apply elem_of_cons in H as [H|H]; [congruence|contradiction].
Qed.

(** A loop that leaves a component alone. *)
Lemma fold_keeps {St B C} (get : St -> C) (step : St -> B -> St) :
  (forall acc b, get (step acc b) = get acc) ->
  forall visited s, get (fold_left step visited s) = get s.
Proof.
  intros Hstep. induction visited as [|b visited IH]; intros s;
    cbn [fold_left]; [reflexivity|]. now rewrite IH, Hstep.
Qed.

Lemma map_to_list_keys {A} (m : gmap string A) (q : string) :
  q ∈ map fst (map_to_list m) <-> is_Some (m !! q).
Proof.
  rewrite list_elem_of_In, in_map_iff. split.
  - intros ([k x] & <- & Hin). exists x.
    now apply elem_of_map_to_list, list_elem_of_In.
  - intros [x Hx]. exists (q, x). split; [reflexivity|].
    now apply list_elem_of_In, elem_of_map_to_list.
Qed.

Lemma hasAnyErrors_false (s : FormState.T) :
  FormState.hasAnyErrors s = false <->
  forall key e, FormState.errors s !! key = Some e -> e = [].
Proof.
  unfold FormState.hasAnyErrors. split.
  - intros H key e Hk. destruct e as [|x e]; [reflexivity|]. exfalso.
    assert (E : existsb (fun fieldErrors : list string =>
                           Nat.ltb 0 (List.length fieldErrors))
                  (map snd (map_to_list (FormState.errors s))) = true).
    { apply existsb_exists. exists (x :: e). split; [|reflexivity].
      apply in_map_iff. exists (key, x :: e). split; [reflexivity|].
      now apply list_elem_of_In, elem_of_map_to_list. }
    congruence.
  - intros H. destruct (existsb _ _) eqn:E; [|reflexivity].
    apply existsb_exists in E as (e & Hin & He).
    apply in_map_iff in Hin as ([key e'] & <- & Hin).
    apply list_elem_of_In, elem_of_map_to_list in Hin.
    rewrite (H key e' Hin) in He. discriminate He.
Qed.

Lemma isValid_without_errors (s : FormState.T) :
  FormState.hasAnyErrors s = false ->
  (forall key b, FormState.isValidating s !! key = Some b -> b = false) ->
  FormState.isValid s = true.
Proof.
  intros Herr Hval. unfold FormState.isValid, isValid.
  rewrite (proj2 (existsb_snd_map_to_list _) Hval).
  apply forallb_forall. intros [key e] Hin. cbn [fst snd].
  apply list_elem_of_In, elem_of_map_to_list in Hin.
  rewrite (proj1 (hasAnyErrors_false s) Herr key e Hin).
  now destruct (isConditionallyInactive _ _ _ _).
Qed.

(** X12: [resetErrors] empties every error list it knows of and keeps the
    keys.  Afterwards [hasAnyErrors] is false, and the form is valid as
    soon as nothing is being validated.  The touched flag is lowered for
    the fields that had an error entry, and only for them; values, dirty
    flags and in-progress flags are not touched. *)
Theorem resetErrors_clears (s : FormState.T) :
  let s' := FormState.resetErrors s in
  FormState.hasAnyErrors s' = false
  /\ (forall key, FormState.errors s' !! key
                  = (fun _ => []) <$> FormState.errors s !! key)
  /\ (forall key, FormState.touched s' !! key
                  = match FormState.errors s !! key with
                    | Some _ => Some false
                    | None => FormState.touched s !! key
                    end)
  /\ FormState.dirty s' = FormState.dirty s
  /\ FormState.isValidating s' = FormState.isValidating s
  /\ FormState.values s' = FormState.values s
  /\ ((forall key b, FormState.isValidating s !! key = Some b -> b = false) ->
      FormState.isValid s' = true).
Proof.
  cbv zeta. unfold FormState.resetErrors.
  set (step := fun (acc : FormState.T) (key : string) =>
                 FormState.withRecords (<[key := []]> (FormState.errors acc))
                   (<[key := false]> (FormState.touched acc))
                   (FormState.dirty acc) (FormState.isValidating acc) acc).
  set (visited := map fst (map_to_list (FormState.errors s))).
  assert (He : forall key,
             FormState.errors (fold_left step visited s) !! key
             = (fun _ => []) <$> FormState.errors s !! key).
  { intros key.
    rewrite (fold_bind_const FormState.errors [] step) by reflexivity.
    case_bool_decide as Hin; unfold visited in Hin;
      rewrite map_to_list_keys in Hin.
    - destruct Hin as [e ->]. reflexivity.
    - destruct (FormState.errors s !! key) eqn:E; [|reflexivity].
      exfalso. apply Hin. now exists l. }
  assert (Hv : FormState.isValidating (fold_left step visited s)
               = FormState.isValidating s)
    by (now apply (fold_keeps FormState.isValidating step)).
  assert (Hnone : FormState.hasAnyErrors (fold_left step visited s) = false).
  { apply hasAnyErrors_false. intros key e Hk. rewrite He in Hk.
    destruct (FormState.errors s !! key); [|discriminate Hk].
    cbn in Hk. now injection Hk as <-. }
  split; [exact Hnone|]. split; [exact He|]. split; [|split; [|split; [|split]]].
  - intros key.
    rewrite (fold_bind_const FormState.touched false step) by reflexivity.
    case_bool_decide as Hin; unfold visited in Hin;
      rewrite map_to_list_keys in Hin.
    + now destruct Hin as [e ->].
    + destruct (FormState.errors s !! key) eqn:E; [|reflexivity].
      exfalso. apply Hin. now exists l.
  - now apply (fold_keeps FormState.dirty step).
  - exact Hv.
  - now apply (fold_keeps FormState.values step).
  - intros Hidle. apply isValid_without_errors; [exact Hnone|].
    now rewrite Hv.
Qed.

Lemma setError_other (s : FormState.T) entry key :
  fst entry <> key ->
  FormState.errors (FormState.setError s entry) !! key
  = FormState.errors s !! key
  /\ FormState.touched (FormState.setError s entry) !! key
     = FormState.touched s !! key.
Proof.
  intros Hne. unfold FormState.setError.
  destruct (snd entry) as [errorList|]; [|now split].
  destruct (Nat.ltb 0 (List.length errorList)); [|now split].
  cbn. now rewrite !lookup_insert_ne by assumption.
Qed.

Lemma setErrors_other newErrors :
  forall s key,
    ~ In key (keys newErrors) ->
    FormState.errors (FormState.setErrors newErrors s) !! key
    = FormState.errors s !! key
    /\ FormState.touched (FormState.setErrors newErrors s) !! key
       = FormState.touched s !! key.
Proof.
  unfold FormState.setErrors.
  induction newErrors as [|entry newErrors IH]; intros s key Hout;
    cbn [fold_left]; [now split|].
  destruct (IH (FormState.setError s entry) key) as [He Ht].
  { intros H. apply Hout. now right. }
  destruct (setError_other s entry key) as [He' Ht'].
  { intros H. apply Hout. now left. }
  split; congruence.
Qed.

Lemma hasAnyErrors_true (s : FormState.T) key first rest :
  FormState.errors s !! key = Some (first :: rest) ->
  FormState.hasAnyErrors s = true.
Proof.
  intros Hk. destruct (FormState.hasAnyErrors s) eqn:E; [reflexivity|].
  now apply (proj1 (hasAnyErrors_false s) E) in Hk.
Qed.

(** X13: [setErrors] records the non-empty lists it is given and marks
    their fields as touched; the first message of the list is then what
    [error] reports, and the form has errors.  A field given an empty or
    absent list, and a field not mentioned, keeps the errors and the
    touched flag it had: an empty list does not clear anything. *)
Theorem setErrors_records (newErrors : Entries (option (list string)))
  (s : FormState.T) (key : string) :
  NoDup (keys newErrors) ->
  let s' := FormState.setErrors newErrors s in
  match assoc key newErrors with
  | Some (Some (first :: rest)) =>
      FormState.allErrors key s' = first :: rest
      /\ FormState.isTouched key s' = true
      /\ FormState.hasError key s' = true
      /\ FormState.error key s' = Some first
      /\ FormState.hasAnyErrors s' = true
  | _ =>
      FormState.errors s' !! key = FormState.errors s !! key
      /\ FormState.touched s' !! key = FormState.touched s !! key
  end.
Proof.
  cbv zeta. revert s.
  induction newErrors as [|[k e] newErrors IH]; intros s Hnd.
  - now split.
  - cbn [keys map fst] in Hnd. apply NoDup_cons in Hnd as [Hk Hnd].
    cbn [assoc]. unfold FormState.setErrors. cbn [fold_left].
    fold (FormState.setErrors newErrors (FormState.setError s (k, e))).
    destruct (String.eqb_spec k key) as [->|Hne].
    + destruct (setErrors_other newErrors (FormState.setError s (key, e)) key)
        as [He Ht].
      { intros H. apply Hk. now apply list_elem_of_In. }
      destruct e as [[|first rest]|]; [now split | | now split].
      assert (He' : FormState.errors
                      (FormState.setErrors newErrors
                         (FormState.setError s (key, Some (first :: rest))))
                    !! key = Some (first :: rest)).
      { rewrite He. cbn. apply lookup_insert_eq. }
      assert (Ht' : FormState.touched
                      (FormState.setErrors newErrors
                         (FormState.setError s (key, Some (first :: rest))))
                    !! key = Some true).
      { rewrite Ht. cbn. apply lookup_insert_eq. }
      unfold FormState.allErrors, FormState.isTouched, FormState.hasError,
        FormState.error.
      rewrite He', Ht'. repeat split.
      now apply (hasAnyErrors_true _ key first rest).
    + specialize (IH (FormState.setError s (k, e)) Hnd).
      destruct (setError_other s (k, e) key Hne) as [He Ht].
      destruct (assoc key newErrors) as [[[|first rest]|]|];
        try exact IH; destruct IH as [IH1 IH2]; split; congruence.
Qed.

Lemma resetKey_records key (s : FormState.T) :
  FormState.errors (FormState.resetKey key s) = <[key := []]> (FormState.errors s)
  /\ FormState.touched (FormState.resetKey key s)
     = <[key := false]> (FormState.touched s)
  /\ FormState.dirty (FormState.resetKey key s)
     = <[key := false]> (FormState.dirty s)
  /\ FormState.isValidating (FormState.resetKey key s)
     = <[key := false]> (FormState.isValidating s).
Proof. repeat split. Qed.

Lemma clearKey_records useInitial (s : FormState.T) key :
  FormState.errors (FormState.clearKey useInitial s key)
  = <[key := []]> (FormState.errors s)
  /\ FormState.touched (FormState.clearKey useInitial s key)
     = <[key := false]> (FormState.touched s)
  /\ FormState.dirty (FormState.clearKey useInitial s key)
     = <[key := false]> (FormState.dirty s)
  /\ FormState.isValidating (FormState.clearKey useInitial s key)
     = <[key := false]> (FormState.isValidating s)
  /\ FormState.initialValues (FormState.clearKey useInitial s key)
     = FormState.initialValues s.
Proof.
  unfold FormState.clearKey.
  destruct (if useInitial then _ else _) as [value next]. repeat split.
Qed.

Lemma fold_resetAt (step : FormState.T -> string -> FormState.T) :
  (forall acc key,
      FormState.errors (step acc key) = <[key := []]> (FormState.errors acc)
      /\ FormState.touched (step acc key)
         = <[key := false]> (FormState.touched acc)
      /\ FormState.dirty (step acc key)
         = <[key := false]> (FormState.dirty acc)
      /\ FormState.isValidating (step acc key)
         = <[key := false]> (FormState.isValidating acc)) ->
  forall visited q s, resetAt visited q s (fold_left step visited s).
Proof.
  intros Hstep visited q s. unfold resetAt.
  rewrite (fold_bind_const FormState.errors [] step) by (intros; apply Hstep).
  rewrite (fold_bind_const FormState.touched false step)
    by (intros; apply Hstep).
  rewrite (fold_bind_const FormState.dirty false step)
    by (intros; apply Hstep).
  rewrite (fold_bind_const FormState.isValidating false step)
    by (intros; apply Hstep).
  repeat split.
Qed.

(** X14: the reach of the three resets.  [resetState], [clear] and [reset]
    visit the top-level keys (of the values for the first two, of the
    initial values for the third): for these the error list is emptied
    and the touched, dirty and in-progress flags are lowered.  Every other
    key, a nested path such as [contacts.0.email] among them, keeps what
    it had; an error recorded under such a key therefore survives
    [resetState], which changes no value. *)
Theorem resets_reach_top_level_keys (s : FormState.T) (q : string) :
  resetAt (keys (ownFields (FormState.values s))) q s (FormState.resetState s)
  /\ (forall useInitial,
         resetAt (keys (ownFields (FormState.values s))) q s
           (FormState.clear useInitial s))
  /\ resetAt (keys (ownFields (FormState.initialValues s))) q s
       (FormState.reset None s)
  /\ FormState.values (FormState.resetState s) = FormState.values s
  /\ (forall first rest,
         q ∉ keys (ownFields (FormState.values s)) ->
         FormState.errors s !! q = Some (first :: rest) ->
         FormState.hasAnyErrors (FormState.resetState s) = true).
Proof.
  assert (Hstate : resetAt (keys (ownFields (FormState.values s))) q s
                     (FormState.resetState s)).
  { unfold FormState.resetState.
    apply (fold_resetAt (fun acc key => FormState.resetKey key acc)).
    intros acc key. apply resetKey_records. }
  split; [exact Hstate|]. split; [|split; [|split]].
  - intros useInitial. unfold FormState.clear.
    pose proof (fold_resetAt (FormState.clearKey useInitial)) as H.
    specialize (H (fun acc key =>
                     let '(conj a (conj b (conj c (conj d _))))
                       := clearKey_records useInitial acc key in
                     conj a (conj b (conj c d)))).
    exact (H (keys (ownFields (FormState.values s))) q s).
  - unfold FormState.reset.
    match goal with
    | |- resetAt _ _ _ (fold_left ?step _ ?s0) =>
        pose proof (fold_resetAt step) as H; specialize (H (fun acc key =>
          conj eq_refl (conj eq_refl (conj eq_refl eq_refl))));
        exact (H (keys (ownFields (FormState.initialValues s))) q s0)
    end.
  - unfold FormState.resetState.
    now apply (fold_keeps FormState.values
                 (fun acc key => FormState.resetKey key acc)).
  - intros first rest Hout Herr. apply (hasAnyErrors_true _ q first rest).
    destruct Hstate as [He _]. rewrite He.
    now rewrite bool_decide_eq_false_2.
Qed.

(** X15: what [validateForm] resolves to is [!hasAnyErrors] of the error
    store it leaves behind, conditionally inactive fields included; when
    it is [true] and nothing is being validated any more, [isValid] holds
    as well. *)
Theorem validateForm_answers_hasAnyErrors settle touched m m' touched' valid
  (s : FormState.T) :
  validateForm_run settle touched m = (m', touched', Some (Normal valid)) ->
  FormState.errors s = errors m' ->
  FormState.isValidating s = isValidating m' ->
  valid = negb (FormState.hasAnyErrors s)
  /\ (valid = true ->
      (forall key b, isValidating m' !! key = Some b -> b = false) ->
      FormState.isValid s = true).
Proof.
  intros Hrun He Hv.
  assert (Hvalid : valid = negb (FormState.hasAnyErrors s)).
  { unfold validateForm_run in Hrun.
    destruct (validateForm_begin touched m) as [[m1 t1] allFields].
    destruct (startAll allFields m1) as [m2 started].
    destruct (driveAll settle started m2) as [m3 results].
    destruct (allEnded results) as [completions|]; [|discriminate Hrun].
    destruct (promiseAll completions); [|discriminate Hrun].
    destruct (validateForm_end allFields m3) as [m4 v] eqn:Eend.
    injection Hrun as <- _ <-.
    pose proof (validateForm_end_iff allFields m3) as Hiff.
    rewrite Eend in Hiff. cbn [fst snd] in Hiff.
    destruct (FormState.hasAnyErrors s) eqn:Eh; cbn [negb].
    - destruct v; [|reflexivity]. exfalso.
      assert (Hnone : FormState.hasAnyErrors s = false).
      { apply hasAnyErrors_false. intros key e Hk. rewrite He in Hk.
        now apply (proj1 Hiff eq_refl key e). }
      congruence.
    - apply Hiff. intros key e Hk. rewrite <- He in Hk.
      now apply (proj1 (hasAnyErrors_false s) Eh key e). }
  split; [exact Hvalid|]. intros -> Hidle.
  apply isValid_without_errors.
  - now destruct (FormState.hasAnyErrors s).
  - now rewrite Hv.
Qed.

Lemma assoc_app_other {A} (k k' : string) (x : A) (l : list (string * A)) :
  k <> k' -> assoc k' (l ++ [(k, x)]) = assoc k' l.
Proof.
  intros Hne. induction l as [|[k0 y] l IH]; cbn [assoc app].
  - destruct (String.eqb_spec k k'); [contradiction | reflexivity].
  - now rewrite IH.
Qed.

Lemma assoc_insertIndexed_other (i : nat) (k k' : string) (x : JsValue) fields :
  k <> k' -> assoc k' (insertIndexed i k x fields) = assoc k' fields.
Proof.
  intros Hne.
  assert (E : String.eqb k k' = false) by now apply String.eqb_neq.
  induction fields as [|[k0 y] fields IH]; cbn [assoc insertIndexed].
  - now rewrite E.
  - destruct (arrayIndex k0) as [j|]; [destruct (Nat.ltb j i)|];
      cbn [assoc]; rewrite ?E, ?IH; reflexivity.
Qed.

Lemma assoc_objSet_other (k k' : string) (x : JsValue) fields :
  k <> k' -> assoc k' (objSet k x fields) = assoc k' fields.
Proof.
  intros Hne. unfold objSet. destruct (assoc k fields).
  - rewrite assoc_rset.
    destruct (String.eqb_spec k k'); [contradiction | reflexivity].
  - destruct (arrayIndex k).
    + now apply assoc_insertIndexed_other.
    + now apply assoc_app_other.
Qed.

Lemma getProp_assign r fields k x q :
  getProp (FormState.assign (JObj r fields) k x) q
  = if String.eqb k q then x else getProp (JObj r fields) q.
Proof.
  cbn [FormState.assign getProp].
  destruct (String.eqb_spec k q) as [->|Hne].
  - now rewrite assoc_objSet.
  - now rewrite assoc_objSet_other.
Qed.

(** [Object.assign(target, source)] on a plain object: a key of the source
    reads as in the source afterwards, any other key as before. *)
Lemma fold_assign_lookup (writes : list (string * JsValue)) :
  forall r fields q,
    NoDup (keys writes) ->
    exists fields',
      fold_left (fun acc kv => FormState.assign acc (fst kv) (snd kv)) writes
        (JObj r fields) = JObj r fields'
      /\ assoc q fields'
         = match assoc q writes with
           | Some x => Some x
           | None => assoc q fields
           end.
Proof.
  induction writes as [|[k x] writes IH]; intros r fields q Hnd.
  - now exists fields.
  - cbn [keys map fst] in Hnd. apply NoDup_cons in Hnd as [Hk Hnd].
    cbn [fold_left fst snd FormState.assign].
    destruct (IH r (objSet k x fields) q Hnd) as (fields' & E & Hq).
    exists fields'. split; [exact E|]. rewrite Hq. cbn [assoc].
    destruct (String.eqb_spec k q) as [->|Hne].
    + assert (Hnone : assoc q writes = None).
      { destruct (assoc q writes) eqn:Ea; [|reflexivity]. exfalso.
        apply Hk, list_elem_of_In. clear -Ea.
        induction writes as [|[k0 y] writes IH]; [discriminate|].
        cbn [assoc] in Ea. cbn [keys map fst].
        destruct (String.eqb_spec k0 q) as [->|_]; [now left|].
        right. now apply IH. }
      rewrite Hnone. apply assoc_objSet.
    + destruct (assoc q writes); [reflexivity|].
      now apply assoc_objSet_other.
Qed.

Lemma reset_initialValues newValues (s : FormState.T) :
  FormState.initialValues (FormState.reset newValues s)
  = match newValues with
    | Some nv =>
        if truthy nv
        then fold_left (fun acc kv => FormState.assign acc (fst kv) (snd kv))
               (ownFields nv) (FormState.initialValues s)
        else FormState.initialValues s
    | None => FormState.initialValues s
    end.
Proof.
  unfold FormState.reset.
  match goal with
  | |- FormState.initialValues (fold_left ?step ?visited ?s0) = _ =>
      now rewrite (fold_keeps FormState.initialValues step)
  end.
Qed.

Lemma deepEqual_same (v : JsValue) :
  deepEqual v v = match v with JNum x => negb (num_is_nan x) | _ => true end.
Proof.
  destruct v as [| |b|x|s0|r t|r n sz l|r|r items|r fields];
    try reflexivity.
  - cbn. now destruct b.
  - destruct x as [sg|sg| |sg mt e]; cbn; try reflexivity.
    + now destruct sg.
    + unfold SFeqb. cbn.
      rewrite Z.compare_refl, Pos.compare_cont_refl. now destruct sg.
  - cbn. now rewrite String.eqb_refl.
  - cbn. now rewrite Nat.eqb_refl.
  - cbn. now rewrite Nat.eqb_refl.
  - cbn. now rewrite Nat.eqb_refl.
  - cbn [deepEqual strictEq]. now rewrite Nat.eqb_refl.
  - cbn [deepEqual strictEq]. now rewrite Nat.eqb_refl.
Qed.

(** X16: [reset(newValues)] moves the baseline of the dirty check.  For a
    key of [newValues], the initial value becomes the new one and the
    field is clean; from then on [markDirty] reports the field dirty
    exactly when the value does not deep-equal the new initial value, so
    that a field marked with its new initial value is clean unless that
    value is NaN. *)
Theorem reset_rebases_dirty (s : FormState.T) (r0 rn : ref)
  (fields0 fieldsn : list (string * JsValue)) (key : string)
  (value : JsValue) :
  FormState.initialValues s = JObj r0 fields0 ->
  NoDup (keys fieldsn) -> In key (keys fieldsn) ->
  let newValues := JObj rn fieldsn in
  let s1 := FormState.reset (Some newValues) s in
  getProp (FormState.initialValues s1) key = getProp newValues key
  /\ FormState.isFieldDirty key s1 = false
  /\ FormState.isFieldDirty key (FormState.markDirty key value s1)
     = negb (deepEqual value (getProp newValues key))
  /\ FormState.isFieldDirty key
       (FormState.markDirty key (getProp newValues key) s1)
     = match getProp newValues key with
       | JNum x => num_is_nan x
       | _ => false
       end.
Proof.
  intros Hinit Hnd Hin. cbv zeta.
  assert (Hget : getProp (FormState.initialValues
                            (FormState.reset (Some (JObj rn fieldsn)) s)) key
                 = getProp (JObj rn fieldsn) key).
  { rewrite reset_initialValues. cbn [truthy ownFields]. rewrite Hinit.
    destruct (fold_assign_lookup fieldsn r0 fields0 key Hnd)
      as (fields' & -> & Hq).
    cbn [getProp]. rewrite Hq.
    destruct (assoc key fieldsn) eqn:E; [reflexivity|]. exfalso.
    clear -Hin E. induction fieldsn as [|[k0 y] fieldsn IH]; [destruct Hin|].
    cbn [assoc] in E. cbn [keys map fst] in Hin.
    destruct (String.eqb_spec k0 key) as [->|Hne]; [discriminate|].
    destruct Hin as [H|H]; [contradiction | now apply IH]. }
  assert (Hvisited : key ∈ keys (ownFields
                                   (FormState.initialValues
                                      (FormState.reset (Some (JObj rn fieldsn)) s)))).
  { rewrite reset_initialValues. cbn [truthy ownFields]. rewrite Hinit.
    destruct (fold_assign_lookup fieldsn r0 fields0 key Hnd)
      as (fields' & -> & Hq).
    cbn [ownFields]. apply list_elem_of_In.
    assert (Hsome : is_Some (assoc key fields')).
    { rewrite Hq. destruct (assoc key fieldsn) eqn:E; [now eexists|].
      exfalso. clear -Hin E.
      induction fieldsn as [|[k0 y] fieldsn IH]; [destruct Hin|].
      cbn [assoc] in E. cbn [keys map fst] in Hin.
      destruct (String.eqb_spec k0 key) as [->|Hne]; [discriminate|].
      destruct Hin as [H|H]; [contradiction | now apply IH]. }
    clear -Hsome. induction fields' as [|[k0 y] fields' IH];
      [now destruct Hsome|].
    cbn [assoc] in Hsome. cbn [keys map fst].
    destruct (String.eqb_spec k0 key) as [->|_]; [now left|].
    right. now apply IH. }
  split; [exact Hget|]. split; [|split].
  - unfold FormState.isFieldDirty, FormState.reset.
    match goal with
    | |- context [FormState.dirty (fold_left ?step ?visited ?s0)] =>
        rewrite (fold_bind_const FormState.dirty false step) by reflexivity
    end.
    rewrite reset_initialValues in Hvisited. cbn [truthy] in Hvisited.
    now rewrite bool_decide_eq_true_2.
  - unfold FormState.isFieldDirty, FormState.markDirty.
    cbn [FormState.dirty]. rewrite lookup_insert_eq. cbn [default].
    now rewrite Hget.
  - unfold FormState.isFieldDirty, FormState.markDirty.
    cbn [FormState.dirty]. rewrite lookup_insert_eq. cbn [default].
    rewrite Hget, deepEqual_same.
    destruct (getProp (JObj rn fieldsn) key); try reflexivity.
    apply negb_involutive.
Qed.

Lemma clearKey_values useInitial (s : FormState.T) key r fields :
  FormState.values s = JObj r fields ->
  exists fields' n,
    FormState.values (FormState.clearKey useInitial s key) = JObj r fields'
    /\ (forall q, q <> key -> assoc q fields' = assoc q fields)
    /\ assoc key fields'
       = Some (if useInitial then getProp (FormState.initialValues s) key
               else fst (FormState.getEmptyValue
                           (getProp (FormState.initialValues s) key) n)).
Proof.
  intros Hv. unfold FormState.clearKey.
  destruct useInitial.
  - exists (objSet key (getProp (FormState.initialValues s) key) fields), 0.
    cbn. rewrite Hv. cbn. split; [reflexivity|]. split.
    + intros q Hq. apply assoc_objSet_other. congruence.
    + apply assoc_objSet.
  - destruct (FormState.getEmptyValue
                (getProp (FormState.initialValues s) key) (FormState.nextRef s))
      as [value next] eqn:E.
    exists (objSet key value fields), (FormState.nextRef s).
    cbn. rewrite Hv, E. cbn. split; [reflexivity|]. split.
    + intros q Hq. apply assoc_objSet_other. congruence.
    + apply assoc_objSet.
Qed.

Lemma fold_clearKey_values useInitial visited :
  forall (s : FormState.T) r fields,
    FormState.values s = JObj r fields ->
    exists fields',
      FormState.values (fold_left (FormState.clearKey useInitial) visited s)
      = JObj r fields'
      /\ (forall q, q ∉ visited -> assoc q fields' = assoc q fields)
      /\ (forall q, q ∈ visited ->
            exists n,
              assoc q fields'
              = Some (if useInitial
                      then getProp (FormState.initialValues s) q
                      else fst (FormState.getEmptyValue
                                  (getProp (FormState.initialValues s) q) n))).
Proof.
  induction visited as [|key visited IH]; intros s r fields Hv;
    cbn [fold_left].
  - exists fields. split; [exact Hv|]. split; [reflexivity|].
    intros q Hq. now apply not_elem_of_nil in Hq.
  - destruct (clearKey_values useInitial s key r fields Hv)
      as (fields1 & n1 & Hv1 & Hother1 & Hkey1).
    destruct (IH _ r fields1 Hv1) as (fields' & Hv' & Hout & Hin).
    assert (Hinit : FormState.initialValues (FormState.clearKey useInitial s key)
                    = FormState.initialValues s)
      by apply clearKey_records.
    rewrite Hinit in Hin.
    exists fields'. split; [exact Hv'|]. split.
    + intros q Hq. apply not_elem_of_cons in Hq as [Hne Hq].
      rewrite (Hout q Hq). now apply Hother1.
    + intros q Hq. destruct (decide (q ∈ visited)) as [Hv2|Hv2].
      * now apply Hin.
      * apply elem_of_cons in Hq as [->|Hq]; [|contradiction].
        exists n1. now rewrite (Hout key Hv2).
Qed.

(** X17: [clear()] empties every field to the empty value of the type of
    its initial value: [''] for a string, [0] for a number, [false] for a
    boolean, a new empty array for an array, [null] for anything else; it
    calls [onClear] once.  A [required] rule therefore rejects every
    cleared field except those that started as a number or a boolean. *)
Theorem clear_empties_every_field (s : FormState.T) (r : ref)
  (fields : list (string * JsValue)) (key : string)
  (settle : Rule -> JsValue -> Settlement) (id : nat) (msg : string)
  (allValues : JsValue) :
  FormState.values s = JObj r fields -> In key (keys fields) ->
  let s' := FormState.clear false s in
  let initial := getProp (FormState.initialValues s) key in
  let cleared := getProp (FormState.values s') key in
  match initial with
  | JStr _ => cleared = JStr ""
  | JNum _ => cleared = JNum (S754_zero false)
  | JBool _ => cleared = JBool false
  | JArr _ _ => exists address, cleared = JArr address []
  | _ => cleared = JNull
  end
  /\ ruleVerdict settle cleared allValues (required id msg)
     = match initial with
       | JNum _ | JBool _ => Passes
       | _ => Fails [if String.eqb msg "" then "This field is required"
                     else msg]
       end
  /\ FormState.onClearCalls s' = S (FormState.onClearCalls s).
Proof.
  intros Hv Hin. cbv zeta.
  destruct (fold_clearKey_values false (keys (ownFields (FormState.values s)))
              s r fields Hv) as (fields' & Hv' & _ & Hvisited).
  destruct (Hvisited key) as (n & Hkey).
  { rewrite Hv. now apply list_elem_of_In. }
  assert (Hcleared : getProp (FormState.values (FormState.clear false s)) key
                     = fst (FormState.getEmptyValue
                              (getProp (FormState.initialValues s) key) n)).
  { unfold FormState.clear. cbn [FormState.values]. rewrite Hv'.
    cbn [getProp]. now rewrite Hkey. }
  rewrite Hcleared. split; [|split].
  - destruct (getProp (FormState.initialValues s) key); cbn; eauto.
  - assert (Hmsg : forall message : string,
               message <> "" ->
               verdictOfResult (JStr message) = Fails [message]).
    { intros [|c message] Hne; [contradiction | reflexivity]. }
    assert (Hne : (if String.eqb msg "" then "This field is required" else msg)
                  <> "").
    { destruct (String.eqb_spec msg ""); [discriminate | assumption]. }
    unfold ruleVerdict.
    destruct (getProp (FormState.initialValues s) key);
      cbn [FormState.getEmptyValue fst required rule_call];
      try (now apply Hmsg); reflexivity.
  - unfold FormState.clear. cbn [FormState.onClearCalls]. f_equal.
    apply (fold_keeps FormState.onClearCalls (FormState.clearKey false)).
    intros acc b. unfold FormState.clearKey.
    destruct (FormState.getEmptyValue
                (getProp (FormState.initialValues acc) b)
                (FormState.nextRef acc)). reflexivity.
Qed.

Lemma setErrors_records_witness :
  FormState.allErrors "email" (FormState.setErrors sampleServerErrors sampleState)
  = ["Taken"]
  /\ FormState.isTouched "email"
       (FormState.setErrors sampleServerErrors sampleState) = true
  /\ FormState.hasError "email"
       (FormState.setErrors sampleServerErrors sampleState) = true
  /\ FormState.error "email"
       (FormState.setErrors sampleServerErrors sampleState) = Some "Taken"
  /\ FormState.hasAnyErrors
       (FormState.setErrors sampleServerErrors sampleState) = true.
Proof.
  apply (setErrors_records sampleServerErrors sampleState "email").
  apply (bool_decide_unpack _). vm_compute. exact I.
Defined.

Lemma validateForm_answers_hasAnyErrors_witness :
  false = negb (FormState.hasAnyErrors sampleStateValidated)
  /\ (false = true ->
      (forall key b,
          isValidating (fst (fst sampleValidated)) !! key = Some b ->
          b = false) ->
      FormState.isValid sampleStateValidated = true).
Proof.
  apply (validateForm_answers_hasAnyErrors sampleSettle None sampleManager
           (fst (fst sampleValidated)) None false sampleStateValidated).
  - vm_compute. reflexivity.
  - reflexivity.
  - reflexivity.
Defined.

Lemma reset_rebases_dirty_witness :
  getProp
    (FormState.initialValues
       (FormState.reset (Some (JObj 400 [("email", JStr "new@example.org")]))
          sampleState)) "email"
  = getProp (JObj 400 [("email", JStr "new@example.org")]) "email"
  /\ FormState.isFieldDirty "email"
       (FormState.reset (Some (JObj 400 [("email", JStr "new@example.org")]))
          sampleState) = false
  /\ FormState.isFieldDirty "email"
       (FormState.markDirty "email" (JStr "typed")
          (FormState.reset
             (Some (JObj 400 [("email", JStr "new@example.org")]))
             sampleState))
     = negb (deepEqual (JStr "typed")
               (getProp (JObj 400 [("email", JStr "new@example.org")]) "email"))
  /\ FormState.isFieldDirty "email"
       (FormState.markDirty "email"
          (getProp (JObj 400 [("email", JStr "new@example.org")]) "email")
          (FormState.reset
             (Some (JObj 400 [("email", JStr "new@example.org")]))
             sampleState))
     = false.
Proof.
  apply (reset_rebases_dirty sampleState 300 400 (ownFields sampleForm)
           [("email", JStr "new@example.org")] "email" (JStr "typed")).
  - reflexivity.
  - apply (bool_decide_unpack _). vm_compute. exact I.
  - left. reflexivity.
Defined.

Lemma clear_empties_every_field_witness :
  (exists address,
      getProp (FormState.values (FormState.clear false sampleState)) "contacts"
      = JArr address [])
  /\ ruleVerdict sampleSettle
       (getProp (FormState.values (FormState.clear false sampleState))
          "contacts")
       JNull (required 1 "")
     = Fails ["This field is required"]
  /\ FormState.onClearCalls (FormState.clear false sampleState)
     = S (FormState.onClearCalls sampleState).
Proof.
  apply (clear_empties_every_field sampleState 301 (ownFields sampleForm)
           "contacts" sampleSettle 1 "" JNull).
  - reflexivity.
  - right. right. left. reflexivity.
Defined.

(** ** Snapshots: a clone is made of new objects *)





(** ** The array helpers of the form *)









Lemma clearArrayCache_values arrayPath m :
  values (clearArrayCache arrayPath m) = values m
  /\ nextRef (clearArrayCache arrayPath m) = nextRef m.
Proof.
  rewrite clearArrayCache_unfold. split.
  - now rewrite (fold_keeps values forgetController)
      by (intros acc b; unfold forgetController;
          now destruct (abortControllers acc !! b)).
  - now rewrite (fold_keeps nextRef forgetController)
      by (intros acc b; unfold forgetController;
          now destruct (abortControllers acc !! b)).
Qed.







Lemma clearArrayCache_drops arrayPath m q :
  expandedRulesCache (clearArrayCache arrayPath m) = None
  /\ (Str.startsWith q (arrayPath ++ ".") = true ->
      validationCache (clearArrayCache arrayPath m) !! q = None).
Proof.
  rewrite clearArrayCache_unfold.
  match goal with
  | |- context [fold_left forgetController ?visited ?acc] =>
      destruct (fold_forgetController_frame visited acc) as (Hc & _ & Hx & _)
  end.
  cbv zeta in Hc, Hx. rewrite Hc, Hx. split; [reflexivity|].
  intros Hpre. simpl. apply map_lookup_filter_None. right. intros x _. simpl.
  congruence.
Qed.

Lemma splice1_inside {A} (i : nat) (l : list A) :
  i < List.length l ->
  splice1 (Z.of_nat i) l = firstn i l ++ skipn (S i) l
  /\ List.length (splice1 (Z.of_nat i) l) = pred (List.length l).
Proof.
  intros Hlt. unfold splice1.
  destruct (Z.ltb_spec (Z.of_nat i) 0); [lia|].
  rewrite Z.min_l, Nat2Z.id by lia. split; [reflexivity|].
  rewrite length_app, length_firstn, length_skipn. lia.
Qed.

Lemma splice1_past {A} (index : Z) (l : list A) :
  (Z.of_nat (List.length l) <= index)%Z -> splice1 index l = l.
Proof.
  intros Hge. unfold splice1.
  destruct (Z.ltb_spec index 0); [lia|].
  rewrite Z.min_r, Nat2Z.id by lia.
  rewrite firstn_all, skipn_all2 by (cbn; lia). apply app_nil_r.
Qed.

Lemma splice1_negative {A} (index : Z) (l : list A) :
  (- Z.of_nat (List.length l) <= index < 0)%Z ->
  splice1 index l = splice1 (Z.of_nat (List.length l) + index) l.
Proof.
  intros Hrange. unfold splice1.
  destruct (Z.ltb_spec index 0); [|lia].
  destruct (Z.ltb_spec (Z.of_nat (List.length l) + index) 0); [lia|].
  now rewrite Z.max_l, Z.min_l by lia.
Qed.

(** X19: the array helpers edit the array in place and forget what was
    cached under it.  [addArrayItem] pushes the item onto the array the
    field holds (the array keeps its address); [removeArrayItem] splices
    one element out: the element at the index when the index is in range,
    none when it is past the end, the one counted from the end when it is
    negative.  Both drop the memoised expansion and every cache entry of
    a path under the array, so that the element paths are validated anew;
    the wildcard rule path of the array expands to one more key as soon
    as the item is added. *)
Theorem array_helpers_edit_in_place (f : Form) (arrayField property : string)
  (item : JsValue) (index : Z) (rv r : ref)
  (fields : list (string * JsValue)) (items : list JsValue) (q : string)
  (ra : RuleArray) :
  values (validationManager f) = JObj rv fields ->
  assoc arrayField fields = Some (JArr r items) ->
  let added := validationManager (addArrayItem arrayField item f) in
  let removed := validationManager (removeArrayItem arrayField index f) in
  getProp (values added) arrayField = JArr r (items ++ [item])
  /\ getProp (values removed) arrayField = JArr r (splice1 index items)
  /\ (forall i, index = Z.of_nat i -> i < List.length items ->
                splice1 index items = firstn i items ++ skipn (S i) items
                /\ List.length (splice1 index items)
                   = pred (List.length items))
  /\ ((Z.of_nat (List.length items) <= index)%Z -> splice1 index items = items)
  /\ ((- Z.of_nat (List.length items) <= index < 0)%Z ->
      splice1 index items
      = splice1 (Z.of_nat (List.length items) + index) items)
  /\ expandedRulesCache added = None /\ expandedRulesCache removed = None
  /\ (Str.startsWith q (arrayField ++ ".") = true ->
      validationCache added !! q = None
      /\ validationCache removed !! q = None)
  /\ (Str.includes_char "." arrayField = false ->
      Str.includes_char "." property = false ->
      arrayField <> "" -> arrayField <> "*" -> property <> "*" ->
      keys (expandEntry (values added)
              ((arrayField ++ ".*." ++ property)%string, ra))
      = map (fun i => arrayPath arrayField i property)
          (seq 0 (S (List.length items)))).
Proof.
  intros Hv Hfield. cbv zeta.
  assert (Hget : getProp (values (validationManager f)) arrayField
                 = JArr r items).
  { rewrite Hv. cbn [getProp]. now rewrite Hfield. }
  assert (Hadded : values (validationManager (addArrayItem arrayField item f))
                   = FormState.assign (JObj rv fields) arrayField
                       (JArr r (items ++ [item]))).
  { unfold addArrayItem. cbn [validationManager withManager].
    rewrite (proj1 (clearArrayCache_values _ _)), Hget. cbn [values set_values].
    now rewrite Hv. }
  assert (Hremoved :
            values (validationManager (removeArrayItem arrayField index f))
            = FormState.assign (JObj rv fields) arrayField
                (JArr r (splice1 index items))).
  { unfold removeArrayItem. cbn [validationManager withManager].
    rewrite (proj1 (clearArrayCache_values _ _)), Hget. cbn [values set_values].
    now rewrite Hv. }
  assert (Hgetadded :
            getProp (values (validationManager (addArrayItem arrayField item f)))
              arrayField = JArr r (items ++ [item])).
  { rewrite Hadded, getProp_assign. now rewrite String.eqb_refl. }
  split; [exact Hgetadded|]. split.
  { rewrite Hremoved, getProp_assign. now rewrite String.eqb_refl. }
  split. { intros i -> Hlt. now apply splice1_inside. }
  split; [apply splice1_past|]. split; [apply splice1_negative|].
  split; [apply clearArrayCache_drops; exact q|].
  split; [apply clearArrayCache_drops; exact q|]. split.
  - intros Hpre. split; now apply clearArrayCache_drops.
  - intros Hf Hp Hne Hfs Hps.
    rewrite (wildcard_entry_expands _ arrayField property ra r (items ++ [item])
               Hf Hp Hne Hfs Hps Hgetadded).
    unfold keys. rewrite map_map. cbn [fst].
    rewrite length_app. cbn [List.length]. now rewrite Nat.add_1_r.
Qed.



Lemma array_helpers_edit_in_place_witness :
  getProp
    (values (validationManager
               (addArrayItem "contacts" sampleNewContact sampleFormInstance)))
    "contacts"
  = JArr 2 ([JObj 3 [("email", JStr "")]] ++ [sampleNewContact])
  /\ getProp
       (values (validationManager
                  (removeArrayItem "contacts" 0 sampleFormInstance)))
       "contacts"
     = JArr 2 (splice1 0 [JObj 3 [("email", JStr "")]]).
Proof.
  destruct (array_helpers_edit_in_place sampleFormInstance "contacts" "email"
              sampleNewContact 0 1 2 (ownFields sampleForm)
              [JObj 3 [("email", JStr "")]] "contacts.0.email"
              sampleContactRules eq_refl eq_refl) as (Hadd & Hremove & _).
  split; [exact Hadd | exact Hremove].
Defined.


(** ** Rules: the pattern of [email] *)

Lemma append_cons_l (c : ascii) (s t : string) :
  (String c s ++ t)%string = String c (s ++ t).
Proof. reflexivity. Qed.

Lemma append_nil_l (t : string) : ("" ++ t)%string = t.
Proof. reflexivity. Qed.

Lemma append_eq_empty (s t : string) :
  (s ++ t)%string = "" -> s = "" /\ t = "".
Proof.
  destruct s as [|c s]; intros E.
  - split; [reflexivity | exact E].
  - rewrite append_cons_l in E. discriminate E.
Qed.

Lemma Matches_Seq_inv a b w :
  Regex.Matches (Regex.Seq a b) w ->
  exists s t, w = (s ++ t)%string /\ Regex.Matches a s /\ Regex.Matches b t.
Proof. intros H. inversion H; subst. eauto. Qed.

Lemma Matches_Class_inv p w :
  Regex.Matches (Regex.Class p) w -> exists c, w = String c "" /\ p c = true.
Proof. intros H. inversion H; subst. eauto. Qed.

Lemma Matches_nil_nullable r s :
  Regex.Matches r s -> s = "" -> Regex.nullable r = true.
Proof.
  induction 1 as [|p c Hp|a b s t _ IHa _ IHb|a b s _ IH|a b s _ IH|a
                  |a s t _ _ _ _]; intros E; cbn [Regex.nullable];
    try reflexivity.
  - discriminate E.
  - apply append_eq_empty in E as [-> ->]. now rewrite IHa, IHb.
  - now rewrite IH.
  - rewrite IH by exact E. apply orb_true_r.
Qed.

Lemma nullable_Matches r : Regex.nullable r = true -> Regex.Matches r "".
Proof.
  induction r as [| |p|a IHa b IHb|a IHa b IHb|a IH]; cbn [Regex.nullable];
    intros E; try discriminate E.
  - constructor.
  - apply andb_true_iff in E as [Ea Eb].
    change (Regex.Matches (Regex.Seq a b) ("" ++ "")). constructor; auto.
  - apply orb_true_iff in E as [E|E];
      [apply Regex.MAltL | apply Regex.MAltR]; auto.
  - constructor.
Qed.

Lemma Matches_Star_cons a c s :
  Regex.Matches (Regex.Star a) (String c s) ->
  exists s1 s2,
    s = (s1 ++ s2)%string /\ Regex.Matches a (String c s1)
    /\ Regex.Matches (Regex.Star a) s2.
Proof.
  remember (Regex.Star a) as r eqn:Er. remember (String c s) as w eqn:Ew.
  intros H. revert c s Er Ew.
  induction H as [|p x Hp|a0 b u t _ _ _ _|a0 b u _ _|a0 b u _ _|a0
                  |a0 u t Hu _ Ht IHt]; intros c s Er Ew;
    try discriminate Er; try discriminate Ew.
  injection Er as ->. destruct u as [|x u].
  - apply (IHt c s eq_refl Ew).
  - rewrite append_cons_l in Ew. injection Ew as -> <-. exists u, t. auto.
Qed.

Lemma deriv_Matches c r :
  forall s, Regex.Matches (Regex.deriv c r) s <-> Regex.Matches r (String c s).
Proof.
  induction r as [| |p|a IHa b IHb|a IHa b IHb|a IH]; intros s;
    cbn [Regex.deriv].
  - split; intros H; inversion H.
  - split; intros H; inversion H.
  - destruct (p c) eqn:Hp; split; intros H; inversion H; subst.
    + now constructor.
    + constructor.
    + congruence.
  - assert (Hl : forall s,
               Regex.Matches (Regex.Seq (Regex.deriv c a) b) s ->
               Regex.Matches (Regex.Seq a b) (String c s)).
    { intros w H. apply Matches_Seq_inv in H as (u & t & -> & Hu & Ht).
      apply IHa in Hu.
      change (Regex.Matches (Regex.Seq a b) (String c u ++ t)).
      now constructor. }
    assert (Hr : forall s,
               Regex.Matches (Regex.Seq a b) (String c s) ->
               Regex.Matches (Regex.Seq (Regex.deriv c a) b) s
               \/ (Regex.nullable a = true
                   /\ Regex.Matches (Regex.deriv c b) s)).
    { intros w H. apply Matches_Seq_inv in H as (u & t & E & Hu & Ht).
      destruct u as [|x u].
      - rewrite append_nil_l in E. right.
        split; [now apply (Matches_nil_nullable a "")|].
        apply IHb. now rewrite E.
      - rewrite append_cons_l in E. injection E as <- ->. left. constructor; [now apply IHa | exact Ht]. }
    destruct (Regex.nullable a) eqn:Na; split; intros H.
    + inversion H; subst; [now apply Hl|].
      change (Regex.Matches (Regex.Seq a b) ("" ++ String c s)).
      constructor; [now apply nullable_Matches | now apply IHb].
    + destruct (Hr s H) as [H'|[_ H']];
        [now apply Regex.MAltL | now apply Regex.MAltR].
    + now apply Hl.
    + destruct (Hr s H) as [H'|[E _]]; [exact H' | discriminate E].
  - split; intros H; inversion H; subst.
    + apply Regex.MAltL. now apply IHa.
    + apply Regex.MAltR. now apply IHb.
    + apply Regex.MAltL. now apply IHa.
    + apply Regex.MAltR. now apply IHb.
  - split; intros H.
    + apply Matches_Seq_inv in H as (u & t & -> & Hu & Ht).
      apply IH in Hu.
      change (Regex.Matches (Regex.Star a) (String c u ++ t)).
      now constructor.
    + apply Matches_Star_cons in H as (s1 & s2 & -> & H1 & H2).
      constructor; [now apply IH | exact H2].
Qed.

Lemma test_Matches s :
  forall r, Regex.test r s = true <-> Regex.Matches r s.
Proof.
  induction s as [|c s IH]; intros r; cbn [Regex.test].
  - split; [apply nullable_Matches|].
    intros H. now apply (Matches_nil_nullable r "").
  - rewrite IH. apply deriv_Matches.
Qed.

Lemma Matches_Star_Class p s :
  Regex.Matches (Regex.Star (Regex.Class p)) s <-> Regex.every p s = true.
Proof.
  split.
  - remember (Regex.Star (Regex.Class p)) as r eqn:Er. intros H. revert Er.
    induction H as [|q x Hq|a b u t _ _ _ _|a b u _ _|a b u _ _|a
                    |a u t Hu _ Ht IHt]; intros Er; try discriminate Er.
    + reflexivity.
    + injection Er as ->. apply Matches_Class_inv in Hu as (c & -> & Hc).
      rewrite append_cons_l, append_nil_l. cbn [Regex.every].
      rewrite IHt by reflexivity. now rewrite Hc.
  - induction s as [|c s IH]; cbn [Regex.every]; intros E; [constructor|].
    apply andb_true_iff in E as [Ec Es].
    change (Regex.Matches (Regex.Star (Regex.Class p)) (String c "" ++ s)).
    constructor; [now constructor | now apply IH].
Qed.

Lemma Matches_Plus_Class p s :
  Regex.Matches (Regex.Plus (Regex.Class p)) s
  <-> s <> "" /\ Regex.every p s = true.
Proof.
  unfold Regex.Plus. split.
  - intros H. apply Matches_Seq_inv in H as (u & t & -> & Hu & Ht).
    apply Matches_Class_inv in Hu as (c & -> & Hc).
    apply Matches_Star_Class in Ht. rewrite append_cons_l, append_nil_l.
    split; [discriminate|]. cbn [Regex.every]. now rewrite Ht, Hc.
  - intros [Hne E]. destruct s as [|c s]; [contradiction|].
    simpl in E. apply andb_true_iff in E as [Ec Es].
    change (Regex.Matches (Regex.Seq (Regex.Class p) (Regex.Star (Regex.Class p)))
              (String c "" ++ s)).
    constructor; [now constructor | now apply Matches_Star_Class].
Qed.

Lemma plain_spec s :
  Regex.plain s = true <-> s <> "" /\ Regex.every Regex.plainChar s = true.
Proof.
  unfold Regex.plain. rewrite andb_true_iff, negb_true_iff.
  split; intros [H1 H2]; (split; [|exact H2]).
  - intros ->. discriminate H1.
  - destruct s; [contradiction | reflexivity].
Qed.

Lemma every_app p s t :
  Regex.every p (s ++ t) = Regex.every p s && Regex.every p t.
Proof.
  induction s as [|c s IH]; simpl; [reflexivity|].
  now rewrite IH, andb_assoc.
Qed.

Lemma count_app c s t :
  Regex.count c (s ++ t) = Regex.count c s + Regex.count c t.
Proof. induction s as [|x s IH]; simpl; [reflexivity | rewrite IH; lia]. Qed.

Lemma every_mono (p q : ascii -> bool) s :
  (forall c, p c = true -> q c = true) ->
  Regex.every p s = true -> Regex.every q s = true.
Proof.
  intros Hpq. induction s as [|c s IH]; simpl; [reflexivity|].
  intros E. apply andb_true_iff in E as [Ec Es].
  now rewrite (Hpq c Ec), IH.
Qed.

Lemma plain_no_at s :
  Regex.every Regex.plainChar s = true -> Regex.count "@" s = 0.
Proof.
  induction s as [|c s IH]; simpl; [reflexivity|].
  intros E. apply andb_true_iff in E as [Ec Es]. rewrite (IH Es).
  unfold Regex.plainChar in Ec. apply negb_true_iff, orb_false_iff in Ec.
  destruct Ec as [_ ->]. reflexivity.
Qed.

(** The pattern of [email] matches the strings [local@domain.tld] whose
    three parts are non-empty runs of [[^\s@]]. *)
Lemma emailRegex_accepts (s : string) :
  (Regex.test Regex.emailRegex s = true
   <-> exists localPart domain tld,
         s = (localPart ++ "@" ++ domain ++ "." ++ tld)%string
         /\ Regex.plain localPart = true
         /\ Regex.plain domain = true
         /\ Regex.plain tld = true)
  /\ (Regex.test Regex.emailRegex s = true ->
      Regex.count "@" s = 1
      /\ Regex.every (fun c => negb (Regex.isSpace c)) s = true
      /\ 5 <= String.length s).
Proof.
  assert (Hiff : Regex.test Regex.emailRegex s = true
                 <-> exists localPart domain tld,
                     s = (localPart ++ "@" ++ domain ++ "." ++ tld)%string
                     /\ Regex.plain localPart = true
                     /\ Regex.plain domain = true
                     /\ Regex.plain tld = true).
  { rewrite test_Matches. unfold Regex.emailRegex. split.
    - intros H.
      apply Matches_Seq_inv in H as (l & r1 & -> & Hl & H).
      apply Matches_Seq_inv in H as (at_ & r2 & -> & Hat & H).
      apply Matches_Seq_inv in H as (d & r3 & -> & Hd & H).
      apply Matches_Seq_inv in H as (dot & t & -> & Hdot & Ht).
      apply Matches_Class_inv in Hat as (c & -> & Hc).
      apply Matches_Class_inv in Hdot as (c' & -> & Hc').
      apply Ascii.eqb_eq in Hc, Hc'. subst c c'.
      exists l, d, t. split; [reflexivity|].
      rewrite !plain_spec. rewrite <- !Matches_Plus_Class. auto.
    - intros (l & d & t & -> & Hl & Hd & Ht).
      rewrite plain_spec, <- Matches_Plus_Class in Hl, Hd, Ht.
      constructor; [exact Hl|].
      change ("@" ++ d ++ "." ++ t)%string
        with (String "@" "" ++ (d ++ String "." "" ++ t))%string.
      constructor; [now constructor|].
      constructor; [exact Hd|].
      constructor; [now constructor | exact Ht]. }
  split; [exact Hiff|].
  intros H. apply Hiff in H as (l & d & t & -> & Hl & Hd & Ht).
  apply plain_spec in Hl as [Hl0 Hl], Hd as [Hd0 Hd], Ht as [Ht0 Ht].
  assert (Hns : forall c, Regex.plainChar c = true
                          -> negb (Regex.isSpace c) = true).
  { intros c E. unfold Regex.plainChar in E.
    apply negb_true_iff, orb_false_iff in E as [-> _]. reflexivity. }
  split; [|split].
  - rewrite !count_app, (plain_no_at l Hl), (plain_no_at d Hd),
      (plain_no_at t Ht). reflexivity.
  - rewrite !every_app, (every_mono _ _ l Hns Hl), (every_mono _ _ d Hns Hd),
      (every_mono _ _ t Hns Ht). reflexivity.
  - rewrite !string_length_append.
    destruct l; [contradiction|]. destruct d; [contradiction|].
    destruct t; [contradiction|]. simpl. lia.
Qed.

(** ** Rules: messages and verdicts *)

Lemma orFallback_nonempty (resolved : option string) (text : string) :
  text <> "" -> Rules.orFallback resolved text <> "".
Proof.
  intros Ht. unfold Rules.orFallback. destruct resolved as [s|]; [|exact Ht].
  destruct (String.eqb s "") eqn:E; [exact Ht|].
  intros ->. discriminate E.
Qed.

Lemma cons_append_nonempty (c : ascii) (s t : string) :
  (String c s ++ t)%string <> "".
Proof. rewrite append_cons_l. discriminate. Qed.

Lemma reports_fallback (resolved : option string) (text : string) :
  text <> "" -> Rules.reports (JStr (Rules.orFallback resolved text)).
Proof.
  intros Ht. right. exists (Rules.orFallback resolved text).
  split; [now apply orFallback_nonempty | reflexivity].
Qed.

Lemma reports_null : Rules.reports JNull.
Proof. now left. Qed.

Lemma resolved_message (m : string) :
  m <> "" -> resolveValidationResult (JStr m) = [m].
Proof.
  intros Hm. unfold resolveValidationResult. cbn [truthy].
  destruct (String.eqb m "") eqn:E; [|reflexivity].
  apply String.eqb_eq in E. contradiction.
Qed.

Lemma blank_orDefault (msg : Rules.Message) (text : string) :
  Rules.blank msg = true ->
  Rules.ofMessage (Rules.resolveMessage (Rules.orDefault msg text)) = JNull
  \/ Rules.ofMessage (Rules.resolveMessage (Rules.orDefault msg text))
     = JStr "".
Proof.
  destruct msg as [|s|s|s]; cbn [Rules.blank]; intros E;
    try discriminate E; apply String.eqb_eq in E; subst s; cbn; auto.
Qed.

Lemma blank_passes (msg : Rules.Message) (text : string) :
  Rules.blank msg = true ->
  resolveValidationResult
    (Rules.ofMessage (Rules.resolveMessage (Rules.orDefault msg text))) = [].
Proof.
  intros E. destruct (blank_orDefault msg text E) as [-> | ->]; reflexivity.
Qed.

Lemma sameAs_reports (fieldName : string)
  (msg : Rules.Message) (v formValues : JsValue) :
  Rules.reports (Rules.sameAs fieldName msg v formValues).
Proof.
  unfold Rules.sameAs.
  destruct (negb (truthy formValues)); [apply reports_null|].
  destruct (negb (truthy v) && negb (truthy (getProp formValues fieldName)));
    [apply reports_null|].
  destruct (strictEq v (getProp formValues fieldName));
    [apply reports_null
    | apply reports_fallback, cons_append_nonempty].
Qed.

(** X22: an empty message switches off the rules that have no text of
    their own, and only those.  [email], [regex], [numeric], [oneOf] and
    [requiredIf] answer with the resolved message as it is: when the
    message is the empty string, or a ref or getter yielding it, they
    answer [null] or [''] for every value, and the field gets no error.
    The rules with a fallback text answer [null] or a non-empty string,
    whatever the message. *)
Theorem blank_message_disables_rule (toStr : JsValue -> string)
  (toNum : JsValue -> JsNumber) (numToString : JsNumber -> string)
  (msg : Rules.Message) (v formValues : JsValue) :
  (Rules.blank msg = true ->
   forall (test : JsValue -> bool) (list : list JsValue)
          (conditionField : string) (conditionValue : JsValue),
     resolveValidationResult (Rules.email toStr msg v) = []
     /\ resolveValidationResult (Rules.regex test msg v) = []
     /\ resolveValidationResult (Rules.numeric toStr msg v) = []
     /\ resolveValidationResult (Rules.oneOf list msg v) = []
     /\ resolveValidationResult
          (Rules.requiredIf conditionField conditionValue msg v formValues)
        = [])
  /\ (forall (len min max : JsNumber) (fieldName : string),
         Rules.reports (Rules.required msg v)
         /\ Rules.reports (Rules.minLength toStr numToString len msg v)
         /\ Rules.reports (Rules.maxLength toStr numToString len msg v)
         /\ Rules.reports (Rules.between toNum numToString min max msg v)
         /\ Rules.reports (Rules.minValue toNum numToString min msg v)
         /\ Rules.reports (Rules.maxValue toNum numToString max msg v)
         /\ Rules.reports (Rules.arrayMinLength numToString min msg v)
         /\ Rules.reports (Rules.arrayRequired msg v)
         /\ Rules.reports (Rules.arrayMaxLength numToString max msg v)
         /\ Rules.reports (Rules.sameAs fieldName msg v formValues)).
Proof.
  split.
  - intros Hb test list conditionField conditionValue.
    split; [|split; [|split; [|split]]].
    + unfold Rules.email.
      destruct (negb (truthy v) || Regex.test Regex.emailRegex (toStr v));
        [reflexivity | now apply blank_passes].
    + unfold Rules.regex.
      destruct (negb (truthy v) || test v);
        [reflexivity | now apply blank_passes].
    + unfold Rules.numeric.
      destruct (negb (truthy v) && negb (strictEq v (JNum (S754_zero false))));
        [reflexivity|].
      destruct (digitsOnly (toStr v)); [reflexivity | now apply blank_passes].
    + unfold Rules.oneOf.
      destruct (negb (truthy v)
                || existsb (fun x => Rules.sameValueZero x v) list);
        [reflexivity | now apply blank_passes].
    + unfold Rules.requiredIf.
      destruct (negb (truthy formValues)); [reflexivity|].
      destruct (negb (strictEq (getProp formValues conditionField)
                        conditionValue)); [reflexivity|].
      destruct (strictEq v JNull || strictEq v JUndefined
                || strictEq v (JStr "")); [now apply blank_passes|].
      destruct (Rules.isEmptyArray v); [now apply blank_passes | reflexivity].
  - intros len min max fieldName.
    split; [|split; [|split; [|split; [|split; [|split; [|split;
      [|split; [|split]]]]]]]].
    + unfold Rules.required.
      destruct (strictEq v JNull || strictEq v JUndefined
                || strictEq v (JStr "") || Rules.isEmptyArray v);
        [apply reports_fallback; discriminate | apply reports_null].
    + unfold Rules.minLength.
      destruct (negb (truthy v)
                || SFleb len (num_of_nat (String.length (toStr v))));
        [apply reports_null
        | apply reports_fallback, cons_append_nonempty].
    + unfold Rules.maxLength.
      destruct (negb (truthy v)
                || SFleb (num_of_nat (String.length (toStr v))) len);
        [apply reports_null
        | apply reports_fallback, cons_append_nonempty].
    + unfold Rules.between. destruct (isNullish v); [apply reports_null|].
      destruct (Rules.atLeast min (toNum v) && SFleb (toNum v) max);
        [apply reports_null
        | apply reports_fallback, cons_append_nonempty].
    + unfold Rules.minValue. destruct (isNullish v); [apply reports_null|].
      destruct (Rules.atLeast min (toNum v));
        [apply reports_null
        | apply reports_fallback, cons_append_nonempty].
    + unfold Rules.maxValue. destruct (isNullish v); [apply reports_null|].
      destruct (Rules.atMost max (toNum v));
        [apply reports_null
        | apply reports_fallback, cons_append_nonempty].
    + unfold Rules.arrayMinLength. destruct v; try apply reports_null.
      destruct (SFleb min (num_of_nat (List.length items)));
        [apply reports_null
        | apply reports_fallback, cons_append_nonempty].
    + unfold Rules.arrayRequired.
      destruct v as [| | | | | | | |r [|x items]|];
        try (apply reports_fallback; discriminate).
      apply reports_null.
    + unfold Rules.arrayMaxLength. destruct v; try apply reports_null.
      destruct (SFleb (num_of_nat (List.length items)) max);
        [apply reports_null
        | apply reports_fallback, cons_append_nonempty].
    + apply sameAs_reports.
Qed.

(** X23: what [custom] makes of the validator's answer.  The field gets no
    error exactly when the validator answers [true] or the empty string.
    A non-empty string is the error itself; every other answer, [false]
    as well as [undefined], [null], a number or an object, gives one
    error: the message passed, or ['Validation failed'] when there is
    none or it is empty. *)
Theorem custom_verdict (msg : Rules.Message) (result : JsValue) :
  (resolveValidationResult (Rules.custom msg result) = []
   <-> result = JBool true \/ result = JStr "")
  /\ (forall s, result = JStr s -> s <> "" ->
                resolveValidationResult (Rules.custom msg result) = [s])
  /\ (typeof result <> TString -> result <> JBool true ->
      resolveValidationResult (Rules.custom msg result)
      = [Rules.orFallback (Rules.resolveMessage msg) "Validation failed"]
      /\ Rules.orFallback (Rules.resolveMessage msg) "Validation failed"
         <> "").
Proof.
  assert (Hne : Rules.orFallback (Rules.resolveMessage msg)
                  "Validation failed" <> "")
    by (apply orFallback_nonempty; discriminate).
  assert (Hother : typeof result <> TString -> result <> JBool true ->
                   Rules.custom msg result
                   = JStr (Rules.orFallback (Rules.resolveMessage msg)
                             "Validation failed")).
  { intros Ht Hb. destruct result as [| |[|]| | | | | | |]; try reflexivity;
      [now contradiction Hb | now contradiction Ht]. }
  split; [|split].
  - split.
    + intros H.
      destruct result as [| |[|]| |s| | | | |];
        try (cbn [Rules.custom] in H;
             rewrite (resolved_message _ Hne) in H; discriminate H).
      * now left.
      * right. cbn [Rules.custom] in H.
        destruct (String.eqb s "") eqn:E;
          [apply String.eqb_eq in E; now subst|].
        rewrite resolved_message in H; [discriminate H|].
        intros ->. discriminate E.
    + intros [-> | ->]; reflexivity.
  - intros s -> Hs. cbn [Rules.custom]. now apply resolved_message.
  - intros Ht Hb. split; [|exact Hne].
    rewrite (Hother Ht Hb). now apply resolved_message.
Qed.

(** ** Rules: cross-field rules, ranges, empty values *)

Lemma SFeqb_sym (x y : JsNumber) : SFeqb x y = SFeqb y x.
Proof.
  unfold SFeqb, SFcompare.
  destruct x as [s| s| |s m e], y as [s'|s'| |s' m' e']; try reflexivity;
    try (destruct s, s'; reflexivity); try (destruct s; reflexivity);
    try (destruct s'; reflexivity).
  change (Pos.compare_cont Eq m' m) with (Pos.compare m' m).
  change (Pos.compare_cont Eq m m') with (Pos.compare m m').
  rewrite (Z.compare_antisym e e'), (Pos.compare_antisym m m').
  destruct s, s'; try reflexivity;
    destruct (e ?= e')%Z; cbn [CompOpp]; try reflexivity;
    destruct (Pos.compare m m'); reflexivity.
Qed.

Lemma strictEq_sym (a b : JsValue) : strictEq a b = strictEq b a.
Proof.
  destruct a, b; cbn [strictEq]; try reflexivity;
    try apply Nat.eqb_sym.
  - now destruct b, b0.
  - apply SFeqb_sym.
  - apply String.eqb_sym.
Qed.

Lemma rejected_fallback (resolved : option string) (text : string) :
  text <> "" ->
  resolveValidationResult (JStr (Rules.orFallback resolved text))
  = [Rules.orFallback resolved text].
Proof. intros Ht. now apply resolved_message, orFallback_nonempty. Qed.

Lemma sameAs_passes (fieldName : string) (msg : Rules.Message)
  (v formValues : JsValue) :
  truthy formValues = true ->
  resolveValidationResult (Rules.sameAs fieldName msg v formValues) = []
  <-> strictEq v (getProp formValues fieldName) = true
      \/ (truthy v = false /\ truthy (getProp formValues fieldName) = false).
Proof.
  intros Hf. unfold Rules.sameAs. rewrite Hf. cbn [negb].
  destruct (truthy v) eqn:Tv, (truthy (getProp formValues fieldName)) eqn:Ty;
    cbn [negb andb];
    try (destruct (strictEq v (getProp formValues fieldName)) eqn:E;
         [split; [now left | reflexivity]|];
         rewrite rejected_fallback by apply cons_append_nonempty;
         split; [discriminate | now intros [H|[H1 H2]]]).
  split; [now right | reflexivity].
Qed.

(** X24: the verdict of [sameAs], given the form values.  The field
    passes when its value is strictly equal to the value of the other
    field, and also when both are falsy, however they differ (an empty
    string beside [null], [0] or [false]); in every other case it gets
    one error.  The verdict is the same whichever of the two fields
    carries the rule. *)
Theorem sameAs_verdict (fieldName other : string) (msg msg' : Rules.Message)
  (formValues : JsValue) :
  truthy formValues = true ->
  let x := getProp formValues other in
  let y := getProp formValues fieldName in
  (forall v,
      resolveValidationResult (Rules.sameAs fieldName msg v formValues) = []
      <-> strictEq v y = true \/ (truthy v = false /\ truthy y = false))
  /\ (forall v,
         resolveValidationResult (Rules.sameAs fieldName msg v formValues)
         <> [] ->
         exists m, m <> ""
           /\ resolveValidationResult
                (Rules.sameAs fieldName msg v formValues) = [m])
  /\ (resolveValidationResult (Rules.sameAs fieldName msg x formValues) = []
      <-> resolveValidationResult (Rules.sameAs other msg' y formValues)
          = []).
Proof.
  intros Hf. cbv zeta. split; [|split].
  - intros v. now apply sameAs_passes.
  - intros v Hne.
    destruct (sameAs_reports fieldName msg v
                formValues) as [E|(m & Hm & E)]; rewrite E in Hne |- *.
    + now contradiction Hne.
    + exists m. split; [exact Hm | now apply resolved_message].
  - rewrite !sameAs_passes by exact Hf.
    rewrite (strictEq_sym (getProp formValues fieldName)). tauto.
Qed.

(** X25: [requiredIf] is [required] under a condition.  While the
    condition field is not strictly equal to the condition value the rule
    answers [null]; a NaN condition value is never met.  Once the
    condition is met in the form values given, and unless the message is
    empty, the rule answers what [required] with the same message
    answers. *)
Theorem requiredIf_follows_required (conditionField : string)
  (conditionValue : JsValue) (msg : Rules.Message) (v formValues : JsValue) :
  (strictEq (getProp formValues conditionField) conditionValue = false ->
   Rules.requiredIf conditionField conditionValue msg v formValues = JNull)
  /\ (conditionValue = JNum S754_nan ->
      Rules.requiredIf conditionField conditionValue msg v formValues = JNull)
  /\ (truthy formValues = true ->
      strictEq (getProp formValues conditionField) conditionValue = true ->
      Rules.blank msg = false ->
      Rules.requiredIf conditionField conditionValue msg v formValues
      = Rules.required msg v).
Proof.
  split; [|split].
  - intros E. unfold Rules.requiredIf. rewrite E.
    now destruct (negb (truthy formValues)).
  - intros ->. unfold Rules.requiredIf.
    destruct (negb (truthy formValues)); [reflexivity|].
    replace (strictEq (getProp formValues conditionField) (JNum S754_nan))
      with false; [reflexivity|].
    destruct (getProp formValues conditionField) as [| | |n| | | | | |];
      try reflexivity.
    cbn [strictEq]. now destruct n.
  - intros Hf E Hb. unfold Rules.requiredIf, Rules.required.
    rewrite Hf, E. cbn [negb].
    assert (Hm : Rules.ofMessage
                   (Rules.resolveMessage
                      (Rules.orDefault msg "This field is required"))
                 = JStr (Rules.orFallback
                           (Rules.resolveMessage
                              (Rules.orDefault msg "This field is required"))
                           "This field is required")).
    { destruct msg as [|s|s|s];
        cbn [Rules.blank Rules.orDefault Rules.resolveMessage
               Rules.ofMessage Rules.orFallback] in Hb |- *;
        [reflexivity| | |]; rewrite ?Hb;
        cbn [Rules.ofMessage Rules.orFallback]; rewrite ?Hb; reflexivity. }
    rewrite Hm.
    destruct (strictEq v JNull || strictEq v JUndefined
              || strictEq v (JStr "")); cbn [orb]; [reflexivity|].
    now destruct (Rules.isEmptyArray v).
Qed.

(** X26: [between] is [minValue] and [maxValue] together.  A value passes
    [between(min, max)] exactly when it passes both [minValue(min)] and
    [maxValue(max)]; a value other than [null] and [undefined] whose
    [Number(v)] is NaN fails all three. *)
Theorem between_is_minValue_and_maxValue (toNum : JsValue -> JsNumber)
  (numToString : JsNumber -> string) (min max : JsNumber)
  (msg msg1 msg2 : Rules.Message) (v : JsValue) :
  (resolveValidationResult (Rules.between toNum numToString min max msg v) = []
   <-> resolveValidationResult (Rules.minValue toNum numToString min msg1 v)
       = []
       /\ resolveValidationResult
            (Rules.maxValue toNum numToString max msg2 v) = [])
  /\ (isNullish v = false -> num_is_nan (toNum v) = true ->
      resolveValidationResult (Rules.between toNum numToString min max msg v)
      <> []
      /\ resolveValidationResult
           (Rules.minValue toNum numToString min msg1 v) <> []
      /\ resolveValidationResult
           (Rules.maxValue toNum numToString max msg2 v) <> []).
Proof.
  unfold Rules.between, Rules.minValue, Rules.maxValue, Rules.atLeast,
    Rules.atMost. cbv zeta.
  destruct (isNullish v).
  - split; [split; [now split | reflexivity] | discriminate].
  - split.
    + destruct (negb (num_is_nan (toNum v))), (SFleb min (toNum v)),
        (SFleb (toNum v) max); cbn [andb];
        rewrite ?rejected_fallback by apply cons_append_nonempty;
        split; try (intros [? ?]); try split; try reflexivity;
          try discriminate; try assumption.
    + intros _ ->. cbn [negb andb].
      rewrite !rejected_fallback by apply cons_append_nonempty.
      split; [|split]; discriminate.
Qed.

(** X27: only [required] and [arrayRequired] ask for a value.  The string
    rules answer [null] for every falsy value, and [numeric] for every
    falsy value but zero; the range rules and the array length rules
    answer [null] for [null] and [undefined], which [required] and
    [arrayRequired] reject.  [required] itself accepts every boolean and
    every number: [false], [0] and NaN are values to it. *)
Theorem rules_skip_empty_values (toStr : JsValue -> string)
  (toNum : JsValue -> JsNumber) (numToString : JsNumber -> string)
  (msg : Rules.Message) (v : JsValue) :
  (truthy v = false ->
   forall (len : JsNumber) (test : JsValue -> bool) (list : list JsValue),
     Rules.minLength toStr numToString len msg v = JNull
     /\ Rules.maxLength toStr numToString len msg v = JNull
     /\ Rules.email toStr msg v = JNull
     /\ Rules.regex test msg v = JNull
     /\ Rules.oneOf list msg v = JNull
     /\ (strictEq v (JNum (S754_zero false)) = false ->
         Rules.numeric toStr msg v = JNull))
  /\ (isNullish v = true ->
      forall min max : JsNumber,
        Rules.between toNum numToString min max msg v = JNull
        /\ Rules.minValue toNum numToString min msg v = JNull
        /\ Rules.maxValue toNum numToString max msg v = JNull
        /\ Rules.arrayMinLength numToString min msg v = JNull
        /\ Rules.arrayMaxLength numToString max msg v = JNull
        /\ resolveValidationResult (Rules.required msg v) <> []
        /\ resolveValidationResult (Rules.arrayRequired msg v) <> [])
  /\ (typeof v = TBoolean \/ typeof v = TNumber ->
      Rules.required msg v = JNull).
Proof.
  split; [|split].
  - intros Tv len test list.
    unfold Rules.minLength, Rules.maxLength, Rules.email, Rules.regex,
      Rules.oneOf, Rules.numeric.
    rewrite Tv. cbn [negb orb andb].
    split; [reflexivity|]. split; [reflexivity|]. split; [reflexivity|].
    split; [reflexivity|]. split; [reflexivity|]. now intros ->.
  - intros Hn min max.
    destruct v; try discriminate Hn; cbn;
      rewrite ?rejected_fallback by discriminate;
      repeat (split; [try reflexivity; discriminate|]); discriminate.
  - intros [Ht|Ht]; destruct v; try discriminate Ht; reflexivity.
Qed.

(** ** Rules: [email] *)

Lemma nonblank_message (msg : Rules.Message) (text : string) :
  text <> "" -> Rules.blank msg = false ->
  exists m, m <> ""
    /\ Rules.ofMessage (Rules.resolveMessage (Rules.orDefault msg text))
       = JStr m.
Proof.
  intros Ht Hb.
  destruct msg as [|s|s|s];
    cbn [Rules.blank Rules.orDefault Rules.resolveMessage] in Hb |- *.
  - exists text. split; [exact Ht|].
    destruct (String.eqb text "") eqn:E; [|reflexivity].
    apply String.eqb_eq in E. contradiction.
  - rewrite Hb. exists s. split; [|reflexivity]. intros ->. discriminate Hb.
  - exists s. split; [|reflexivity]. intros ->. discriminate Hb.
  - exists s. split; [|reflexivity]. intros ->. discriminate Hb.
Qed.

(** X21: the addresses [email] accepts.  For a non-empty string and a
    message that is not empty, the field gets no error exactly when the
    string is [local@domain.tld] with three non-empty parts free of white
    space and of [@].  An accepted address therefore holds one [@] and no
    white space and is at least five characters long; nothing more is
    asked of it: further dots may stand anywhere in the parts, also
    first, last or doubled. *)
Theorem email_accepts (toStr : JsValue -> string) (msg : Rules.Message)
  (s : string) :
  toStr (JStr s) = s -> s <> "" -> Rules.blank msg = false ->
  (resolveValidationResult (Rules.email toStr msg (JStr s)) = []
   <-> exists localPart domain tld,
         s = (localPart ++ "@" ++ domain ++ "." ++ tld)%string
         /\ Regex.plain localPart = true
         /\ Regex.plain domain = true
         /\ Regex.plain tld = true)
  /\ (resolveValidationResult (Rules.email toStr msg (JStr s)) = [] ->
      Regex.count "@" s = 1
      /\ Regex.every (fun c => negb (Regex.isSpace c)) s = true
      /\ 5 <= String.length s).
Proof.
  intros Hs Hne Hb.
  destruct (emailRegex_accepts s) as [Hiff Hcons].
  assert (Hrule : resolveValidationResult (Rules.email toStr msg (JStr s)) = []
                  <-> Regex.test Regex.emailRegex s = true).
  { unfold Rules.email. rewrite Hs. cbn [truthy].
    destruct (String.eqb s "") eqn:E;
      [apply String.eqb_eq in E; contradiction|].
    cbn [negb orb].
    destruct (Regex.test Regex.emailRegex s); [now split|].
    destruct (nonblank_message msg "Invalid email address")
      as (m & Hm & ->); [discriminate | exact Hb |].
    rewrite (resolved_message m Hm). split; discriminate. }
  split.
  - rewrite Hrule. exact Hiff.
  - intros H. apply Hcons, Hrule, H.
Qed.

Lemma email_accepts_witness :
  Regex.count "@" "ann@example.org" = 1
  /\ Regex.every (fun c => negb (Regex.isSpace c)) "ann@example.org" = true
  /\ 5 <= String.length "ann@example.org".
Proof.
  destruct (email_accepts sampleToStr Rules.MessageUndefined
              "ann@example.org" eq_refl ltac:(discriminate) eq_refl)
    as [_ Hcons].
  apply Hcons. vm_compute. reflexivity.
Defined.

Lemma blank_message_disables_rule_witness :
  resolveValidationResult
    (Rules.email sampleToStr (Rules.MessageString "") (JStr "nobody")) = []
  /\ resolveValidationResult
       (Rules.requiredIf "plan" (JStr "pro") (Rules.MessageString "")
          (getProp sampleSignup "company") sampleSignup) = [].
Proof.
  destruct (blank_message_disables_rule sampleToStr sampleToNum
              sampleNumToString (Rules.MessageString "") (JStr "nobody")
              sampleSignup) as [Hoff _].
  destruct (blank_message_disables_rule sampleToStr sampleToNum
              sampleNumToString (Rules.MessageString "")
              (getProp sampleSignup "company") sampleSignup) as [Hoff' _].
  split.
  - exact (proj1 (Hoff eq_refl (fun _ => false) [] "plan" (JStr "pro"))).
  - exact (proj2 (proj2 (proj2 (proj2
             (Hoff' eq_refl (fun _ => false) [] "plan" (JStr "pro")))))).
Defined.

Lemma custom_verdict_witness :
  resolveValidationResult
    (Rules.custom Rules.MessageUndefined (JStr "Name is taken"))
  = ["Name is taken"]
  /\ resolveValidationResult (Rules.custom Rules.MessageUndefined JUndefined)
     = ["Validation failed"].
Proof.
  destruct (custom_verdict Rules.MessageUndefined (JStr "Name is taken"))
    as (_ & Hstring & _).
  destruct (custom_verdict Rules.MessageUndefined JUndefined)
    as (_ & _ & Hother).
  split.
  - apply (Hstring "Name is taken" eq_refl). discriminate.
  - apply Hother; discriminate.
Defined.

Lemma sameAs_verdict_witness :
  resolveValidationResult
    (Rules.sameAs "password" Rules.MessageUndefined
       (getProp sampleSignup "confirm") sampleSignup) = []
  /\ resolveValidationResult
       (Rules.sameAs "confirm" Rules.MessageUndefined
          (getProp sampleSignup "password") sampleSignup) = [].
Proof.
  destruct (sameAs_verdict "password" "confirm" Rules.MessageUndefined
              Rules.MessageUndefined sampleSignup eq_refl)
    as (Hpass & _ & Hsym).
  assert (H : resolveValidationResult
                (Rules.sameAs "password" Rules.MessageUndefined
                   (getProp sampleSignup "confirm") sampleSignup) = [])
    by (apply Hpass; left; reflexivity).
  split; [exact H | apply Hsym, H].
Defined.

Lemma requiredIf_follows_required_witness :
  Rules.requiredIf "plan" (JStr "pro") Rules.MessageUndefined
    (getProp sampleSignup "company") sampleSignup
  = Rules.required Rules.MessageUndefined (getProp sampleSignup "company")
  /\ Rules.requiredIf "plan" (JStr "free") Rules.MessageUndefined
       (getProp sampleSignup "company") sampleSignup = JNull.
Proof.
  destruct (requiredIf_follows_required "plan" (JStr "pro")
              Rules.MessageUndefined (getProp sampleSignup "company")
              sampleSignup) as (_ & _ & Hmet).
  destruct (requiredIf_follows_required "plan" (JStr "free")
              Rules.MessageUndefined (getProp sampleSignup "company")
              sampleSignup) as (Hunmet & _).
  split; [apply Hmet; reflexivity | apply Hunmet; reflexivity].
Defined.

Lemma between_is_minValue_and_maxValue_witness :
  resolveValidationResult
    (Rules.between sampleToNum sampleNumToString (S754_zero false)
       (S754_infinity false) Rules.MessageUndefined (JStr "abc")) <> [].
Proof.
  destruct (between_is_minValue_and_maxValue sampleToNum sampleNumToString
              (S754_zero false) (S754_infinity false) Rules.MessageUndefined
              Rules.MessageUndefined Rules.MessageUndefined (JStr "abc"))
    as (_ & Hnan).
  apply Hnan; reflexivity.
Defined.

Lemma rules_skip_empty_values_witness :
  Rules.email sampleToStr Rules.MessageUndefined (JStr "") = JNull
  /\ Rules.required Rules.MessageUndefined (JBool false) = JNull
  /\ resolveValidationResult (Rules.required Rules.MessageUndefined JNull)
     <> [].
Proof.
  destruct (rules_skip_empty_values sampleToStr sampleToNum sampleNumToString
              Rules.MessageUndefined (JStr "")) as (Hfalsy & _).
  destruct (rules_skip_empty_values sampleToStr sampleToNum sampleNumToString
              Rules.MessageUndefined (JBool false)) as (_ & _ & Hbool).
  destruct (rules_skip_empty_values sampleToStr sampleToNum sampleNumToString
              Rules.MessageUndefined JNull) as (_ & Hnull & _).
  split; [|split].
  - exact (proj1 (proj2 (proj2
             (Hfalsy eq_refl (S754_zero false) (fun _ => false) [])))).
  - apply Hbool. now left.
  - exact (proj1 (proj2 (proj2 (proj2 (proj2 (proj2
             (Hnull eq_refl (S754_zero false) (S754_zero false)))))))).
Defined.

(** ** The state manager: merging values, the dirty state *)

Lemma isDirty_true (s : FormState.T) :
  FormState.isDirty s = true
  <-> exists key,
        FormState.dirty s !! key = Some true
        /\ isConditionallyInactive (FormState.rules s) (FormState.values s)
             (FormState.nextRef s) key = false.
Proof.
  unfold FormState.isDirty. cbv zeta.
  match goal with
  | |- Nat.ltb 0 (List.length ?l) = true <-> _ => set (active := l)
  end.
  assert (Hin : forall key,
             In key active
             <-> FormState.dirty s !! key = Some true
                 /\ isConditionallyInactive (FormState.rules s)
                      (FormState.values s) (FormState.nextRef s) key = false).
  { intros key. unfold active. rewrite !filter_In, negb_true_iff.
    rewrite <- list_elem_of_In, map_to_list_keys.
    split.
    - intros [[[flag Hk] Hd] Hi]. rewrite Hk in Hd |- *. cbn in Hd.
      now subst flag.
    - intros [Hk Hi]. rewrite Hk. split; [split|]; eauto. }
  split.
  - intros H. destruct active as [|key rest] eqn:E; [discriminate H|].
    exists key. apply Hin. now left.
  - intros (key & Hk). apply Hin in Hk.
    destruct active; [contradiction | reflexivity].
Qed.

Lemma isDirty_false_after (visited : list string) (s s' : FormState.T) :
  (forall q, resetAt visited q s s') ->
  (forall key, FormState.dirty s !! key = Some true -> In key visited) ->
  FormState.isDirty s' = false.
Proof.
  intros Hreset Hflags.
  destruct (FormState.isDirty s') eqn:E; [|reflexivity]. exfalso.
  apply isDirty_true in E as (key & Hk & _).
  destruct (Hreset key) as (_ & _ & Hd & _). rewrite Hd in Hk.
  destruct (bool_decide (key ∈ visited)) eqn:B; [discriminate Hk|].
  apply bool_decide_eq_false in B. apply B, list_elem_of_In, Hflags, Hk.
Qed.

Lemma resetState_resetAt (s : FormState.T) (q : string) :
  resetAt (keys (ownFields (FormState.values s))) q s (FormState.resetState s).
Proof.
  unfold FormState.resetState.
  apply (fold_resetAt (fun acc key => FormState.resetKey key acc)).
  intros acc key. apply resetKey_records.
Qed.

Lemma clear_resetAt (useInitial : bool) (s : FormState.T) (q : string) :
  resetAt (keys (ownFields (FormState.values s))) q s
    (FormState.clear useInitial s).
Proof.
  unfold FormState.clear.
  pose proof (fold_resetAt (FormState.clearKey useInitial)) as H.
  specialize (H (fun acc key =>
                   let '(conj a (conj b (conj c (conj d _))))
                     := clearKey_records useInitial acc key in
                   conj a (conj b (conj c d)))).
  exact (H (keys (ownFields (FormState.values s))) q s).
Qed.

Lemma reset_resetAt (s : FormState.T) (q : string) :
  resetAt (keys (ownFields (FormState.initialValues s))) q s
    (FormState.reset None s).
Proof.
  unfold FormState.reset.
  match goal with
  | |- resetAt _ _ _ (fold_left ?step _ ?s0) =>
      pose proof (fold_resetAt step) as H; specialize (H (fun acc key =>
        conj eq_refl (conj eq_refl (conj eq_refl eq_refl))));
      exact (H (keys (ownFields (FormState.initialValues s))) q s0)
  end.
Qed.

(** X28: [isDirty] and the resets.  The form is dirty exactly when some
    field is flagged dirty and is not conditionally inactive.  When the
    flagged fields are top-level keys of the initial values, the form is
    clean after [reset()]; when they are top-level keys of the values, it
    is clean after [resetState()] and after [clear()]. *)
Theorem isDirty_after_reset (s : FormState.T) :
  (FormState.isDirty s = true
   <-> exists key,
         FormState.dirty s !! key = Some true
         /\ isConditionallyInactive (FormState.rules s) (FormState.values s)
              (FormState.nextRef s) key = false)
  /\ ((forall key, FormState.dirty s !! key = Some true ->
                   In key (keys (ownFields (FormState.initialValues s)))) ->
      FormState.isDirty (FormState.reset None s) = false)
  /\ ((forall key, FormState.dirty s !! key = Some true ->
                   In key (keys (ownFields (FormState.values s)))) ->
      FormState.isDirty (FormState.resetState s) = false
      /\ forall useInitial,
           FormState.isDirty (FormState.clear useInitial s) = false).
Proof.
  split; [apply isDirty_true|]. split.
  - apply (isDirty_false_after
             (keys (ownFields (FormState.initialValues s))) s).
    intros q. apply reset_resetAt.
  - intros Hflags. split.
    + apply (isDirty_false_after
               (keys (ownFields (FormState.values s))) s); [|exact Hflags].
      intros q. apply resetState_resetAt.
    + intros useInitial.
      apply (isDirty_false_after
               (keys (ownFields (FormState.values s))) s); [|exact Hflags].
      intros q. apply clear_resetAt.
Qed.



(** ** Paths: [objectPath] *)

(** X30: [objectPath(field, property)] names a property of an object field
    the way the engine does.  For a field and a property without a dot,
    split at the dots it gives back the two parts, and the value
    [validateField] validates under it is that property of the value of
    the field: [undefined] when the field holds [null] or [undefined]. *)
Theorem objectPath_names_property (m : ValidationManager)
  (objectField property : string) :
  Str.includes_char "." objectField = false ->
  Str.includes_char "." property = false ->
  objectField <> "" ->
  truthy (values m) = true ->
  let path := objectPath objectField property in
  Str.split_dot path = [objectField; property]
  /\ currentValueOf path m
     = readStep (getProp (values m) objectField) property
  /\ (isNullish (getProp (values m) objectField) = true ->
      currentValueOf path m = JUndefined).
Proof.
  intros Hf Hp Hne Ht. cbv zeta.
  assert (Hsplit : Str.split_dot (objectPath objectField property)
                   = [objectField; property]).
  { unfold objectPath.
    now rewrite (split_dot_app _ _ Hf), (split_dot_plain _ Hp). }
  assert (Hdot : Str.includes_char "." (objectPath objectField property)
                 = true).
  { unfold objectPath. rewrite includes_char_app.
    apply orb_true_intro. right. reflexivity. }
  assert (Hpath : truthy (JStr (objectPath objectField property)) = true).
  { unfold objectPath. cbn [truthy].
    destruct objectField; [contradiction | reflexivity]. }
  assert (Hn : isNullish (values m) = false)
    by (destruct (values m); try reflexivity; discriminate Ht).
  assert (Hread : currentValueOf (objectPath objectField property) m
                  = readStep (getProp (values m) objectField) property).
  { unfold currentValueOf. rewrite Hdot. unfold getNestedValue.
    rewrite Hsplit, Ht, Hpath. cbn [negb orb fold_left]. now rewrite Hn. }
  split; [exact Hsplit|]. split; [exact Hread|].
  intros Hnull. rewrite Hread. unfold readStep. now rewrite Hnull.
Qed.

Lemma objectPath_names_property_witness :
  Str.split_dot (objectPath "address" "city") = ["address"; "city"]
  /\ currentValueOf (objectPath "address" "city") sampleManager = JUndefined.
Proof.
  destruct (objectPath_names_property sampleManager "address" "city"
              eq_refl eq_refl ltac:(discriminate) eq_refl)
    as (Hsplit & _ & Hmissing).
  split; [exact Hsplit | apply Hmissing; reflexivity].
Defined.
